(** * BOJ money-market operations: classifier, record model, normalizers,
      builder, lookup layer and persistence bridge

    Shallow embedding of [src/project_classes.py] and of the data-handling
    functions of [src/project.py].

    Conventions of the embedding.
    - Python [str] is [string]; only the ASCII range is modelled, so
      [re.IGNORECASE] is ASCII case folding.
    - Python [int] is [Z].  Python [float] is an exact rational kept in
      lowest terms ([Q] normalised by [Qred]); rounding of binary floating
      point is not modelled, the range of the floats is where an [int] is
      turned into one: beyond it the conversion raises [OverflowError].
    - [None] in an optional attribute is [None : option _].
    - A Python exception is a value of [exn]; a function that may raise
      returns [result].
    - A mutable Python list owned by one object is a functional list; a
      setter applied to an element obtained from the list updates that
      element in place in the list. *)

From Stdlib Require Import List String Ascii ZArith QArith Qreduction Qround Lia Bool.
From Stdlib Require Import ListSet Permutation OrderedTypeEx Sorted DecimalString.
Import ListNotations.

Open Scope string_scope.
Open Scope Z_scope.

(** ** Exceptions *)

Inductive exn : Type :=
| ValueError (msg : string)
| TypeError
| AttributeError
| IndexError
| OverflowError.

Inductive result (A : Type) : Type :=
| Ok (a : A)
| Raise (e : exn).

Arguments Ok {A} a.
Arguments Raise {A} e.

Definition bind {A B : Type} (m : result A) (k : A -> result B) : result B :=
  match m with
  | Ok a => k a
  | Raise e => Raise e
  end.

Notation "x <- m ;; k" := (bind m (fun x => k))
  (at level 61, m at next level, right associativity).

(** ** Numbers *)

(** Python float as a rational in lowest terms. *)
Definition float_of_int (z : Z) : Q := inject_Z z.

(** [a / b] on two ints (true division), for a positive constant divisor. *)
Definition truediv (a : Z) (b : positive) : Q := Qred (a # b).

(** [a + b] on floats. *)
Definition fadd (a b : Q) : Q := Qred (a + b).

(** A quotient of two ints rounds to a float as long as its magnitude is
    under [2^1024 - 2^970], half a step above the largest float. *)
Definition float_limit : Z := 2 ^ 1024 - 2 ^ 970.

(** [a / b] on two ints, as Python evaluates it: [OverflowError] when the
    quotient is beyond the floats. *)
Definition int_truediv (a : Z) (b : positive) : result Q :=
  if float_limit * Zpos b <=? Z.abs a then Raise OverflowError
  else Ok (truediv a b).

(** [str(n)] of an [int]. *)
Definition str_of_int (n : Z) : string := NilZero.string_of_int (Z.to_int n).

(** ** Calendar dates ([datetime.date]) *)

Record date : Type := mkdate { year : Z; month : Z; day : Z }.

Definition is_leap (y : Z) : bool :=
  (y mod 4 =? 0) && (negb (y mod 100 =? 0) || (y mod 400 =? 0)).

Definition days_in_month (y m : Z) : Z :=
  if m =? 2 then (if is_leap y then 29 else 28)
  else if (m =? 4) || (m =? 6) || (m =? 9) || (m =? 11) then 30
  else 31.

(** The dates that a [datetime.date] can be: a day of a month of a year
    from 1 to 9999. *)
Definition valid_dateb (d : date) : bool :=
  (1 <=? year d) && (year d <=? 9999) && (1 <=? month d) && (month d <=? 12)
  && (1 <=? day d) && (day d <=? days_in_month (year d) (month d)).

Definition valid_date (d : date) : Prop := valid_dateb d = true.

Definition date_eqb (a b : date) : bool :=
  (year a =? year b) && (month a =? month b) && (day a =? day b).

Definition date_compare (a b : date) : comparison :=
  match year a ?= year b with
  | Eq => match month a ?= month b with
          | Eq => day a ?= day b
          | c => c
          end
  | c => c
  end.

(** [a <= b] on dates. *)
Definition date_leb (a b : date) : bool :=
  match date_compare a b with Gt => false | _ => true end.

(** ** project_classes.py *)

(** class Transaction: the attributes set by [__init__] and the setters. *)
Record Transaction : Type := mkTransaction {
  Rate : option Q;
  SuccessfulBids : option Z;
  CompetitiveBids : option Z;
  AveSpread : option Q;
  Instrument : string;
  Currency : string;
  Units : Z
}.

(** [Transaction.__init__] *)
Definition Transaction_init (instrument currency : string) (units : Z) : Transaction :=
  mkTransaction None None None None instrument currency units.

Definition set_Rate (r : option Q) (t : Transaction) : Transaction :=
  mkTransaction r (SuccessfulBids t) (CompetitiveBids t) (AveSpread t)
                (Instrument t) (Currency t) (Units t).

Definition set_SuccessfulBids (b : option Z) (t : Transaction) : Transaction :=
  mkTransaction (Rate t) b (CompetitiveBids t) (AveSpread t)
                (Instrument t) (Currency t) (Units t).

Definition set_CompetitiveBids (b : option Z) (t : Transaction) : Transaction :=
  mkTransaction (Rate t) (SuccessfulBids t) b (AveSpread t)
                (Instrument t) (Currency t) (Units t).

(** class Operation *)
Record Operation : Type := mkOperation {
  Date : date;
  Transactions : list Transaction
}.

(** [Operation.__init__] *)
Definition Operation_init (transdate : date) : Operation :=
  mkOperation transdate [].

(** [s[0:3]] *)
Definition slice3 (s : string) : string := substring 0 3 s.

Module Op.

(** [AddTransaction]: appends, and returns the new transaction. *)
Definition AddTransaction (op : Operation) (instrument currency : string) (unit : Z)
  : Operation * Transaction :=
  let new_trans := Transaction_init instrument currency unit in
  (mkOperation (Date op) (Transactions op ++ [new_trans]), new_trans).

(** [list.remove] of the first transaction found with the instrument. *)
Fixpoint remove_first (instrument : string) (ts : list Transaction)
  : option (list Transaction) :=
  match ts with
  | [] => None
  | t :: ts' =>
      if String.eqb (Instrument t) instrument then Some ts'
      else match remove_first instrument ts' with
           | Some r => Some (t :: r)
           | None => None
           end
  end.

(** [DeleteTransaction] *)
Definition DeleteTransaction (op : Operation) (instrument : string)
  : Operation * bool :=
  match remove_first instrument (Transactions op) with
  | Some ts => (mkOperation (Date op) ts, true)
  | None => (op, false)
  end.

(** property [Instruments] *)
Definition Instruments (op : Operation) : list string :=
  map Instrument (Transactions op).

(** property [TransactionsCount] *)
Definition TransactionsCount (op : Operation) : Z :=
  Z.of_nat (List.length (Transactions op)).

Fixpoint find_trans (instrument : string) (ts : list Transaction)
  : option Transaction :=
  match ts with
  | [] => None
  | t :: ts' =>
      if String.eqb (Instrument t) instrument then Some t
      else find_trans instrument ts'
  end.

(** [(trans.SuccessfulBids * trans.Units) / 1000]; [None * int] raises, and
    so does the division of a product beyond the floats. *)
Definition bid_value (t : Transaction) : result Q :=
  match SuccessfulBids t with
  | Some sb => int_truediv (sb * Units t) 1000
  | None => Raise TypeError
  end.

(** The loop of the [instrument is not None] branch. *)
Fixpoint value_named (instrument : string) (ts : list Transaction) : result Q :=
  match ts with
  | [] => Ok 0%Q
  | t :: ts' =>
      if String.eqb (Instrument t) instrument then bid_value t
      else value_named instrument ts'
  end.

(** The loop of the [else] branch, [total] being the accumulator. *)
Fixpoint value_total (total : Q) (ts : list Transaction) : result Q :=
  match ts with
  | [] => Ok total
  | t :: ts' =>
      if String.eqb (slice3 (Instrument t)) "JGB"
      then v <- bid_value t ;; value_total (fadd total v) ts'
      else value_total total ts'
  end.

(** [TransactionValue] *)
Definition TransactionValue (op : Operation) (instrument : option string)
  : result Q :=
  match instrument with
  | Some i => value_named i (Transactions op)
  | None => value_total 0%Q (Transactions op)
  end.

(** [TransactionRate]: the stored rate, possibly [None], or [0.0]. *)
Fixpoint rate_named (instrument : string) (ts : list Transaction) : option Q :=
  match ts with
  | [] => Some 0%Q
  | t :: ts' =>
      if String.eqb (Instrument t) instrument then Rate t
      else rate_named instrument ts'
  end.

Definition TransactionRate (op : Operation) (instrument : string) : option Q :=
  rate_named instrument (Transactions op).

(** Method [Transaction(instrument)] *)
Definition Transaction (op : Operation) (instrument : string)
  : option Transaction :=
  find_trans instrument (Transactions op).

End Op.

(** ** Regular expressions ([re]), for the constructs the patterns use

    Backtracking matcher in continuation-passing style, greedy as in [re]:
    an optional item is tried first with the item, [.+] first with the
    longest run.  All patterns are used with [re.IGNORECASE]. *)

Inductive regex : Type :=
| Eps
| Chr (c : ascii)               (* a literal character *)
| Dot                           (* [.]: any character but a newline *)
| Digit                         (* [[0-9]] *)
| Eol                           (* [$] *)
| Seq (r1 r2 : regex)
| Opt (r : regex)               (* [r?] and [(?:r)?] *)
| DotPlus                       (* [.+] *)
| Grp (n : nat) (r : regex).    (* capturing group number [n] *)

Definition captures : Type := list (nat * string).

(** [m.group(n)]: [None] when the group took no part in the match. *)
Fixpoint group (cs : captures) (n : nat) : option string :=
  match cs with
  | [] => None
  | (i, s) :: cs' => if Nat.eqb i n then Some s else group cs' n
  end.

Definition lower (c : ascii) : ascii :=
  let n := nat_of_ascii c in
  if (Nat.leb 65 n && Nat.leb n 90)%bool then ascii_of_nat (n + 32) else c.

Definition chr_eqb_ci (a b : ascii) : bool := Ascii.eqb (lower a) (lower b).

Definition is_newline (c : ascii) : bool := Ascii.eqb c "010"%char.

Definition is_digit (c : ascii) : bool :=
  let n := nat_of_ascii c in (Nat.leb 48 n && Nat.leb n 57)%bool.

Fixpoint dotplus {A : Type} (s : string) (k : string -> option A) : option A :=
  match s with
  | EmptyString => None
  | String c s' =>
      if is_newline c then None
      else match dotplus s' k with
           | Some r => Some r
           | None => k s'
           end
  end.

(** The part of [s] consumed when the rest is [s']. *)
Definition consumed (s s' : string) : string :=
  substring 0 (String.length s - String.length s') s.

Fixpoint rmatch (r : regex) (s : string) (cs : captures)
         (k : string -> captures -> option captures) : option captures :=
  match r with
  | Eps => k s cs
  | Chr c =>
      match s with
      | String x s' => if chr_eqb_ci c x then k s' cs else None
      | EmptyString => None
      end
  | Dot =>
      match s with
      | String x s' => if is_newline x then None else k s' cs
      | EmptyString => None
      end
  | Digit =>
      match s with
      | String x s' => if is_digit x then k s' cs else None
      | EmptyString => None
      end
  | Eol =>
      match s with
      | EmptyString => k s cs
      | String x EmptyString => if is_newline x then k s cs else None
      | _ => None
      end
  | Seq a b => rmatch a s cs (fun s' cs' => rmatch b s' cs' k)
  | Opt a =>
      match rmatch a s cs k with
      | Some m => Some m
      | None => k s cs
      end
  | DotPlus => dotplus s (fun s' => k s' cs)
  | Grp n a => rmatch a s cs (fun s' cs' => k s' ((n, consumed s s') :: cs'))
  end.

(** [re.match(r, s, re.IGNORECASE)] *)
Definition re_match (r : regex) (s : string) : option captures :=
  rmatch r s [] (fun _ cs => Some cs).

(** Truth value of [re.findall(r, s, re.IGNORECASE)], for a pattern that
    matches no empty string: there is a match starting somewhere in [s]. *)
Fixpoint re_found (r : regex) (s : string) : bool :=
  match re_match r s with
  | Some _ => true
  | None =>
      match s with
      | EmptyString => false
      | String _ s' => re_found r s'
      end
  end.

(** A pattern made of literal characters only (escaped where needed). *)
Fixpoint lit (p : string) : regex :=
  match p with
  | EmptyString => Eps
  | String c p' => Seq (Chr c) (lit p')
  end.

Fixpoint seqs (rs : list regex) : regex :=
  match rs with
  | [] => Eps
  | r :: rs' => Seq r (seqs rs')
  end.

(** ** project.py: get_short_name *)

(** The ordered dictionary [searches]. *)
Definition searches : list (regex * string) :=
  [ (lit "Outright purchases of Corporate Bonds", "Corporate Bonds");
    (lit "Outright purchases of CP", "CP");
    (lit "Outright purchases of T-Bills", "TB");
    (lit "inflation-indexed bonds", "JGBs: Inflation Linked");
    (lit "floating-rate bonds", "JGBs: Floating Rate");
    (lit "US Dollar Funds-Supplying Operations against Pooled Collateral (Sales of JGSs under repurchase agreements)",
     "USD: JGS PC");
    (lit "US Dollar Funds-Supplying Operations against Pooled Collateral", "USD: PC");
    (lit "Funds-Supplying Operations against Pooled Collateral (at All Offices)",
     "Funds-Supplying Operations") ].

(** [[0-9]?[0-9]] *)
Definition digits12 : regex := Seq (Opt Digit) Digit.

(** [re_txt], the base text good for both fixed and floating:
    [maturity of (?:more than ([0-9]?[0-9]) years?\)?)?(?:(?:.+)?up to ([0-9]?[0-9]) years?\))?] *)
Definition re_txt : regex :=
  seqs [ lit "maturity of ";
         Opt (seqs [ lit "more than "; Grp 1 digits12; lit " year";
                     Opt (Chr "s"); Opt (Chr ")") ]);
         Opt (seqs [ Opt DotPlus; lit "up to "; Grp 2 digits12; lit " year";
                     Opt (Chr "s"); Chr ")" ]) ].

Inductive trans_type : Type := fixed | floating.

(** The pattern handed to [re.match] for a transaction type:
    [".+ " + re_txt], with ["\(fixed-rate method\) .+ "] put before
    [re_txt] for [fixed]. *)
Definition maturity_regex (tt : trans_type) : regex :=
  match tt with
  | fixed => seqs [ DotPlus; Chr " "; lit "(fixed-rate method) "; DotPlus; Chr " "; re_txt ]
  | floating => seqs [ DotPlus; Chr " "; re_txt ]
  end.

Definition out_txt (tt : trans_type) : string :=
  match tt with
  | fixed => "JGBs: " ++ "FR "
  | floating => "JGBs: "
  end.

(** Python [str + x]: a [TypeError] when [x] is [None]. *)
Definition str_add (a : string) (b : option string) : result string :=
  match b with
  | Some s => Ok (a ++ s)
  | None => Raise TypeError
  end.

(** The body of [if maturity_rate:] in the loop over transaction types. *)
Definition maturity_name (tt : trans_type) (m : captures) : result string :=
  match group m 2 with
  | None =>
      n <- str_add (out_txt tt ++ ">") (group m 1) ;; Ok (n ++ "y")
  | Some g2 =>
      match group m 1 with
      | None => Ok (out_txt tt ++ "<" ++ g2 ++ "y")
      | Some g1 => Ok (out_txt tt ++ g1 ++ "-" ++ g2 ++ "y")
      end
  end.

(** [.+ \(Sales of JGSs under repurchase agreements\) /offered in the (.+)/.+] *)
Definition repo_regex : regex :=
  seqs [ DotPlus; lit " (Sales of JGSs under repurchase agreements) /offered in the ";
         Grp 1 DotPlus; Chr "/"; DotPlus ].

Fixpoint first_search (tbl : list (regex * string)) (long_name : string)
  : option string :=
  match tbl with
  | [] => None
  | (s, r) :: tbl' =>
      if re_found s long_name then Some r else first_search tbl' long_name
  end.

Definition repo_name (m : captures) : result string :=
  match group m 1 with
  | Some g =>
      if String.eqb g "morning" then Ok "Sec. lending: am"
      else if String.eqb g "afternoon" then Ok "Sec. lending: pm"
      else Raise (ValueError "Expected morning / afternoon flag not found")
  | None => Raise (ValueError "Expected morning / afternoon flag not found")
  end.

Definition get_short_name (long_name : string) : result string :=
  match first_search searches long_name with
  | Some r => Ok r
  | None =>
      match re_match (maturity_regex fixed) long_name with
      | Some m => maturity_name fixed m
      | None =>
          match re_match (maturity_regex floating) long_name with
          | Some m => maturity_name floating m
          | None =>
              match re_match repo_regex long_name with
              | Some m => repo_name m
              | None => Raise (ValueError ("Imstrument not recognized: " ++ long_name))
              end
          end
      end
  end.

(** ** Data frames

    A cell of a [pandas] frame of mixed content. *)

Inductive cell : Type :=
| CInt (z : Z)
| CFloat (q : Q)
| CStr (s : string)
| CDate (d : date)           (* a [datetime] or [date] value *)
| CNaN                       (* an empty cell *)
| CNone.                     (* Python [None] *)

(** [fillna(0)] on one cell. *)
Definition fillna0 (c : cell) : cell :=
  match c with
  | CNaN | CNone => CInt 0
  | _ => c
  end.

(** Addition of two cells, as [sum()] over a group adds them: numbers add,
    strings concatenate, anything else is a [TypeError]. *)
Definition cell_add (a b : cell) : result cell :=
  match a, b with
  | CInt x, CInt y => Ok (CInt (x + y))
  | CInt x, CFloat y => Ok (CFloat (fadd (float_of_int x) y))
  | CFloat x, CInt y => Ok (CFloat (fadd x (float_of_int y)))
  | CFloat x, CFloat y => Ok (CFloat (fadd x y))
  | CStr x, CStr y => Ok (CStr (x ++ y))
  | _, _ => Raise TypeError
  end.

(** *** Three-way comparisons used as group keys *)

Class OrderCmp {K : Type} (cmp : K -> K -> comparison) : Prop := {
  cmp_eq_iff : forall a b, cmp a b = Eq <-> a = b;
  cmp_antisym : forall a b, cmp b a = CompOpp (cmp a b);
  cmp_lt_trans : forall a b c, cmp a b = Lt -> cmp b c = Lt -> cmp a c = Lt
}.

(** Lexicographic comparison of pairs. *)
Definition lex_compare {A B : Type} (ca : A -> A -> comparison)
           (cb : B -> B -> comparison) (x y : A * B) : comparison :=
  match ca (fst x) (fst y) with
  | Eq => cb (snd x) (snd y)
  | c => c
  end.

(** *** groupby(keys).sum()

    Groups come out sorted by key; within a group the rows are added in
    their order of appearance. *)

Section GroupBy.
Context {K V : Type}.
Variable kcmp : K -> K -> comparison.
Variable vadd : V -> V -> V.

Fixpoint gb_insert (k : K) (v : V) (acc : list (K * V)) : list (K * V) :=
  match acc with
  | [] => [(k, v)]
  | (k', v') :: rest =>
      match kcmp k k' with
      | Lt => (k, v) :: acc
      | Eq => (k', vadd v' v) :: rest
      | Gt => (k', v') :: gb_insert k v rest
      end
  end.

Definition groupby_sum (rows : list (K * V)) : list (K * V) :=
  fold_left (fun acc kv => gb_insert (fst kv) (snd kv) acc) rows [].
End GroupBy.

(** Sequencing of a list of computations that may raise. *)
Fixpoint mapM {A B : Type} (f : A -> result B) (l : list A) : result (list B) :=
  match l with
  | [] => Ok []
  | a :: l' => b <- f a ;; bs <- mapM f l' ;; Ok (b :: bs)
  end.

(** ** project.py: clean_up_data (daily results page) *)

(** A row of the results table after the selection of columns 0, 1, 2, 5;
    an empty numeric cell is [None]. *)
Record raw_row : Type := mkraw {
  raw_instrument : string;
  raw_competitive : option Z;
  raw_successful : option Z;
  raw_yield : option Q
}.

(** A row of the frame returned by [clean_up_data] and read by
    [add_operation]: the frame of the daily page, whose cells are numbers
    that [int()] and [float()] take as they are. *)
Record data_row : Type := mkrow {
  d_instrument : string;
  d_competitive : Z;
  d_successful : Z;
  d_yield : Q;
  d_date : date
}.

Definition zfill (o : option Z) : Z := match o with Some z => z | None => 0 end.
Definition qfill (o : option Q) : Q := match o with Some q => q | None => 0%Q end.

(** The three summed columns of one row. *)
Definition sums : Type := (Z * Z * Q)%type.

Definition sums_add (a b : sums) : sums :=
  match a, b with
  | (c1, s1, y1), (c2, s2, y2) => (c1 + c2, s1 + s2, fadd y1 y2)
  end.

(** Short name and [fillna(0)] of one raw row. *)
Definition clean_row (r : raw_row) : result (string * sums) :=
  n <- get_short_name (raw_instrument r) ;;
  Ok (n, (zfill (raw_competitive r), zfill (raw_successful r), qfill (raw_yield r))).

Definition to_data_row (d : date) (g : string * sums) : data_row :=
  match g with
  | (n, (c, s, y)) => mkrow n c s y d
  end.

Definition clean_up_data (df_data : list raw_row) (d : date) : result (list data_row) :=
  rows <- mapM clean_row df_data ;;
  Ok (map (to_data_row d) (groupby_sum String.compare sums_add rows)).

(** ** project.py: add_operation *)

(** A row of the notes frame returned by [clean_up_notes]. *)
Record note_row : Type := mknote {
  Maturity : Z;
  note_Rate : Q;
  note_Date : date
}.

(** The maturity of a fixed-rate note to the instrument it stands for. *)
Definition fixed_rate_instrument (maturity : Z) : result string :=
  if maturity =? 5 then Ok "JGBs: FR 3-5y"
  else if maturity =? 2 then Ok "JGBs: FR 1-3y"
  else if maturity =? 10 then Ok "JGBs: FR 5-10y"
  else if maturity =? 20 then Ok "JGBs: FR 10-25y"
  else Raise (ValueError "Unrecognized fixed rate operation maturity").

(** A setter applied to the object that [AddTransaction] has just returned:
    that object is the last element of the list. *)
Fixpoint update_last (f : Transaction -> Transaction) (ts : list Transaction)
  : list Transaction :=
  match ts with
  | [] => []
  | [t] => [f t]
  | t :: ts' => t :: update_last f ts'
  end.

(** A setter applied to the object that [Operation.Transaction] returned:
    the first element with that instrument. *)
Fixpoint update_first (instrument : string) (f : Transaction -> Transaction)
         (ts : list Transaction) : list Transaction :=
  match ts with
  | [] => []
  | t :: ts' =>
      if String.eqb (Instrument t) instrument then f t :: ts'
      else t :: update_first instrument f ts'
  end.

(** One turn of the loop over [df_data]. *)
Definition add_row (new_op : Operation) (row : data_row) : Operation :=
  let '(currency, unit) :=
    if String.eqb (slice3 (d_instrument row)) "USD" then ("USD", 1) else ("JPY", 100) in
  let '(op1, _) := Op.AddTransaction new_op (d_instrument row) currency unit in
  mkOperation (Date op1)
    (update_last (fun t => set_Rate (Some (d_yield row))
                    (set_SuccessfulBids (Some (d_successful row))
                       (set_CompetitiveBids (Some (d_competitive row)) t)))
       (Transactions op1)).

(** One turn of the loop over [df_notes]. *)
Definition add_note (new_op : Operation) (row : note_row) : result Operation :=
  instrument <- fixed_rate_instrument (Maturity row) ;;
  match Op.Transaction new_op instrument with
  | None => Raise (ValueError "Unrecognized fixed rate operation maturity")
  | Some _ =>
      Ok (mkOperation (Date new_op)
            (update_first instrument (set_Rate (Some (note_Rate row)))
               (Transactions new_op)))
  end.

Fixpoint add_notes (new_op : Operation) (notes : list note_row) : result Operation :=
  match notes with
  | [] => Ok new_op
  | row :: notes' => op1 <- add_note new_op row ;; add_notes op1 notes'
  end.

Definition add_operation (curdate : date) (df_data : list data_row)
           (df_notes : option (list note_row)) : result Operation :=
  let new_op := fold_left add_row df_data (Operation_init curdate) in
  match df_notes with
  | Some notes => add_notes new_op notes
  | None => Ok new_op
  end.

(** ** project.py: get_excel_data (monthly release)

    The sheet as [pd.read_excel] returns it; fetching it is outside the
    model.  [date_fromtimestamp ts] stands for
    [datetime.datetime.fromtimestamp(ts).date()], which depends on the time
    zone of the machine. *)

Record sheet : Type := mksheet {
  ncols : Z;                      (* [df.shape[1]] *)
  sheet_rows : list (list cell)   (* each of [ncols] cells *)
}.

(** A row of the frame returned by [get_excel_data], columns
    Date, Instrument, Competitive Bids, Successful Bids, Successful Yield. *)
Record erow : Type := mkerow {
  e_date : date;
  e_instrument : string;
  e_competitive : cell;
  e_successful : cell;
  e_yield : cell
}.

Definition cell_at (row : list cell) (i : nat) : cell := nth i row CNaN.

Fixpoint str_lower (s : string) : string :=
  match s with
  | EmptyString => EmptyString
  | String c s' => String (lower c) (str_lower s')
  end.

(** [p in s] on strings. *)
Fixpoint str_contains (p s : string) : bool :=
  if prefix p s then true
  else match s with
       | EmptyString => false
       | String _ s' => str_contains p s'
       end.

(** ["(fixed-rate method)" in str(c).lower()]: the text of a number, of a
    date or of an empty cell has no parenthesis. *)
Definition is_frm_title (c : cell) : bool :=
  match c with
  | CStr s => str_contains "(fixed-rate method)" (str_lower s)
  | _ => false
  end.

Definition isinstance_int (c : cell) : bool :=
  match c with CInt _ => true | _ => false end.

(** The variables of the loop that looks for the tables. *)
Record scan_state : Type := mkscan {
  start : Z;
  starts : list (Z * Z);
  FRM : Z
}.

Definition scan_step (st : scan_state) (index : Z) (row : list cell) : scan_state :=
  let frm := if is_frm_title (cell_at row 0) then index else FRM st in
  let start1 :=
    if (start st =? 0) && isinstance_int (cell_at row 4) then index else start st in
  if negb (start1 =? 0) && negb (isinstance_int (cell_at row 4))
  then mkscan 0 (starts st ++ [(start1, index - 1)]) frm
  else mkscan start1 (starts st) frm.

Fixpoint scan_rows (st : scan_state) (index : Z) (rows : list (list cell)) : scan_state :=
  match rows with
  | [] => st
  | row :: rows' => scan_rows (scan_step st index row) (index + 1) rows'
  end.

(** [df.iloc[a:b]] for two indices that are not negative. *)
Definition iloc_rows {A : Type} (l : list A) (a b : Z) : list A :=
  firstn (Z.to_nat (b - a)) (skipn (Z.to_nat a) l).

(** [^More than ([0-9]?[0-9]) years?] *)
Definition more_than_regex : regex :=
  seqs [ lit "More than "; Grp 1 digits12; lit " year"; Opt (Chr "s") ].

(** [(?:.+)?up to ([0-9]?[0-9]) years?] *)
Definition less_than_regex : regex :=
  seqs [ Opt DotPlus; lit "up to "; Grp 1 digits12; lit " year"; Opt (Chr "s") ].

(** [^([0-9]?[0-9])-year JGB .+ : ([0-9].[0-9][0-9][0-9])%$] *)
Definition mat_rate_regex : regex :=
  seqs [ Grp 1 digits12; lit "-year JGB "; DotPlus; lit " : ";
         Grp 2 (seqs [ Digit; Dot; Digit; Digit; Digit ]); Chr "%"; Eol ].

(** [int(s)] for a string of decimal digits. *)
Definition int_of_digits (s : string) : Z :=
  fold_left (fun acc c => acc * 10 + (Z.of_nat (nat_of_ascii c) - 48))
            (list_ascii_of_string s) 0.

(** The new name of a row of the auction table. *)
Definition auction_name (long_name : string) : result string :=
  match re_match more_than_regex long_name, re_match less_than_regex long_name with
  | None, None => Raise AttributeError
  | None, Some lt => n <- str_add "JGBs: <" (group lt 1) ;; Ok (n ++ "y")
  | Some mt, None => n <- str_add "JGBs: >" (group mt 1) ;; Ok (n ++ "y")
  | Some mt, Some lt =>
      n <- str_add "JGBs: " (group mt 1) ;;
      m <- str_add (n ++ "-") (group lt 1) ;;
      Ok (m ++ "y")
  end.

(** Instrument and yield of a row of the fixed-rate table. *)
Definition fixed_rate_note (long_name : string) : result (string * string) :=
  match re_match mat_rate_regex long_name with
  | None => Raise AttributeError
  | Some m =>
      match group m 1, group m 2 with
      | Some g1, Some g2 =>
          instrument <- fixed_rate_instrument (int_of_digits g1) ;;
          Ok (instrument, g2)
      | _, _ => Raise TypeError
      end
  end.

Definition cell_str (c : cell) : result string :=
  match c with
  | CStr s => Ok s
  | _ => Raise TypeError
  end.

(** Sum of the value columns of a group; a failed addition is kept. *)
Definition cells3 : Type := (cell * cell * cell)%type.
Definition cells2 : Type := (cell * cell)%type.

Definition cells3_add (a b : result cells3) : result cells3 :=
  x <- a ;; y <- b ;;
  match x, y with
  | (c1, s1, y1), (c2, s2, y2) =>
      c <- cell_add c1 c2 ;; s <- cell_add s1 s2 ;; yl <- cell_add y1 y2 ;;
      Ok (c, s, yl)
  end.

Definition cells2_add (a b : result cells2) : result cells2 :=
  x <- a ;; y <- b ;;
  match x, y with
  | (c1, s1), (c2, s2) =>
      c <- cell_add c1 c2 ;; s <- cell_add s1 s2 ;; Ok (c, s)
  end.

Definition data_key : Type := (date * string)%type.
Definition notes_key : Type := (date * string * string)%type.

Definition data_key_compare : data_key -> data_key -> comparison :=
  lex_compare date_compare String.compare.

(** Date, then yield, then instrument. *)
Definition notes_key_compare : notes_key -> notes_key -> comparison :=
  lex_compare (lex_compare date_compare String.compare) String.compare.

Definition data_group (g : data_key * result cells3) : result erow :=
  v <- snd g ;;
  match v with
  | (c, s, y) => Ok (mkerow (fst (fst g)) (snd (fst g)) c s y)
  end.

Definition notes_group (g : notes_key * result cells2) : result erow :=
  v <- snd g ;;
  match v with
  | (c, s) => Ok (mkerow (fst (fst (fst g))) (snd (fst g)) c s (CStr (snd (fst (fst g)))))
  end.

(** A sort by date for the examples: the insertion sort, which is what
    [sort_values("Date")] runs on a frame of at most 16 rows. *)
Fixpoint insert_by_date (r : erow) (l : list erow) : list erow :=
  match l with
  | [] => [r]
  | x :: l' =>
      if date_leb (e_date r) (e_date x) then r :: l
      else x :: insert_by_date r l'
  end.

Definition sort_by_date (l : list erow) : list erow :=
  fold_right insert_by_date [] l.

(** The loop over the rows of the sheet; [row[4]] needs five columns. *)
Definition scan_sheet (df : sheet) : result scan_state :=
  match sheet_rows df with
  | [] => Ok (mkscan 0 [] 0)
  | _ => if ncols df <=? 4 then Raise IndexError
         else Ok (scan_rows (mkscan 0 [] 0) 0 (sheet_rows df))
  end.

(** [starts[1][0]], when a second table was found. *)
Definition second_table_start (st : scan_state) : option Z :=
  match starts st with
  | _ :: (a, _) :: _ => Some a
  | _ => None
  end.

Section ExcelRelease.
Variable date_fromtimestamp : Q -> result date.

(** [df_full.sort_values("Date")]: pandas sorts with numpy's quicksort,
    which keeps every row and puts the dates in order, the order among
    the rows of one date being its own. *)
Variable sort_values : list erow -> list erow.

(** The conversion of the Date cell of a row. *)
Definition convert_date (c : cell) : result date :=
  match c with
  | CDate d => Ok d
  | CInt z => date_fromtimestamp (Qred ((inject_Z z - 25569) * 86400))
  | CFloat q => date_fromtimestamp (Qred ((q - 25569) * 86400))
  | CNaN => Raise (ValueError "cannot convert float NaN to integer")
  | CStr _ | CNone => Raise TypeError
  end.

(** One row of the auction table, the columns being given by position. *)
Definition data_row_of (cols : list nat) (row : list cell)
  : result (data_key * result cells3) :=
  match cols with
  | [cd; cc; cs; cy; ci] =>
      d <- convert_date (cell_at row cd) ;;
      long_name <- cell_str (cell_at row ci) ;;
      new_name <- auction_name long_name ;;
      Ok ((d, new_name),
          Ok (fillna0 (cell_at row cc), fillna0 (cell_at row cs), fillna0 (cell_at row cy)))
  | _ => Raise IndexError
  end.

(** The rows of the auction table before the aggregation: columns by
    shape, dates, names, [fillna(0)]. *)
Definition auction_frame (df : sheet) (st : scan_state)
  : result (list (data_key * result cells3)) :=
  match starts st with
  | [] => Raise IndexError
  | (a, b) :: _ =>
      let df_data := iloc_rows (sheet_rows df) a b in
      cols <- (if ncols df =? 13 then Ok [0; 4; 5; 8; 11]%nat
               else if ncols df =? 11 then Ok [0; 3; 4; 7; 10]%nat
               else Raise (ValueError "Shape not recognized")) ;;
      mapM (data_row_of cols) df_data
  end.

(** The auction table: aggregation by day and instrument. *)
Definition auction_table (df : sheet) (st : scan_state) : result (list erow) :=
  rows <- auction_frame df st ;;
  mapM data_group (groupby_sum data_key_compare cells3_add rows).

(** One row of the fixed-rate table, columns 0, 4, 5, 8, 12. *)
Definition notes_row_of (row : list cell) : result (notes_key * result cells2) :=
  d <- convert_date (cell_at row 0) ;;
  long_name <- cell_str (cell_at row 12) ;;
  iy <- fixed_rate_note long_name ;;
  Ok ((d, snd iy, fst iy),
      Ok (fillna0 (cell_at row 4), fillna0 (cell_at row 5))).

(** The rows of the fixed-rate table before the aggregation. *)
Definition fixed_rate_frame (df : sheet) (a b : Z)
  : result (list (notes_key * result cells2)) :=
  if ncols df <=? 12 then Raise IndexError
  else mapM notes_row_of (iloc_rows (sheet_rows df) a b).

(** The fixed-rate table: aggregation by day, yield and instrument. *)
Definition fixed_rate_table (df : sheet) (a b : Z) : result (list erow) :=
  rows <- fixed_rate_frame df a b ;;
  mapM notes_group (groupby_sum notes_key_compare cells2_add rows).

(** The check that a fixed-rate table exists, and its frame if so. *)
Definition notes_table (df : sheet) (st : scan_state) : result (option (list erow)) :=
  match starts st with
  | _ :: (a, b) :: _ =>
      if negb (a - FRM st =? 9) then Ok None
      else n <- fixed_rate_table df a b ;; Ok (Some n)
  | _ => Ok None
  end.

Definition get_excel_data (df : sheet) : result (list erow) :=
  st <- scan_sheet df ;;
  df_data <- auction_table df st ;;
  df_notes <- notes_table df st ;;
  match df_notes with
  | Some n => Ok (sort_values (df_data ++ n))
  | None => Ok (sort_values df_data)
  end.
End ExcelRelease.

(** The conversion on a machine whose time zone is UTC: the civil date of
    a count of days since 1970-01-01. *)
Definition civil_from_days (z0 : Z) : date :=
  let z := z0 + 719468 in
  let era := z / 146097 in
  let doe := z - era * 146097 in
  let yoe := (doe - doe / 1460 + doe / 36524 - doe / 146096) / 365 in
  let doy := doe - (365 * yoe + yoe / 4 - yoe / 100) in
  let mp := (5 * doy + 2) / 153 in
  let d := doy - (153 * mp + 2) / 5 + 1 in
  let m := if mp <? 10 then mp + 3 else mp - 9 in
  mkdate (if m <=? 2 then yoe + era * 400 + 1 else yoe + era * 400) m d.

Definition utc_fromtimestamp (ts : Q) : result date :=
  Ok (civil_from_days (Qfloor (ts / 86400))).

(** ** project.py: get_chart_data *)

(** A frame by columns, in column order; column names are unique. *)
Definition frame : Type := list (string * list cell).

(** [df[name] = column]: replaces the column of that name, or adds one. *)
Fixpoint df_set (name : string) (column : list cell) (df : frame) : frame :=
  match df with
  | [] => [(name, column)]
  | (n, c) :: df' =>
      if String.eqb n name then (n, column) :: df'
      else (n, c) :: df_set name column df'
  end.

(** [df[name]] *)
Fixpoint df_get (name : string) (df : frame) : option (list cell) :=
  match df with
  | [] => None
  | (n, c) :: df' => if String.eqb n name then Some c else df_get name df'
  end.

(** [x in l] for a list of strings. *)
Definition str_in (x : string) (l : list string) : bool :=
  existsb (String.eqb x) l.

(** The JGB instruments that ["All"] stands for. *)
Definition jgb_instruments : list string :=
  [ "JGBs: FR 5-10y"; "JGBs: FR 1-3y"; "JGBs: FR 3-5y"; "JGBs: FR 10-25y";
    "JGBs: <1y"; "JGBs: 1-3y"; "JGBs: 3-5y"; "JGBs: 5-10y"; "JGBs: 10-25y";
    "JGBs: >25y"; "JGBs: Inflation Linked" ].

(** [inst_filter]; the order of [list(set(..) | set(..))] is not used. *)
Definition inst_filter (instruments : list string) : list string :=
  if str_in "All" instruments
  then set_union string_dec jgb_instruments instruments
  else instruments.

(** The value of [rate] after the test for ["All"]. *)
Definition rate_flag (instruments : list string) (rate : bool) : bool :=
  if str_in "All" instruments then false else rate.

(** The condition of the comprehension that filters the operations. *)
Definition op_selected (filt : list string) (start_date end_date : date)
           (op : Operation) : bool :=
  (date_leb start_date (Date op) && date_leb (Date op) end_date)
  && existsb (fun inst => str_in inst filt) (Op.Instruments op).

Definition has_rate (r : option Q) : bool :=
  match r with
  | Some _ => true
  | None => false
  end.

(** A list of rates as the column of a frame: with a float among them the
    column is a column of floats and a [None] is kept as a missing value;
    without any the column holds the [None]s as they are. *)
Definition rate_column (rates : list (option Q)) : list cell :=
  if existsb has_rate rates
  then map (fun r => match r with Some q => CFloat q | None => CNaN end) rates
  else map (fun _ => CNone) rates.

(** The list [values] for one instrument, as it stands in its column. *)
Definition inst_values (rate : bool) (ops : list Operation) (inst : string)
  : result (list cell) :=
  if rate then Ok (rate_column (map (fun op => Op.TransactionRate op inst) ops))
  else if String.eqb inst "All"
       then mapM (fun op => v <- Op.TransactionValue op None ;; Ok (CFloat v)) ops
       else mapM (fun op => v <- Op.TransactionValue op (Some inst) ;; Ok (CFloat v)) ops.

(** [date(x.year, x.month, 1)]; a cell that is no date has no [year]. *)
Definition first_of_month (x : date) : date := mkdate (year x) (month x) 1.

Definition month_start (c : cell) : result cell :=
  match c with
  | CDate d => Ok (CDate (first_of_month d))
  | _ => Raise AttributeError
  end.

Definition cell_date (c : cell) : result date :=
  match c with
  | CDate d => Ok d
  | _ => Raise AttributeError
  end.

(** Sum and count of the values of a column within a group; a missing
    value is skipped. *)
Definition agg : Type := (Q * Z)%type.

Definition agg_of_cell (c : cell) : agg :=
  match c with
  | CFloat q => (q, 1)
  | CInt z => (float_of_int z, 1)
  | _ => (0%Q, 0)
  end.

Definition agg_add (a b : agg) : agg :=
  (fadd (fst a) (fst b), snd a + snd b).

Fixpoint aggs_add (a b : list agg) : list agg :=
  match a, b with
  | x :: a', y :: b' => agg_add x y :: aggs_add a' b'
  | _, _ => []
  end.

(** [sum()] or [mean()] of a group of one column. *)
Definition agg_result (rate : bool) (a : agg) : cell :=
  if rate
  then match snd a with
       | Zpos n => CFloat (Qred (fst a / inject_Z (Zpos n)))
       | _ => CNaN
       end
  else CFloat (fst a).

(** The rows of a frame: the key of each row with its cells in the other
    columns. *)
Fixpoint frame_rows (keys : list date) (cols : list (list cell))
  : list (date * list agg) :=
  match keys with
  | [] => []
  | k :: keys' =>
      (k, map (fun c => agg_of_cell (hd CNaN c)) cols)
        :: frame_rows keys' (map (@tl cell) cols)
  end.

Fixpoint drop_column (name : string) (df : frame) : frame :=
  match df with
  | [] => []
  | (n, c) :: df' =>
      if String.eqb n name then df' else (n, c) :: drop_column name df'
  end.

(** Column [j] of every group, for each of the names. *)
Fixpoint group_columns (rate : bool) (names : list string) (j : nat)
         (groups : list (date * list agg)) : frame :=
  match names with
  | [] => []
  | n :: names' =>
      (n, map (fun g => agg_result rate (nth j (snd g) (0%Q, 0))) groups)
        :: group_columns rate names' (S j) groups
  end.

(** A column that holds [None]: a column of objects, not of numbers. *)
Definition object_column (column : list cell) : bool :=
  existsb (fun c => match c with CNone => true | _ => false end) column.

(** The monthly aggregation at the end of [get_chart_data].  [mean()]
    refuses a column of objects with a [TypeError] (pandas 2; earlier
    versions left such a column out of the result). *)
Definition monthly_frame (rate : bool) (df_return : frame) : result frame :=
  match df_get "Date" df_return with
  | None => Raise IndexError
  | Some dates =>
      months <- mapM month_start dates ;;
      keys <- mapM cell_date months ;;
      let others := drop_column "Date" (df_set "Date" months df_return) in
      if rate && existsb object_column (map snd others) then Raise TypeError
      else
        let groups := groupby_sum date_compare aggs_add
                                  (frame_rows keys (map snd others)) in
        Ok (("Date", map (fun g => CDate (fst g)) groups)
              :: group_columns rate (map fst others) 0 groups)
  end.

(** The loop that computes [values] for each instrument in turn. *)
Definition all_values (rate : bool) (ops : list Operation) (instruments : list string)
  : result (list (list cell)) :=
  mapM (inst_values rate ops) instruments.

(** The transposition of [ops_values] followed by the selection of entry
    [index] of every row gives back the values of instrument [index]. *)
Fixpoint add_columns (instruments : list string) (values : list (list cell))
         (df : frame) : frame :=
  match instruments, values with
  | inst :: instruments', v :: values' =>
      add_columns instruments' values' (df_set inst v df)
  | _, _ => df
  end.

Definition get_chart_data (operations : list Operation) (instruments : list string)
           (start_date end_date : date) (rate monthly : bool) : result frame :=
  let filt := inst_filter instruments in
  let rate := rate_flag instruments rate in
  let ops := filter (op_selected filt start_date end_date) operations in
  let ops_dates := map Date ops in
  ops_values <- all_values rate ops instruments ;;
  let df_return :=
    add_columns instruments ops_values [("Date", map CDate ops_dates)] in
  if monthly then monthly_frame rate df_return else Ok df_return.

(** ** project.py: save_to_json and load_from_json

    What [json.dumps] writes and [json.load] reads back is the same
    structure; writing and reading the file is outside the model.  The key
    of an operation is the text of its date. *)

(** The dictionary [trans_dic] of one transaction; [null] is [None]. *)
Record trans_dic : Type := mktrans_dic {
  j_Instrument : string;
  j_CompetitiveBids : option Z;
  j_SuccessfulBids : option Z;
  j_Rate : option Q;
  j_Currency : string;
  j_Units : Z
}.

(** [json_ops]: from the key to the list under ["Transactions"], in order
    of first insertion. *)
Definition json_ops : Type := list (string * list trans_dic).

(** [json_ops[date] = op_dic] *)
Fixpoint dict_set (k : string) (v : list trans_dic) (d : json_ops) : json_ops :=
  match d with
  | [] => [(k, v)]
  | (k', v') :: d' =>
      if String.eqb k' k then (k', v) :: d'
      else (k', v') :: dict_set k v d'
  end.

Definition trans_to_dic (trans : Transaction) : trans_dic :=
  mktrans_dic (Instrument trans) (CompetitiveBids trans) (SuccessfulBids trans)
              (Rate trans) (Currency trans) (Units trans).

(** A decimal digit as a character, and the number a character stands
    for. *)
Definition digit_char (n : Z) : ascii := ascii_of_nat (Z.to_nat (48 + n)).

Definition digit_val (c : ascii) : Z := Z.of_nat (nat_of_ascii c) - 48.

(** [%m] and [%d] of [strftime]: two digits. *)
Definition two_digits (n : Z) : string :=
  String (digit_char (n / 10)) (String (digit_char (n mod 10)) "").

(** [d.strftime("%Y-%m-%d")].  The year is written as the C library of
    Linux writes it, without leading zeros (other libraries fill it to four
    digits); from the year 1000 on there is no difference. *)
Definition strftime (d : date) : string :=
  str_of_int (year d) ++ "-" ++ two_digits (month d) ++ "-" ++ two_digits (day d).

(** The structure that [save_to_json] hands to [json.dumps]. *)
Definition save_to_json (operations : list Operation) : json_ops :=
  fold_left (fun js op =>
               dict_set (strftime (Date op)) (map trans_to_dic (Transactions op)) js)
            operations [].

(** [int(x)] and [float(x)] of a value read from the file. *)
Definition py_int (x : option Z) : result Z :=
  match x with
  | Some z => Ok z
  | None => Raise TypeError
  end.

Definition py_float (x : option Q) : result Q :=
  match x with
  | Some q => Ok q
  | None => Raise TypeError
  end.

(** One turn of the loop over [op["Transactions"]]. *)
Definition load_trans (new_op : Operation) (trans : trans_dic) : result Operation :=
  let '(op1, _) :=
    Op.AddTransaction new_op (j_Instrument trans) (j_Currency trans) (j_Units trans) in
  let op2 := mkOperation (Date op1)
               (update_last (set_CompetitiveBids (j_CompetitiveBids trans))
                            (Transactions op1)) in
  sb <- py_int (j_SuccessfulBids trans) ;;
  let op3 := mkOperation (Date op2)
               (update_last (set_SuccessfulBids (Some sb)) (Transactions op2)) in
  r <- py_float (j_Rate trans) ;;
  Ok (mkOperation (Date op3) (update_last (set_Rate (Some r)) (Transactions op3))).

Fixpoint load_transs (new_op : Operation) (l : list trans_dic) : result Operation :=
  match l with
  | [] => Ok new_op
  | trans :: l' => op1 <- load_trans new_op trans ;; load_transs op1 l'
  end.

(** *** [datetime.datetime.strptime(key, "%Y-%m-%d").date()]

    [strptime] turns the format into the regular expression
    [(\d\d\d\d)-(1[0-2]|0[1-9]|[1-9])-(3[01]|[12]\d|0[1-9]|[1-9]| [1-9])],
    matches it at the front of the key, refuses a key with text left after
    the match, and builds the date, which refuses the year 0 and a day
    that the month does not have.  Every refusal is a [ValueError]; the
    key quoted in its message is left out here. *)

Definition orelse {A : Type} (a b : option A) : option A :=
  match a with
  | Some x => Some x
  | None => b
  end.

(** A digit from [lo] to [hi]. *)
Definition digit_in (lo hi : Z) (c : ascii) : bool :=
  is_digit c && (lo <=? digit_val c) && (digit_val c <=? hi).

(** Two characters, or one, of the given kinds, read as a number. *)
Definition two_chars (p1 p2 : ascii -> bool) (s : string) : option (Z * string) :=
  match s with
  | String a (String b s') =>
      if p1 a && p2 b then Some (10 * digit_val a + digit_val b, s') else None
  | _ => None
  end.

Definition one_char (p : ascii -> bool) (s : string) : option (Z * string) :=
  match s with
  | String a s' => if p a then Some (digit_val a, s') else None
  | EmptyString => None
  end.

(** A space and a digit from 1 to 9. *)
Definition space_digit (s : string) : option (Z * string) :=
  match s with
  | String a (String b s') =>
      if Ascii.eqb a " " && digit_in 1 9 b then Some (digit_val b, s') else None
  | _ => None
  end.

Definition take_char (c : ascii) (s : string) : option string :=
  match s with
  | String x s' => if Ascii.eqb x c then Some s' else None
  | EmptyString => None
  end.

(** [(\d\d\d\d)] *)
Definition parse_year (s : string) : option (Z * string) :=
  match one_char is_digit s with
  | Some (a, s1) =>
      match one_char is_digit s1 with
      | Some (b, s2) =>
          match one_char is_digit s2 with
          | Some (c, s3) =>
              match one_char is_digit s3 with
              | Some (d, s4) => Some (1000 * a + 100 * b + 10 * c + d, s4)
              | None => None
              end
          | None => None
          end
      | None => None
      end
  | None => None
  end.

(** [(3[01]|[12]\d|0[1-9]|[1-9]| [1-9])], the end of the expression: the
    first alternative that matches is the one taken. *)
Definition parse_day (s : string) : option (Z * string) :=
  orelse (two_chars (Ascii.eqb "3") (digit_in 0 1) s)
    (orelse (two_chars (digit_in 1 2) is_digit s)
       (orelse (two_chars (Ascii.eqb "0") (digit_in 1 9) s)
          (orelse (one_char (digit_in 1 9) s) (space_digit s)))).

(** What follows the month: the hyphen and the day. *)
Definition after_month (m : option (Z * string)) : option (Z * Z * string) :=
  match m with
  | Some (mo, s) =>
      match take_char "-" s with
      | Some s' =>
          match parse_day s' with
          | Some (d, rest) => Some (mo, d, rest)
          | None => None
          end
      | None => None
      end
  | None => None
  end.

(** [(1[0-2]|0[1-9]|[1-9])] and what follows: an alternative is given up
    for the next one when the rest of the expression fails behind it. *)
Definition parse_month_day (s : string) : option (Z * Z * string) :=
  orelse (after_month (two_chars (Ascii.eqb "1") (digit_in 0 2) s))
    (orelse (after_month (two_chars (Ascii.eqb "0") (digit_in 1 9) s))
       (after_month (one_char (digit_in 1 9) s))).

Definition strptime (key : string) : result date :=
  match parse_year key with
  | None => Raise (ValueError "time data does not match format")
  | Some (y, s1) =>
      match take_char "-" s1 with
      | None => Raise (ValueError "time data does not match format")
      | Some s2 =>
          match parse_month_day s2 with
          | None => Raise (ValueError "time data does not match format")
          | Some (m, d, rest) =>
              match rest with
              | String _ _ => Raise (ValueError "unconverted data remains")
              | EmptyString =>
                  if y =? 0 then Raise (ValueError "year 0 is out of range")
                  else if valid_dateb (mkdate y m d) then Ok (mkdate y m d)
                  else Raise (ValueError "day is out of range for month")
              end
          end
      end
  end.

(** One turn of the loop over the keys. *)
Definition load_op (entry : string * list trans_dic) : result Operation :=
  curdate <- strptime (fst entry) ;;
  load_transs (Operation_init curdate) (snd entry).

(** The operations that [load_from_json] builds from what was read. *)
Definition load_from_json (js : json_ops) : result (list Operation) :=
  mapM load_op js.

(** ** Sequences of calls on an Operation

    The calls of the class that change an Operation.  The setters of a
    Transaction leave its instrument as it is. *)

Inductive op_call : Type :=
| CallAdd (instrument currency : string) (unit : Z)
| CallDelete (instrument : string)
| CallSetDate (transdate : date).

Definition call (op : Operation) (c : op_call) : Operation :=
  match c with
  | CallAdd i cur u => fst (Op.AddTransaction op i cur u)
  | CallDelete i => fst (Op.DeleteTransaction op i)
  | CallSetDate d => mkOperation d (Transactions op)
  end.

Definition run_calls (op : Operation) (cs : list op_call) : Operation :=
  fold_left call cs op.

(** Every [AddTransaction] of the sequence names an instrument that the
    operation does not hold at that moment. *)
Fixpoint fresh_calls (op : Operation) (cs : list op_call) : bool :=
  match cs with
  | [] => true
  | c :: cs' =>
      match c with
      | CallAdd i _ _ => negb (str_in i (Op.Instruments op))
      | _ => true
      end && fresh_calls (call op c) cs'
  end.

(** The instrument belongs to the JGB family: its name begins with JGB. *)
Definition is_jgb (t : Transaction) : bool := prefix "JGB" (Instrument t).

(** Successful bids times units over 1000, as a rational. *)
Definition bn_value (t : Transaction) : Q :=
  (inject_Z (zfill (SuccessfulBids t)) * inject_Z (Units t) / 1000)%Q.

Definition bn_sum (ts : list Transaction) : Q :=
  fold_right (fun t acc => (bn_value t + acc)%Q) 0%Q ts.

(** The transaction has its successful bids, and their product with the
    units is within reach of the division by 1000. *)
Definition valued (t : Transaction) : Prop :=
  exists sb, SuccessfulBids t = Some sb /\ Z.abs (sb * Units t) < float_limit * 1000.

(** ** Fixed-rate notes, as a table

    The maturities that a fixed-rate note may carry, each with the
    instrument whose rate the note gives. *)
Definition fixed_rate_buckets : list (Z * string) :=
  [ (2, "JGBs: FR 1-3y"); (5, "JGBs: FR 3-5y");
    (10, "JGBs: FR 5-10y"); (20, "JGBs: FR 10-25y") ].

(** The note carries one of the four maturities and the day holds a
    transaction of its instrument. *)
Definition note_ok (held : list string) (n : note_row) : Prop :=
  exists inst, In (Maturity n, inst) fixed_rate_buckets /\ In inst held.

Definition note_for (inst : string) (n : note_row) : bool :=
  existsb (fun b => (fst b =? Maturity n) && String.eqb (snd b) inst)
          fixed_rate_buckets.

(** The rate of the last note that stands for the instrument. *)
Fixpoint last_rate (inst : string) (notes : list note_row) : option Q :=
  match notes with
  | [] => None
  | n :: notes' =>
      match last_rate inst notes' with
      | Some r => Some r
      | None => if note_for inst n then Some (note_Rate n) else None
      end
  end.

(** A transaction as the file keeps it: all but the average spread. *)
Definition without_spread (t : Transaction) : Transaction :=
  mkTransaction (Rate t) (SuccessfulBids t) (CompetitiveBids t) None
                (Instrument t) (Currency t) (Units t).

Definition op_without_spread (op : Operation) : Operation :=
  mkOperation (Date op) (map without_spread (Transactions op)).

(** ** Groups and totals, for stating what an aggregation returns *)

Section GroupTotals.
Context {K V : Type}.
Variable kcmp : K -> K -> comparison.

(** The keys go up strictly along the list. *)
Fixpoint increasing (l : list (K * V)) : Prop :=
  match l with
  | [] => True
  | (k, _) :: rest =>
      (forall k', In k' (map fst rest) -> kcmp k k' = Lt) /\ increasing rest
  end.

(** The total of a measure over the rows of key [k]. *)
Variable m : V -> Z.

Fixpoint total_for (k : K) (l : list (K * V)) : Z :=
  match l with
  | [] => 0
  | (k', v) :: rest =>
      (match kcmp k k' with Eq => m v | _ => 0 end) + total_for k rest
  end.
End GroupTotals.

(** The raw row is given the short name [name]. *)
Definition classifies_to (name : string) (x : raw_row) : bool :=
  match get_short_name (raw_instrument x) with
  | Ok n => String.eqb n name
  | Raise _ => false
  end.

(** The total of a column over the raw rows given the short name [name]. *)
Definition raw_total (f : raw_row -> Z) (name : string) (df_data : list raw_row) : Z :=
  fold_right Z.add 0 (map f (filter (classifies_to name) df_data)).

(** ** Two sheets of the shape of a monthly release, for the examples *)

Definition release_row (c0 c4 c5 c8 c11 c12 : cell) : list cell :=
  [c0; CNaN; CNaN; CNaN; c4; c5; CNaN; CNaN; c8; CNaN; CNaN; c11; c12].

Definition blank_row : list cell := release_row CNaN CNaN CNaN CNaN CNaN CNaN.

Definition title_row (title : string) : list cell :=
  release_row (CStr title) CNaN CNaN CNaN CNaN CNaN.

Definition auction_rows : list (list cell) :=
  [ title_row "Outright purchases of JGBs";
    release_row (CInt 44958) (CInt 300) (CInt 100) (CFloat (1 # 2))
                (CStr "More than 5 years up to 10 years") CNaN;
    release_row (CInt 44958) (CInt 200) (CInt 50) (CFloat (3 # 5))
                (CStr "More than 5 years up to 10 years") CNaN;
    release_row (CInt 44959) (CInt 10) (CInt 10) (CFloat (1 # 10))
                (CStr "up to 1 year") CNaN;
    blank_row ].

Definition fixed_rate_rows : list (list cell) :=
  [ release_row (CInt 44958) (CInt 0) (CInt 40) CNaN CNaN
                (CStr "10-year JGB #369 : 0.500%");
    release_row (CInt 44958) (CInt 0) (CInt 20) CNaN CNaN
                (CStr "10-year JGB #370 : 0.505%");
    release_row (CInt 44959) (CInt 0) (CInt 5) CNaN CNaN
                (CStr "10-year JGB #370 : 0.505%");
    blank_row ].

(** The fixed-rate table nine rows under its title. *)
Definition sheet_with_notes : sheet :=
  mksheet 13
    (auction_rows
       ++ [title_row "Outright purchases of JGBs (fixed-rate method)"]
       ++ repeat blank_row 8
       ++ fixed_rate_rows).

(** The fixed-rate table eight rows under its title. *)
Definition sheet_misplaced_notes : sheet :=
  mksheet 13
    (auction_rows
       ++ [blank_row; title_row "Outright purchases of JGBs (fixed-rate method)"]
       ++ repeat blank_row 7
       ++ fixed_rate_rows).

(** A release with two rows of one day and one maturity. *)
Definition sheet_two_rows : sheet :=
  mksheet 13
    [ title_row "Outright purchases of JGBs";
      release_row (CInt 44958) (CInt 300) (CInt 100) (CFloat (1 # 2))
                  (CStr "More than 5 years up to 10 years") CNaN;
      release_row (CInt 44958) (CInt 200) (CInt 50) (CFloat (3 # 5))
                  (CStr "More than 5 years up to 10 years") CNaN;
      blank_row ].

(** A release without operations at a fixed rate, and so without their
    title, whose auction table goes on in a second block of rows that
    begins at row 9. *)
Definition sheet_untitled_block : sheet :=
  mksheet 13
    (auction_rows
       ++ repeat blank_row 4
       ++ [ release_row (CInt 44960) (CInt 30) (CInt 20) (CFloat (1 # 5))
                        (CStr "More than 1 year up to 3 years") CNaN;
            release_row (CInt 44960) (CInt 15) (CInt 10) (CFloat (3 # 10))
                        (CStr "More than 3 years up to 5 years") CNaN;
            blank_row ]).

(** ** Bid columns of the release tables, for stating their totals *)

Definition cell_int (c : cell) : Z :=
  match c with
  | CInt z => z
  | _ => 0
  end.

Definition is_number (c : cell) : Prop :=
  match c with
  | CInt _ | CFloat _ => True
  | _ => False
  end.

(** Both bid cells of the row hold integers (and the yield a number). *)
Definition integer_bids3 (v : result cells3) : Prop :=
  exists c s y, v = Ok (CInt c, CInt s, y) /\ is_number y.

Definition integer_bids2 (v : result cells2) : Prop :=
  exists c s, v = Ok (CInt c, CInt s).

Definition competitive3 (v : result cells3) : Z :=
  match v with Ok (c, _, _) => cell_int c | Raise _ => 0 end.

Definition successful3 (v : result cells3) : Z :=
  match v with Ok (_, s, _) => cell_int s | Raise _ => 0 end.

Definition competitive2 (v : result cells2) : Z :=
  match v with Ok (c, _) => cell_int c | Raise _ => 0 end.

Definition successful2 (v : result cells2) : Z :=
  match v with Ok (_, s) => cell_int s | Raise _ => 0 end.

(** The key of a row of the frame returned for the auction table, and for
    the fixed-rate table. *)
Definition erow_data_key (r : erow) : data_key := (e_date r, e_instrument r).

Definition erow_notes_key (r : erow) : date * cell * string :=
  (e_date r, e_yield r, e_instrument r).

(** ** The operations that a query keeps, for stating its date axis *)

(** The date of the operation lies in the window and the operation holds
    one of the instruments asked for (the JGB instruments being asked for
    with the token All). *)
Definition traded_in_window (instruments : list string) (start_date end_date : date)
           (op : Operation) : Prop :=
  date_leb start_date (Date op) = true /\ date_leb (Date op) end_date = true
  /\ exists inst, In inst (Op.Instruments op)
                  /\ (In inst instruments
                      \/ (In "All" instruments /\ In inst jgb_instruments)).

(** ** Descriptions, for stating the scenarios of the classifier *)

(** No character of the text is a newline. *)
Fixpoint no_newline (s : string) : bool :=
  match s with
  | EmptyString => true
  | String c s' => negb (is_newline c) && no_newline s'
  end.

(** What follows the opening text in a description of a purchase of bonds
    of more than 5 and up to 10 years, by auction and at a fixed rate. *)
Definition phrase_5_10 : string :=
  " maturity of more than 5 years) up to 10 years)".

Definition phrase_fixed_5_10 : string :=
  " (fixed-rate method) (residual maturity of more than 5 years) up to 10 years)".

(** What follows the opening text in a description of a sale under a
    repurchase agreement offered in a session. *)
Definition phrase_repo (session : string) : string :=
  " (Sales of JGSs under repurchase agreements) /offered in the " ++ session ++ "/ T+1".

(** ** Dictionaries and dates, for stating what is saved and built *)

(** [json_ops[key]] *)
Fixpoint dict_get (k : string) (d : json_ops) : option (list trans_dic) :=
  match d with
  | [] => None
  | (k', v) :: d' => if String.eqb k' k then Some v else dict_get k d'
  end.

(** The last operation of the list dated [d]. *)
Definition last_with_date (d : date) (operations : list Operation) : option Operation :=
  find (fun op => date_eqb (Date op) d) (rev operations).

(** [unique()] of a column of dates: each date once, in the order of its
    first appearance. *)
Definition unique_dates (dates : list date) : list date :=
  fold_left (fun acc d => if existsb (date_eqb d) acc then acc else (acc ++ [d])%list)
            dates [].

(** The transaction read from a dictionary whose successful bids and rate
    are not null. *)
Definition dic_to_trans (t : trans_dic) : Transaction :=
  mkTransaction (j_Rate t) (j_SuccessfulBids t) (j_CompetitiveBids t) None
                (j_Instrument t) (j_Currency t) (j_Units t).

(** The operation read from an entry whose key was read as a date. *)
Definition entry_to_op (entry : date * list trans_dic) : Operation :=
  mkOperation (fst entry) (map dic_to_trans (snd entry)).

(** No transaction of the file has null successful bids or a null rate. *)
Definition no_null {K : Type} (js : list (K * list trans_dic)) : Prop :=
  forall entry t, In entry js -> In t (snd entry) ->
                  j_SuccessfulBids t <> None /\ j_Rate t <> None.

(** The entries of the file with their keys read as dates, when every key
    is the text of a date. *)
Definition parsed_entries (js : json_ops) : result (list (date * list trans_dic)) :=
  mapM (fun entry => d <- strptime (fst entry) ;; Ok (d, snd entry)) js.

(** The year of the date has four digits. *)
Definition four_digit_year (d : date) : Prop := 1000 <= year d.

(** *** The same dictionary with the dates as keys

    For the proofs: what is saved and loaded when the dates stand for
    their texts.  [save_to_json] and [load_from_json] are brought back to
    these where the texts stand for their dates one to one. *)

Definition dated_ops : Type := list (date * list trans_dic).

Fixpoint dated_set (k : date) (v : list trans_dic) (d : dated_ops) : dated_ops :=
  match d with
  | [] => [(k, v)]
  | (k', v') :: d' =>
      if date_eqb k' k then (k', v) :: d'
      else (k', v') :: dated_set k v d'
  end.

Fixpoint dated_get (k : date) (d : dated_ops) : option (list trans_dic) :=
  match d with
  | [] => None
  | (k', v) :: d' => if date_eqb k' k then Some v else dated_get k d'
  end.

Definition save_dated (operations : list Operation) : dated_ops :=
  fold_left (fun js op => dated_set (Date op) (map trans_to_dic (Transactions op)) js)
            operations [].

Definition load_dated_op (entry : date * list trans_dic) : result Operation :=
  load_transs (Operation_init (fst entry)) (snd entry).

Definition load_dated (js : dated_ops) : result (list Operation) :=
  mapM load_dated_op js.

Definition dated_entry (op : Operation) : date * list trans_dic :=
  (Date op, map trans_to_dic (Transactions op)).

(** The entry of the file for an entry keyed by its date. *)
Definition key_entry (entry : date * list trans_dic) : string * list trans_dic :=
  (strftime (fst entry), snd entry).

(** ** What [add_operation] builds *)

(** The transaction that stands for a row: in US dollars with units 1 when
    the name of the instrument begins with USD, in yen with units 100
    otherwise. *)
Definition row_transaction (row : data_row) : Transaction :=
  mkTransaction (Some (d_yield row)) (Some (d_successful row))
                (Some (d_competitive row)) None (d_instrument row)
                (if prefix "USD" (d_instrument row) then "USD" else "JPY")
                (if prefix "USD" (d_instrument row) then 1 else 100).

(** The transaction has its rate and both bid volumes, no average spread,
    and the units of its currency. *)
Definition complete (t : Transaction) : Prop :=
  Rate t <> None /\ SuccessfulBids t <> None /\ CompetitiveBids t <> None
  /\ AveSpread t = None
  /\ ((Currency t = "USD" /\ Units t = 1) \/ (Currency t = "JPY" /\ Units t = 100)).

(** ** Regular expressions: what a pattern can take

    The matcher with the comparison of characters as a parameter;
    [rmatch] is the one that folds case.  A pattern used without
    [re.IGNORECASE] compares characters as they are. *)

Section Matcher.
Variable ceq : ascii -> ascii -> bool.

Fixpoint gmatch (r : regex) (s : string) (cs : captures)
         (k : string -> captures -> option captures) : option captures :=
  match r with
  | Eps => k s cs
  | Chr c =>
      match s with
      | String x s' => if ceq c x then k s' cs else None
      | EmptyString => None
      end
  | Dot =>
      match s with
      | String x s' => if is_newline x then None else k s' cs
      | EmptyString => None
      end
  | Digit =>
      match s with
      | String x s' => if is_digit x then k s' cs else None
      | EmptyString => None
      end
  | Eol =>
      match s with
      | EmptyString => k s cs
      | String x EmptyString => if is_newline x then k s cs else None
      | _ => None
      end
  | Seq a b => gmatch a s cs (fun s' cs' => gmatch b s' cs' k)
  | Opt a =>
      match gmatch a s cs k with
      | Some m => Some m
      | None => k s cs
      end
  | DotPlus => dotplus s (fun s' => k s' cs)
  | Grp n a => gmatch a s cs (fun s' cs' => k s' ((n, consumed s s') :: cs'))
  end.

(** The texts that a pattern can take from the front of a string. *)
Fixpoint lang (r : regex) (x : string) : Prop :=
  match r with
  | Eps => x = ""
  | Chr c => exists a, x = String a "" /\ ceq c a = true
  | Dot => exists a, x = String a "" /\ is_newline a = false
  | Digit => exists a, x = String a "" /\ is_digit a = true
  | Eol => x = ""
  | Seq a b => exists x1 x2, x = x1 ++ x2 /\ lang a x1 /\ lang b x2
  | Opt a => x = "" \/ lang a x
  | DotPlus => x <> "" /\ no_newline x = true
  | Grp _ a => lang a x
  end.

(** Every group of the pattern takes a text that satisfies [G]. *)
Fixpoint groups_ok (G : nat -> string -> Prop) (r : regex) : Prop :=
  match r with
  | Seq a b => groups_ok G a /\ groups_ok G b
  | Opt a => groups_ok G a
  | Grp n a => (forall x, lang a x -> G n x) /\ groups_ok G a
  | _ => True
  end.
End Matcher.

(** [re.match(r, s)] without flags. *)
Definition re_match_cs (r : regex) (s : string) : option captures :=
  gmatch Ascii.eqb r s [] (fun _ cs => Some cs).

Definition caps_ok (G : nat -> string -> Prop) (cs : captures) : Prop :=
  Forall (fun p => G (fst p) (snd p)) cs.

(** One or two decimal digits. *)
Definition digits12_text (x : string) : Prop :=
  exists a, is_digit a = true
            /\ (x = String a "" \/ exists b, is_digit b = true /\ x = String b (String a "")).

(** Every group holds one or two digits. *)
Definition digit_groups (n : nat) (x : string) : Prop := digits12_text x.

(** ** The names of instruments *)

(** The names that stand in the code as they are. *)
Definition literal_names : list string :=
  [ "Corporate Bonds"; "CP"; "TB"; "JGBs: Inflation Linked"; "JGBs: Floating Rate";
    "USD: JGS PC"; "USD: PC"; "Funds-Supplying Operations";
    "Sec. lending: am"; "Sec. lending: pm" ].

(** A name made from the bounds of a maturity: JGBs, the mark FR for the
    fixed-rate method, and one or two bounds of one or two digits. *)
Definition maturity_band (name : string) : Prop :=
  exists method,
    (method = "" \/ method = "FR ")
    /\ ((exists lo, digits12_text lo /\ name = "JGBs: " ++ method ++ ">" ++ lo ++ "y")
        \/ (exists hi, digits12_text hi /\ name = "JGBs: " ++ method ++ "<" ++ hi ++ "y")
        \/ (exists lo hi, digits12_text lo /\ digits12_text hi
                          /\ name = "JGBs: " ++ method ++ lo ++ "-" ++ hi ++ "y")).

Definition canonical (name : string) : Prop :=
  In name literal_names \/ maturity_band name.

(** ** project.py: clean_up_notes (notes of the daily offers page) *)

(** [.+ Bank's purchasing yield of ([0-9]?[0-9])-year JGB .+ at ([0-9]\.[0-9][0-9][0-9])\%.+],
    matched without flags. *)
Definition note_regex : regex :=
  seqs [ DotPlus; lit " Bank's purchasing yield of "; Grp 1 digits12;
         lit "-year JGB "; DotPlus; lit " at ";
         Grp 2 (seqs [ Digit; Chr "."; Digit; Digit; Digit ]); Chr "%"; DotPlus ].

(** White space of [str.strip()], in the ASCII range. *)
Definition is_space (c : ascii) : bool :=
  let n := nat_of_ascii c in
  (Nat.leb 9 n && Nat.leb n 13)%bool || Nat.eqb n 32.

Fixpoint lstrip (s : string) : string :=
  match s with
  | String c s' => if is_space c then lstrip s' else s
  | EmptyString => s
  end.

Fixpoint rstrip (s : string) : string :=
  match s with
  | EmptyString => EmptyString
  | String c s' =>
      match rstrip s' with
      | EmptyString => if is_space c then EmptyString else String c EmptyString
      | r => String c r
      end
  end.

(** [s.strip()] *)
Definition strip (s : string) : string := rstrip (lstrip s).

Fixpoint all_digits (s : string) : bool :=
  match s with
  | EmptyString => true
  | String c s' => is_digit c && all_digits s'
  end.

(** [int(s)] for a text written with digits only; signs, underscores and
    white space around the digits are not modelled and are refused. *)
Definition int_of_text (s : string) : result Z :=
  match s with
  | EmptyString => Raise (ValueError "invalid literal for int()")
  | _ => if all_digits s then Ok (int_of_digits s)
         else Raise (ValueError "invalid literal for int()")
  end.

(** The text before the first point, and the text after it if there is
    a point. *)
Fixpoint split_point (s : string) : string * option string :=
  match s with
  | EmptyString => (EmptyString, None)
  | String c s' =>
      if Ascii.eqb c "." then (EmptyString, Some s')
      else let '(a, b) := split_point s' in (String c a, b)
  end.

(** [float(s)] for a text in decimal notation: digits, or digits around a
    point with a digit on one side at least; signs, exponents, underscores
    and the names of special values are not modelled and are refused. *)
Definition float_of_text (s : string) : result Q :=
  match split_point s with
  | (a, None) =>
      match a with
      | EmptyString => Raise (ValueError "could not convert string to float")
      | _ => if all_digits a then Ok (float_of_int (int_of_digits a))
             else Raise (ValueError "could not convert string to float")
      end
  | (a, Some b) =>
      if all_digits a && all_digits b
         && negb (String.eqb a "" && String.eqb b "")
      then Ok (Qred ((int_of_digits a * 10 ^ Z.of_nat (String.length b) + int_of_digits b)
                     # Z.to_pos (10 ^ Z.of_nat (String.length b))))
      else Raise (ValueError "could not convert string to float")
  end.

(** Maturity and rate of one note; [None] for a note that the pattern
    does not match.  [re.match] refuses what is not a text. *)
Definition note_of (c : cell) : result (option (Z * Q)) :=
  match c with
  | CStr i =>
      match re_match_cs note_regex i with
      | None => Ok None
      | Some m =>
          match group m 1, group m 2 with
          | Some g1, Some g2 =>
              maturity <- int_of_text (strip g1) ;;
              rate <- float_of_text (strip g2) ;;
              Ok (Some (maturity, rate))
          | _, _ => Raise AttributeError
          end
      end
  | _ => Raise TypeError
  end.

(** Equality of two rows of maturity and rate, by value. *)
Definition note_eqb (a b : Z * Q) : bool :=
  (fst a =? fst b) && Qeq_bool (snd a) (snd b).

(** [drop_duplicates()]: the first of equal rows is kept, in its place. *)
Definition drop_duplicates (l : list (Z * Q)) : list (Z * Q) :=
  fold_left (fun acc x => if existsb (note_eqb x) acc then acc else (acc ++ [x])%list)
            l [].

(** [dropna]: the notes that the pattern matched. *)
Fixpoint dropna {A : Type} (l : list (option A)) : list A :=
  match l with
  | [] => []
  | Some a :: l' => a :: dropna l'
  | None :: l' => dropna l'
  end.

Definition clean_up_notes (df_notes : list cell) (d : date) : result (list note_row) :=
  found <- mapM note_of df_notes ;;
  Ok (map (fun mr => mknote (fst mr) (snd mr) d) (drop_duplicates (dropna found))).

(** ** project.py: get_web_data, one day

    What the loop does for a day whose results page and offers page were
    read: the rows of the results table, then the notes of the offers page,
    then the operation. *)
Definition web_day (curdate : date) (df_data : list raw_row) (df_notes : list cell)
  : result Operation :=
  data <- clean_up_data df_data curdate ;;
  notes <- clean_up_notes df_notes curdate ;;
  add_operation curdate data (Some notes).

(** The text of a rate of the notes: a digit, a point, three digits. *)
Definition rate_text (x : string) : Prop :=
  exists a b c d,
    is_digit a = true /\ is_digit b = true /\ is_digit c = true /\ is_digit d = true
    /\ x = String a (String "." (String b (String c (String d "")))).

(** The first group of the notes holds one or two digits, the second the
    text of a rate. *)
Definition note_groups (n : nat) (x : string) : Prop :=
  (n = 1%nat -> digits12_text x) /\ (n = 2%nat -> rate_text x).

Definition is_text (c : cell) : Prop := exists s, c = CStr s.

(** A match of the pattern sets group [n] for sure. *)
Fixpoint sets_group (n : nat) (r : regex) : bool :=
  match r with
  | Seq a b => sets_group n a || sets_group n b
  | Grp i a => Nat.eqb i n || sets_group n a
  | _ => false
  end.

(** ** Rows and blocks of a sheet, for stating what the scan finds *)

(** Row [i] of the sheet has an integer in column 4, or has none. *)
Definition int_row (rows : list (list cell)) (i : Z) : Prop :=
  exists row, nth_error rows (Z.to_nat i) = Some row
              /\ isinstance_int (cell_at row 4) = true.

Definition other_row (rows : list (list cell)) (i : Z) : Prop :=
  exists row, nth_error rows (Z.to_nat i) = Some row
              /\ isinstance_int (cell_at row 4) = false.

(** Rows [a] to [b] have an integer in column 4 and the row after them
    has none. *)
Definition block (rows : list (list cell)) (ab : Z * Z) : Prop :=
  1 <= fst ab <= snd ab
  /\ (forall i, fst ab <= i <= snd ab -> int_row rows i)
  /\ other_row rows (snd ab + 1).

(** The dates do not go down along the frame. *)
Definition ordered_by_date (l : list erow) : Prop :=
  Sorted (fun a b => date_leb (e_date a) (e_date b) = true) l.

(** What [sort_values("Date")] is taken to do: it keeps every row, each
    once, and puts the dates in order. *)
Definition sorts_by_date (sort_values : list erow -> list erow) : Prop :=
  forall l, Permutation (sort_values l) l /\ ordered_by_date (sort_values l).

(** ** Totals of the columns of a chart frame *)

(** The number in a cell, 0 for a cell without one. *)
Definition cell_value (c : cell) : Q := fst (agg_of_cell c).

Definition column_total (column : list cell) : Q :=
  fold_right (fun c acc => (cell_value c + acc)%Q) 0%Q column.

(** The total of column [j] over the rows or groups of a frame. *)
Definition agg_total (j : nat) (rows : list (date * list agg)) : Q :=
  fold_right (fun r acc => (fst (nth j (snd r) (0%Q, 0%Z)) + acc)%Q) 0%Q rows.

(** ** project.py: plot_charts, the stacking of the bars

    [Series.add] adds two columns of one frame row by row; the loop is the
    same whatever it does to two cells, so it is a parameter here. *)

Section Stacking.
Variable series_add : list cell -> list cell -> list cell.

(** [range(n - 1, 1, -1)] *)
Definition range_down (n : nat) : list nat := rev (seq 2 (n - 2)).

(** One turn of the loop, for index [j] into [insts]:
    [df.loc[:, insts[j - 1]] = df.loc[:, insts[j - 1]].add(df.loc[:, insts[j]])]. *)
Definition stack_step (insts : list string) (df : frame) (j : nat) : frame :=
  match nth_error insts (j - 1), nth_error insts j with
  | Some below, Some above =>
      match df_get below df, df_get above df with
      | Some c_below, Some c_above => df_set below (series_add c_below c_above) df
      | _, _ => df
      end
  | _, _ => df
  end.

(** The loop over [j] for a bar chart; [insts] is [list(df_data.columns)]. *)
Definition stack_bars (df : frame) : frame :=
  let insts := map fst df in
  fold_left (stack_step insts) (range_down (List.length insts)) df.

(** The sum of a column and all the columns after it, added from the last
    one backwards. *)
Fixpoint suffix_sum (columns : list (list cell)) : list cell :=
  match columns with
  | [] => []
  | c :: rest =>
      match rest with
      | [] => c
      | _ :: _ => series_add c (suffix_sum rest)
      end
  end.

(** The columns from each one on, stacked. *)
Fixpoint stacked (df : frame) : frame :=
  match df with
  | [] => []
  | (n, c) :: rest =>
      match stacked rest with
      | [] => [(n, c)]
      | (n', c') :: rest' => (n, series_add c c') :: (n', c') :: rest'
      end
  end.
End Stacking.

(** [Series.add] on two columns of floats; a missing value on either side
    gives a missing value. *)
Fixpoint add_floats (a b : list cell) : list cell :=
  match a, b with
  | x :: a', y :: b' =>
      match x, y with
      | CFloat p, CFloat q => CFloat (fadd p q)
      | _, _ => CNaN
      end :: add_floats a' b'
  | _, _ => []
  end.

(** ** project.py: update_progress

    The argument is an [int] (a [bool] is one), a [float] or anything else;
    a float is a number, an infinity or NaN.  The result is the text
    written to the console, or the exception raised before anything is
    written. *)

Inductive pyfloat : Type :=
| Finite (x : Q)
| PosInf
| NegInf
| NaN.

Inductive progress_arg : Type :=
| PInt (n : Z)
| PFloat (x : pyfloat)
| POther.

(** [float(n)] of an int: an [OverflowError] beyond the floats. *)
Definition float_of_big_int (n : Z) : result pyfloat :=
  if float_limit <=? Z.abs n then Raise OverflowError
  else Ok (Finite (float_of_int n)).

(** [x < 0] and [x >= 1]; both are false of NaN. *)
Definition float_negative (x : pyfloat) : bool :=
  match x with
  | Finite q => if Qlt_le_dec q 0 then true else false
  | NegInf => true
  | PosInf | NaN => false
  end.

Definition float_at_least_one (x : pyfloat) : bool :=
  match x with
  | Finite q => if Qlt_le_dec q 1 then false else true
  | PosInf => true
  | NegInf | NaN => false
  end.

(** [k * x] and [x * k] for a positive int [k]. *)
Definition float_scale (k : Z) (x : pyfloat) : pyfloat :=
  match x with
  | Finite q => Finite (inject_Z k * q)
  | other => other
  end.

(** [round(x)] of a float: to the nearest integer, a tie to the even one. *)
Definition py_round (x : Q) : Z :=
  let f := Qfloor x in
  match Qcompare (x - inject_Z f) (1 # 2) with
  | Lt => f
  | Gt => f + 1
  | Eq => if Z.even f then f else f + 1
  end.

(** [int(x)] of a float: towards zero. *)
Definition py_trunc (x : Q) : Z :=
  if Qle_bool 0 x then Qfloor x else Qceiling x.

(** [int(round(x))] and [int(x)]: neither an infinity nor NaN has an
    integer. *)
Definition to_integer (f : Q -> Z) (x : pyfloat) : result Z :=
  match x with
  | Finite q => Ok (f q)
  | PosInf | NegInf => Raise OverflowError
  | NaN => Raise (ValueError "cannot convert float NaN to integer")
  end.

(** [s * n]; empty for [n <= 0]. *)
Fixpoint str_times (s : string) (n : nat) : string :=
  match n with
  | O => ""
  | S n' => s ++ str_times s n'
  end.

Definition str_repeat (s : string) (n : Z) : string := str_times s (Z.to_nat n).

Definition CR : string := String (ascii_of_nat 13) "".
Definition CRLF : string := String (ascii_of_nat 13) (String (ascii_of_nat 10) "").

Definition bar_length : Z := 40.

Definition update_progress (progress : progress_arg) (tag : string) : result string :=
  let status := "" in
  progress <- match progress with
              | PInt n => x <- float_of_big_int n ;; Ok (PFloat x)
              | p => Ok p
              end ;;
  let '(progress, status) :=
    match progress with
    | PFloat x => (x, status)
    | _ => (Finite 0, "error: progress var must be float" ++ CRLF)
    end in
  let '(progress, status) :=
    if float_negative progress then (Finite 0, "Halt..." ++ CRLF)
    else (progress, status) in
  let '(progress, status) :=
    if float_at_least_one progress then (Finite 1, "Done..." ++ CRLF)
    else (progress, status) in
  block <- to_integer py_round (float_scale bar_length progress) ;;
  percent <- to_integer py_trunc (float_scale 100 progress) ;;
  Ok (CR ++ tag ++ " [" ++ (str_repeat "=" block ++ str_repeat " " (bar_length - block))
         ++ "] " ++ str_of_int percent ++ "% " ++ status).

(** The text is a bar of 40 places for the tag, of which between 0 and 40
    are filled, with a percentage between 0 and 100. *)
Definition bar_written (tag : string) (r : result string) : Prop :=
  exists block percent status,
    r = Ok (CR ++ tag ++ " [" ++ (str_repeat "=" block ++ str_repeat " " (40 - block))
               ++ "] " ++ str_of_int percent ++ "% " ++ status)
    /\ 0 <= block <= 40 /\ 0 <= percent <= 100
    /\ String.length (str_repeat "=" block ++ str_repeat " " (40 - block)) = 40%nat.

(** * Properties *)

(** ** The record model *)

Lemma str_in_In (x : string) (l : list string) : str_in x l = true <-> In x l.
Proof.
  unfold str_in. rewrite existsb_exists. split.
  - intros [y [Hy He]]. apply String.eqb_eq in He. now subst.
  - intros H. exists x. split; [assumption | apply String.eqb_refl].
Qed.

Lemma Instruments_AddTransaction (op : Operation) (i c : string) (u : Z) :
  Op.Instruments (fst (Op.AddTransaction op i c u)) = (Op.Instruments op ++ [i])%list.
Proof.
  unfold Op.Instruments, Op.AddTransaction. simpl.
  now rewrite map_app.
Qed.

Lemma NoDup_snoc {A : Type} (l : list A) (x : A) :
  NoDup (l ++ [x])%list <-> NoDup l /\ ~ In x l.
Proof.
  split.
  - intros H. apply NoDup_remove in H. rewrite app_nil_r in H. exact H.
  - intros [Hl Hx]. apply (Permutation_NoDup (Permutation_cons_append l x)).
    now constructor.
Qed.

(** [AddTransaction] keeps the instruments distinct exactly when the
    instrument is new. *)
Lemma AddTransaction_distinct_iff (op : Operation) (i c : string) (u : Z) :
  NoDup (Op.Instruments (fst (Op.AddTransaction op i c u)))
  <-> NoDup (Op.Instruments op) /\ ~ In i (Op.Instruments op).
Proof.
  rewrite Instruments_AddTransaction. apply NoDup_snoc.
Qed.

Lemma remove_first_In (i : string) (ts r : list Transaction) :
  Op.remove_first i ts = Some r ->
  forall x, In x (map Instrument r) -> In x (map Instrument ts).
Proof.
  revert r. induction ts as [|t ts IH]; simpl; intros r H x Hx.
  - discriminate.
  - destruct (String.eqb (Instrument t) i).
    + injection H as <-. now right.
    + destruct (Op.remove_first i ts) as [r'|] eqn:E; [|discriminate].
      injection H as <-. simpl in Hx. destruct Hx as [Hx|Hx].
      * now left.
      * right. now apply (IH r').
Qed.

Lemma remove_first_NoDup (i : string) (ts r : list Transaction) :
  Op.remove_first i ts = Some r ->
  NoDup (map Instrument ts) -> NoDup (map Instrument r).
Proof.
  revert r. induction ts as [|t ts IH]; simpl; intros r H Hnd.
  - discriminate.
  - inversion Hnd as [|? ? Hnot Hnd']; subst.
    destruct (String.eqb (Instrument t) i).
    + injection H as <-. assumption.
    + destruct (Op.remove_first i ts) as [r'|] eqn:E; [|discriminate].
      injection H as <-. simpl. constructor.
      * intros Hin. apply Hnot. now apply (remove_first_In i ts r').
      * now apply IH.
Qed.

Lemma DeleteTransaction_distinct (op : Operation) (i : string) :
  NoDup (Op.Instruments op) ->
  NoDup (Op.Instruments (fst (Op.DeleteTransaction op i))).
Proof.
  unfold Op.DeleteTransaction, Op.Instruments. intros H.
  destruct (Op.remove_first i (Transactions op)) as [r|] eqn:E; simpl.
  - now apply (remove_first_NoDup i (Transactions op)).
  - assumption.
Qed.

(** C6, as the code has it: [AddTransaction] appends without a check, so
    the instruments of an Operation stay distinct along a sequence of
    calls provided every [AddTransaction] of the sequence names an
    instrument that the Operation does not hold at that moment. *)
Theorem distinct_instruments_preserved (op : Operation) (cs : list op_call) :
  NoDup (Op.Instruments op) ->
  fresh_calls op cs = true ->
  NoDup (Op.Instruments (run_calls op cs)).
Proof.
  revert op. induction cs as [|c cs IH]; intros op Hnd Hfresh.
  - exact Hnd.
  - simpl in Hfresh. apply andb_true_iff in Hfresh. destruct Hfresh as [Hc Hcs].
    simpl. apply IH; [|exact Hcs].
    destruct c as [i cur u|i|d]; simpl.
    + apply AddTransaction_distinct_iff. split; [exact Hnd|].
      intros Hin. apply str_in_In in Hin. rewrite Hin in Hc. discriminate.
    + now apply DeleteTransaction_distinct.
    + exact Hnd.
Qed.

Lemma distinct_instruments_preserved_witness :
  NoDup (Op.Instruments
           (run_calls (Operation_init (mkdate 2023 2 1))
              [CallAdd "CP" "JPY" 100; CallAdd "TB" "JPY" 100; CallDelete "CP";
               CallAdd "CP" "JPY" 100])).
Proof.
  apply distinct_instruments_preserved.
  - constructor.
  - vm_compute. reflexivity.
Defined.

(** C6, as stated, fails: two calls of [AddTransaction] with one instrument
    leave two transactions of that instrument. *)
Lemma duplicate_instrument_reachable :
  ~ NoDup (Op.Instruments
             (run_calls (Operation_init (mkdate 2023 2 1))
                [CallAdd "CP" "JPY" 100; CallAdd "CP" "JPY" 100])).
Proof.
  vm_compute. intros H. inversion H as [|? ? Hnot _]; subst.
  apply Hnot. now left.
Qed.

(** ** TransactionValue *)

(** The test [Instrument[0:3] == "JGB"] is the test for the prefix. *)
Lemma slice3_JGB (s : string) :
  String.eqb (slice3 s) "JGB" = prefix "JGB" s.
Proof.
  unfold slice3. destruct (prefix "JGB" s) eqn:E.
  - apply prefix_correct in E. change (String.length "JGB") with 3%nat in E.
    rewrite E. apply String.eqb_refl.
  - apply String.eqb_neq. intros H.
    assert (prefix "JGB" s = true) by (apply prefix_correct; exact H).
    congruence.
Qed.

Lemma truediv_value (a : Z) (b : positive) :
  (truediv a b == inject_Z a / inject_Z (Zpos b))%Q.
Proof.
  unfold truediv. rewrite Qred_correct. apply Qmake_Qdiv.
Qed.

Lemma bid_value_set (t : Transaction) :
  valued t -> exists v, Op.bid_value t = Ok v /\ (v == bn_value t)%Q.
Proof.
  intros [sb [H Hr]]. unfold Op.bid_value, bn_value, int_truediv. rewrite H.
  destruct (Z.leb_spec (float_limit * 1000) (Z.abs (sb * Units t))) as [Hge|Hlt]; [lia|].
  eexists. split; [reflexivity|].
  cbn [zfill]. rewrite truediv_value, inject_Z_mult. reflexivity.
Qed.

Lemma bid_value_not_valued (t : Transaction) :
  ~ valued t ->
  (SuccessfulBids t = None /\ Op.bid_value t = Raise TypeError)
  \/ (exists sb, SuccessfulBids t = Some sb
                 /\ float_limit * 1000 <= Z.abs (sb * Units t)
                 /\ Op.bid_value t = Raise OverflowError).
Proof.
  intros Hn. unfold Op.bid_value, int_truediv.
  destruct (SuccessfulBids t) as [sb|] eqn:H; [|now left].
  right. exists sb.
  destruct (Z.leb_spec (float_limit * 1000) (Z.abs (sb * Units t))) as [Hge|Hlt].
  - repeat split. exact Hge.
  - exfalso. apply Hn. exists sb. now split.
Qed.

Lemma valued_or_not (t : Transaction) : valued t \/ ~ valued t.
Proof.
  unfold valued. destruct (SuccessfulBids t) as [sb|].
  - destruct (Z_lt_le_dec (Z.abs (sb * Units t)) (float_limit * 1000)) as [H|H].
    + left. exists sb. now split.
    + right. intros [sb' [[= <-] H']]. lia.
  - right. intros [sb [H _]]. discriminate.
Qed.

Lemma value_named_found (i : string) (ts : list Transaction) (t : Transaction) :
  Op.find_trans i ts = Some t -> Op.value_named i ts = Op.bid_value t.
Proof.
  induction ts as [|x ts IH]; simpl; [discriminate|].
  destruct (String.eqb (Instrument x) i).
  - intros H. now injection H as ->.
  - exact IH.
Qed.

Lemma value_named_absent (i : string) (ts : list Transaction) :
  ~ In i (map Instrument ts) -> Op.value_named i ts = Ok 0%Q.
Proof.
  induction ts as [|x ts IH]; simpl; [reflexivity|].
  intros H. destruct (String.eqb_spec (Instrument x) i) as [E|E].
  - exfalso. apply H. now left.
  - apply IH. intros Hin. apply H. now right.
Qed.

Lemma value_total_sum (ts : list Transaction) :
  (forall t, In t ts -> is_jgb t = true -> valued t) ->
  forall total,
  exists r, Op.value_total total ts = Ok r
            /\ (r == total + bn_sum (filter is_jgb ts))%Q.
Proof.
  induction ts as [|t ts IH]; intros Hset total; simpl.
  - exists total. split; [reflexivity|]. unfold bn_sum. simpl. ring.
  - rewrite slice3_JGB. fold (is_jgb t).
    assert (Hts : forall x, In x ts -> is_jgb x = true -> valued x)
      by (intros x Hx; apply Hset; now right).
    destruct (is_jgb t) eqn:Hj.
    + destruct (bid_value_set t (Hset t (or_introl eq_refl) Hj)) as [v [Hv Hq]].
      rewrite Hv. cbn [bind].
      destruct (IH Hts (fadd total v)) as [r [Hr Hrq]].
      exists r. split; [exact Hr|].
      rewrite Hrq. unfold fadd. rewrite Qred_correct, Hq.
      unfold bn_sum. simpl. ring.
    + apply IH. exact Hts.
Qed.

Lemma value_total_raises (ts : list Transaction) :
  (exists t, In t ts /\ is_jgb t = true /\ ~ valued t) ->
  forall total,
  Op.value_total total ts = Raise TypeError
  \/ Op.value_total total ts = Raise OverflowError.
Proof.
  induction ts as [|t ts IH]; intros [x [Hx [Hj Hn]]] total; [destruct Hx|].
  cbn [Op.value_total]. rewrite slice3_JGB. fold (is_jgb t).
  destruct (is_jgb t) eqn:Ht.
  - destruct (valued_or_not t) as [Hv|Hv].
    + destruct (bid_value_set t Hv) as [v [Ev _]]. rewrite Ev. cbn [bind].
      apply IH. destruct Hx as [->|Hx]; [contradiction|]. now exists x.
    + destruct (bid_value_not_valued t Hv) as [[_ E]|[sb [_ [_ E]]]];
        rewrite E; cbn [bind]; [now left | now right].
  - apply IH. destruct Hx as [->|Hx]; [congruence|]. now exists x.
Qed.

(** C7, as the code has it: [TransactionValue(instrument)] is 0.0 when the
    operation holds no such instrument; otherwise it is computed from the
    first transaction of that instrument: successful bids times units over
    1000 when the successful bids are set (200 bids at units 100 give 20),
    a [TypeError] when they are not, as right after [AddTransaction], and
    an [OverflowError] when the product is beyond the floats.  Without an
    instrument it is the sum of that value over the transactions whose
    instrument begins with JGB when each of them has a value, and one of
    the two errors when one of them has none. *)
Theorem TransactionValue_spec (op : Operation) :
  (forall i, ~ In i (Op.Instruments op) ->
             Op.TransactionValue op (Some i) = Ok 0%Q)
  /\ (forall i t sb,
        Op.Transaction op i = Some t -> SuccessfulBids t = Some sb ->
        Z.abs (sb * Units t) < float_limit * 1000 ->
        exists v, Op.TransactionValue op (Some i) = Ok v
                  /\ (v == inject_Z sb * inject_Z (Units t) / 1000)%Q)
  /\ (forall i t,
        Op.Transaction op i = Some t -> SuccessfulBids t = None ->
        Op.TransactionValue op (Some i) = Raise TypeError)
  /\ (forall i t sb,
        Op.Transaction op i = Some t -> SuccessfulBids t = Some sb ->
        float_limit * 1000 <= Z.abs (sb * Units t) ->
        Op.TransactionValue op (Some i) = Raise OverflowError)
  /\ ((forall t, In t (Transactions op) -> is_jgb t = true -> valued t) ->
      exists total, Op.TransactionValue op None = Ok total
                    /\ (total == bn_sum (filter is_jgb (Transactions op)))%Q)
  /\ ((exists t, In t (Transactions op) /\ is_jgb t = true /\ ~ valued t) ->
      Op.TransactionValue op None = Raise TypeError
      \/ Op.TransactionValue op None = Raise OverflowError).
Proof.
  split; [|split; [|split; [|split; [|split]]]].
  - intros i Hi. apply value_named_absent. exact Hi.
  - intros i t sb Hfind Hsb Hr. unfold Op.TransactionValue.
    rewrite (value_named_found i _ t Hfind).
    destruct (bid_value_set t) as [v [Hv Hq]]; [exists sb; now split|].
    exists v. split; [exact Hv|].
    rewrite Hq. unfold bn_value. rewrite Hsb. reflexivity.
  - intros i t Hfind Hsb. unfold Op.TransactionValue.
    rewrite (value_named_found i _ t Hfind). unfold Op.bid_value. now rewrite Hsb.
  - intros i t sb Hfind Hsb Hr. unfold Op.TransactionValue.
    rewrite (value_named_found i _ t Hfind). unfold Op.bid_value, int_truediv.
    rewrite Hsb.
    destruct (Z.leb_spec (float_limit * 1000) (Z.abs (sb * Units t))); [reflexivity|lia].
  - intros Hset. unfold Op.TransactionValue.
    destruct (value_total_sum (Transactions op) Hset 0%Q) as [r [Hr Hq]].
    exists r. split; [exact Hr|]. rewrite Hq. ring.
  - intros Hex. unfold Op.TransactionValue. now apply value_total_raises.
Qed.

Lemma float_limit_above (n : Z) : Z.abs n < 2 ^ 64 -> Z.abs n < float_limit * 1000.
Proof.
  intros H. apply Z.lt_trans with (2 ^ 64); [exact H|]. vm_compute. reflexivity.
Qed.

(** The scenario of C7 and an aggregate over three transactions, one of
    them in US dollars. *)
Lemma TransactionValue_spec_witness :
  let t1 := set_SuccessfulBids (Some 200) (Transaction_init "JGBs: 5-10y" "JPY" 100) in
  let t2 := set_SuccessfulBids (Some 30) (Transaction_init "USD: PC" "USD" 1) in
  let t3 := set_SuccessfulBids (Some 5) (Transaction_init "JGBs: FR 1-3y" "JPY" 100) in
  let op := mkOperation (mkdate 2023 2 1) [t1; t2; t3] in
  Op.TransactionValue op (Some "JGBs: 5-10y") = Ok 20%Q
  /\ Op.TransactionValue op (Some "CP") = Ok 0%Q
  /\ exists total, Op.TransactionValue op None = Ok total /\ (total == 205 # 10)%Q.
Proof.
  intros t1 t2 t3 op.
  destruct (TransactionValue_spec op) as [H1 [H2 [_ [_ [H3 _]]]]].
  split; [|split].
  - destruct (H2 "JGBs: 5-10y" t1 200 eq_refl eq_refl) as [v [Hv _]].
    + apply float_limit_above. vm_compute. reflexivity.
    + rewrite Hv. vm_compute in Hv. injection Hv as <-. reflexivity.
  - apply H1. vm_compute. intros [H|[H|[H|[]]]]; discriminate.
  - destruct H3 as [total [Ht Hq]].
    + intros t [<-|[<-|[<-|[]]]] _.
      * exists 200. split; [reflexivity|]. apply float_limit_above. vm_compute. reflexivity.
      * exists 30. split; [reflexivity|]. apply float_limit_above. vm_compute. reflexivity.
      * exists 5. split; [reflexivity|]. apply float_limit_above. vm_compute. reflexivity.
    + exists total. split; [exact Ht|]. rewrite Hq. vm_compute. reflexivity.
Defined.

(** C7, as stated, fails: the successful bids of a transaction just added
    are not set, and the value of its operation is no number but a
    [TypeError], by instrument and in aggregate. *)
Lemma TransactionValue_fails_without_bids :
  let op := fst (Op.AddTransaction (Operation_init (mkdate 2023 2 1))
                                   "JGBs: 5-10y" "JPY" 100) in
  Op.Instruments op = ["JGBs: 5-10y"]
  /\ Op.TransactionValue op (Some "JGBs: 5-10y") = Raise TypeError
  /\ Op.TransactionValue op None = Raise TypeError
  /\ ~ (exists v, Op.TransactionValue op (Some "JGBs: 5-10y") = Ok v).
Proof.
  intros op. split; [reflexivity|]. split; [reflexivity|]. split; [reflexivity|].
  intros [v H]. discriminate.
Qed.

(** ** The classifier *)

Lemma first_search_none (tbl : list (regex * string)) (long_name : string) :
  (forall s r, In (s, r) tbl -> re_found s long_name = false) ->
  first_search tbl long_name = None.
Proof.
  induction tbl as [|[s r] tbl IH]; intros H; [reflexivity|].
  cbn [first_search]. rewrite (H s r) by now left.
  apply IH. intros s' r' Hin. apply (H s' r'). now right.
Qed.

(** A description that no entry of the search table, neither maturity
    pattern and not the repurchase pattern takes reaches the last line:
    a [ValueError] whose message ends with the description. *)
Lemma untaken_name_is_refused (long_name : string) :
  (forall s r, In (s, r) searches -> re_found s long_name = false) ->
  (forall tt, re_match (maturity_regex tt) long_name = None) ->
  re_match repo_regex long_name = None ->
  get_short_name long_name
  = Raise (ValueError ("Imstrument not recognized: " ++ long_name)).
Proof.
  intros Hs Hm Hr. unfold get_short_name.
  rewrite (first_search_none _ _ Hs), (Hm fixed), (Hm floating), Hr.
  reflexivity.
Qed.

(** Whatever the description, the name that comes back is not empty. *)
Lemma get_short_name_nonempty (long_name : string) :
  get_short_name long_name <> Ok "".
Proof.
  unfold get_short_name.
  destruct (first_search searches long_name) as [r|] eqn:Es.
  - unfold searches in Es. cbn [first_search] in Es.
    repeat match type of Es with
           | (if ?c then _ else _) = _ =>
               destruct c; [injection Es as <-; discriminate|]
           end.
    discriminate.
  - destruct (re_match (maturity_regex fixed) long_name) as [m|].
    { unfold maturity_name.
      destruct (group m 2), (group m 1); simpl; discriminate. }
    destruct (re_match (maturity_regex floating) long_name) as [m|].
    { unfold maturity_name.
      destruct (group m 2), (group m 1); simpl; discriminate. }
    destruct (re_match repo_regex long_name) as [m|]; [|discriminate].
    unfold repo_name. destruct (group m 1) as [g|]; [|discriminate].
    destruct (String.eqb g "morning"); [discriminate|].
    destruct (String.eqb g "afternoon"); discriminate.
Qed.

(** A maturity pattern that takes a description with neither bound set
    ends in the addition of [None] to a text, whatever the description. *)
Lemma maturity_name_without_bound (tt : trans_type) (m : captures) :
  group m 1 = None -> group m 2 = None -> maturity_name tt m = Raise TypeError.
Proof.
  intros H1 H2. unfold maturity_name. now rewrite H2, H1.
Qed.

(** So does every description that a maturity pattern takes without a
    bound, unless the search table names it first. *)
Lemma name_without_bound_raises (other : string) (tt : trans_type) (m : captures) :
  first_search searches other = None ->
  re_match (maturity_regex fixed) other = None \/ tt = fixed ->
  re_match (maturity_regex tt) other = Some m ->
  group m 1 = None -> group m 2 = None ->
  get_short_name other = Raise TypeError.
Proof.
  intros Hs Hfix Hm H1 H2. unfold get_short_name. rewrite Hs.
  destruct tt.
  - rewrite Hm. now apply maturity_name_without_bound.
  - destruct Hfix as [Hfix|Hfix]; [|discriminate].
    rewrite Hfix, Hm. now apply maturity_name_without_bound.
Qed.

(** C2 does not hold of the code.  The description
    "Outright purchases of JGBs (residual maturity of 15 years)" is none of
    the texts of the search table and names no bound of a maturity and no
    session, so no rule gives it a name.  The pattern of the maturities
    takes it all the same, both of its bounds being optional, with no
    group set; [get_short_name] then adds [None] to a text and raises a
    [TypeError], which does not name the description, where the last line
    of the function raises the [ValueError] that does. *)
Theorem maturity_without_bound_raises_TypeError :
  let long_name := "Outright purchases of JGBs (residual maturity of 15 years)" in
  first_search searches long_name = None
  /\ re_match (maturity_regex fixed) long_name = None
  /\ re_match (maturity_regex floating) long_name = Some []
  /\ re_match repo_regex long_name = None
  /\ get_short_name long_name = Raise TypeError.
Proof.
  intros long_name. pose proof (name_without_bound_raises long_name floating []) as H.
  assert (Hs : first_search searches long_name = None) by (vm_compute; reflexivity).
  assert (Hf : re_match (maturity_regex fixed) long_name = None)
    by (vm_compute; reflexivity).
  assert (Hm : re_match (maturity_regex floating) long_name = Some [])
    by (vm_compute; reflexivity).
  split; [exact Hs|]. split; [exact Hf|]. split; [exact Hm|].
  split; [vm_compute; reflexivity|].
  apply H; [exact Hs | now left | exact Hm | reflexivity | reflexivity].
Qed.

Lemma dotplus_after_text {A : Type} (pre suf : string) (k : string -> option A)
      (r : A) :
  pre <> "" -> no_newline pre = true ->
  dotplus suf k = None -> k suf = Some r ->
  dotplus (pre ++ suf) k = Some r.
Proof.
  intros Hne Hnl Hsuf Hk. induction pre as [|c pre IH]; [contradiction|].
  simpl in Hnl. apply andb_true_iff in Hnl. destruct Hnl as [Hc Hnl].
  simpl. apply negb_true_iff in Hc. rewrite Hc.
  destruct pre as [|c' pre].
  - simpl. now rewrite Hsuf.
  - rewrite IH; [reflexivity | discriminate | exact Hnl].
Qed.

(** A pattern that begins with [.+], on a text made of an opening text
    and of a phrase: when the pattern fails on the phrase alone and its
    remainder matches the phrase, the opening text is what [.+] takes. *)
Lemma re_match_after_text (r : regex) (pre suf : string) (m : captures) :
  pre <> "" -> no_newline pre = true ->
  re_match (Seq DotPlus r) suf = None ->
  re_match r suf = Some m ->
  re_match (Seq DotPlus r) (pre ++ suf) = Some m.
Proof.
  unfold re_match. cbn [rmatch]. intros Hne Hnl Hsuf Hk.
  now apply dotplus_after_text.
Qed.

Lemma maturity_after_text (pre : string) :
  pre <> "" -> no_newline pre = true ->
  re_match (maturity_regex floating) (pre ++ phrase_5_10)
  = Some [(2%nat, "10"); (1%nat, "5")].
Proof.
  intros Hne Hnl.
  apply (re_match_after_text (seqs [Chr " "; re_txt]) pre phrase_5_10); try assumption.
  - vm_compute. reflexivity.
  - vm_compute. reflexivity.
Qed.

Lemma fixed_maturity_after_text (pre : string) :
  pre <> "" -> no_newline pre = true ->
  re_match (maturity_regex fixed) (pre ++ phrase_fixed_5_10)
  = Some [(2%nat, "10"); (1%nat, "5")].
Proof.
  intros Hne Hnl.
  apply (re_match_after_text
           (seqs [Chr " "; lit "(fixed-rate method) "; DotPlus; Chr " "; re_txt])
           pre phrase_fixed_5_10); try assumption.
  - vm_compute. reflexivity.
  - vm_compute. reflexivity.
Qed.

Lemma repo_after_text (pre session : string) (m : captures) :
  pre <> "" -> no_newline pre = true ->
  re_match repo_regex (phrase_repo session) = None ->
  re_match (seqs [ lit " (Sales of JGSs under repurchase agreements) /offered in the ";
                   Grp 1 DotPlus; Chr "/"; DotPlus ]) (phrase_repo session) = Some m ->
  re_match repo_regex (pre ++ phrase_repo session) = Some m.
Proof.
  intros Hne Hnl H1 H2.
  now apply (re_match_after_text
               (seqs [ lit " (Sales of JGSs under repurchase agreements) /offered in the ";
                       Grp 1 DotPlus; Chr "/"; DotPlus ]) pre (phrase_repo session)).
Qed.

(** C4: the scenarios of the classifier.  "Outright purchases of CP" is
    CP; after any opening text on one line, and unless an entry of the
    search table is found, the maturity phrase of more than 5 and up to 10
    years is "JGBs: 5-10y" and, behind "(fixed-rate method)", is
    "JGBs: FR 5-10y"; a repurchase description offered in the morning is
    "Sec. lending: am", in the afternoon "Sec. lending: pm", and one whose
    session is neither is refused. *)
Theorem classifier_scenarios :
  get_short_name "Outright purchases of CP" = Ok "CP"
  /\ (forall pre,
        pre <> "" -> no_newline pre = true ->
        first_search searches (pre ++ phrase_5_10) = None ->
        re_match (maturity_regex fixed) (pre ++ phrase_5_10) = None ->
        get_short_name (pre ++ phrase_5_10) = Ok "JGBs: 5-10y")
  /\ (forall pre,
        pre <> "" -> no_newline pre = true ->
        first_search searches (pre ++ phrase_fixed_5_10) = None ->
        get_short_name (pre ++ phrase_fixed_5_10) = Ok "JGBs: FR 5-10y")
  /\ (forall pre session name,
        pre <> "" -> no_newline pre = true ->
        (session, name) = ("morning", "Sec. lending: am")
        \/ (session, name) = ("afternoon", "Sec. lending: pm") ->
        first_search searches (pre ++ phrase_repo session) = None ->
        (forall tt, re_match (maturity_regex tt) (pre ++ phrase_repo session) = None) ->
        get_short_name (pre ++ phrase_repo session) = Ok name)
  /\ (forall long_name m session,
         first_search searches long_name = None ->
         (forall tt, re_match (maturity_regex tt) long_name = None) ->
         re_match repo_regex long_name = Some m ->
         group m 1 = Some session ->
         session <> "morning" -> session <> "afternoon" ->
         get_short_name long_name
         = Raise (ValueError "Expected morning / afternoon flag not found")).
Proof.
  split; [vm_compute; reflexivity|]. split; [|split; [|split]].
  - intros pre Hne Hnl Hs Hf. unfold get_short_name.
    rewrite Hs, Hf, (maturity_after_text pre Hne Hnl). reflexivity.
  - intros pre Hne Hnl Hs. unfold get_short_name.
    rewrite Hs, (fixed_maturity_after_text pre Hne Hnl). reflexivity.
  - intros pre session name Hne Hnl Hcase Hs Hm. unfold get_short_name.
    rewrite Hs, (Hm fixed), (Hm floating).
    destruct Hcase as [[= -> ->]|[= -> ->]].
    + rewrite (repo_after_text pre "morning" [(1%nat, "morning")] Hne Hnl);
        [reflexivity | vm_compute; reflexivity | vm_compute; reflexivity].
    + rewrite (repo_after_text pre "afternoon" [(1%nat, "afternoon")] Hne Hnl);
        [reflexivity | vm_compute; reflexivity | vm_compute; reflexivity].
  - intros long_name m session Hs Hm Hr Hg Hn1 Hn2.
    unfold get_short_name. rewrite Hs, (Hm fixed), (Hm floating), Hr.
    unfold repo_name. rewrite Hg.
    apply String.eqb_neq in Hn1, Hn2. now rewrite Hn1, Hn2.
Qed.

(** The scenarios on four descriptions, the last one offered in the
    evening. *)
Lemma classifier_scenarios_witness :
  get_short_name
    "Outright purchases of JGBs (residual maturity of more than 5 years) up to 10 years)"
  = Ok "JGBs: 5-10y"
  /\ get_short_name
       "Outright purchases of JGBs (fixed-rate method) (residual maturity of more than 5 years) up to 10 years)"
     = Ok "JGBs: FR 5-10y"
  /\ get_short_name
       "Securities Lending (Sales of JGSs under repurchase agreements) /offered in the morning/ T+1"
     = Ok "Sec. lending: am"
  /\ get_short_name
       "Securities Lending (Sales of JGSs under repurchase agreements) /offered in the evening/ T+1"
     = Raise (ValueError "Expected morning / afternoon flag not found").
Proof.
  destruct classifier_scenarios as [_ [H1 [H2 [H3 H4]]]].
  split; [|split; [|split]].
  - apply (H1 "Outright purchases of JGBs (residual");
      [discriminate | reflexivity | vm_compute; reflexivity | vm_compute; reflexivity].
  - apply (H2 "Outright purchases of JGBs");
      [discriminate | reflexivity | vm_compute; reflexivity].
  - apply (H3 "Securities Lending" "morning" "Sec. lending: am");
      [discriminate | reflexivity | now left | vm_compute; reflexivity |].
    intros [|]; vm_compute; reflexivity.
  - apply (H4 _ [(1%nat, "evening")] "evening").
    + vm_compute. reflexivity.
    + intros [|]; vm_compute; reflexivity.
    + vm_compute. reflexivity.
    + reflexivity.
    + discriminate.
    + discriminate.
Defined.

(** ** The lookup layer: the token All *)

(** With the token All among the instruments the rate flag is of no
    effect. *)
Lemma rate_flag_ignored_with_All (operations : list Operation)
      (instruments : list string) (start_date end_date : date) (monthly : bool) :
  In "All" instruments ->
  get_chart_data operations instruments start_date end_date true monthly
  = get_chart_data operations instruments start_date end_date false monthly.
Proof.
  intros Hall. apply str_in_In in Hall.
  unfold get_chart_data, rate_flag. rewrite Hall. reflexivity.
Qed.

(** C8 on the operation of a day on which only floating-rate bonds were
    bought.  The classifier names them "JGBs: Floating Rate" and the
    aggregate of the operation counts them, 20 for 200 successful bids;
    the list that stands for All in [get_chart_data] has no such name, so
    the query for All drops the operation and returns no row. *)
Theorem all_leaves_out_floating_rate :
  let d := mkdate 2023 2 14 in
  let page := [ mkraw "Outright purchases of JGBs (floating-rate bonds)"
                      (Some 300) (Some 200) (Some 0%Q) ] in
  exists op,
    web_day d page [] = Ok op
    /\ Op.Instruments op = ["JGBs: Floating Rate"]
    /\ Op.TransactionValue op None = Ok 20%Q
    /\ ~ In "JGBs: Floating Rate" (inst_filter ["All"])
    /\ get_chart_data [op] ["All"] (mkdate 2023 1 1) (mkdate 2023 12 31) false false
       = Ok [("Date", []); ("All", [])]
    /\ get_chart_data [op] ["All"] (mkdate 2023 1 1) (mkdate 2023 12 31) true false
       = Ok [("Date", []); ("All", [])].
Proof.
  intros d page. eexists. split; [vm_compute; reflexivity|].
  split; [reflexivity|]. split; [vm_compute; reflexivity|].
  split; [|split; vm_compute; reflexivity].
  vm_compute. intuition discriminate.
Qed.

(** ** The record builder: fixed-rate notes *)

Lemma fixed_rate_instrument_table (m : Z) (inst : string) :
  fixed_rate_instrument m = Ok inst <-> In (m, inst) fixed_rate_buckets.
Proof.
  unfold fixed_rate_instrument, fixed_rate_buckets. split.
  - destruct (Z.eqb_spec m 5) as [->|H5]; [intros [= <-]; simpl; tauto|].
    destruct (Z.eqb_spec m 2) as [->|H2]; [intros [= <-]; simpl; tauto|].
    destruct (Z.eqb_spec m 10) as [->|H10]; [intros [= <-]; simpl; tauto|].
    destruct (Z.eqb_spec m 20) as [->|H20]; [intros [= <-]; simpl; tauto|].
    discriminate.
  - intros [H|[H|[H|[H|[]]]]]; injection H as <- <-; reflexivity.
Qed.

Lemma fixed_rate_instrument_error (m : Z) (e : exn) :
  fixed_rate_instrument m = Raise e ->
  e = ValueError "Unrecognized fixed rate operation maturity".
Proof.
  unfold fixed_rate_instrument.
  repeat match goal with
         | |- context [if ?c then _ else _] => destruct c; [discriminate|]
         end.
  now intros [= <-].
Qed.

Lemma note_for_table (inst : string) (n : note_row) :
  note_for inst n = true <-> fixed_rate_instrument (Maturity n) = Ok inst.
Proof.
  rewrite fixed_rate_instrument_table. unfold note_for.
  rewrite existsb_exists. split.
  - intros [[m i] [Hin Hb]]. simpl in Hb. apply andb_true_iff in Hb.
    destruct Hb as [Hm Hi]. apply Z.eqb_eq in Hm. apply String.eqb_eq in Hi.
    now subst.
  - intros Hin. exists (Maturity n, inst). split; [exact Hin|]. simpl.
    now rewrite Z.eqb_refl, String.eqb_refl.
Qed.

Lemma find_trans_In (i : string) (ts : list Transaction) :
  Op.find_trans i ts <> None <-> In i (map Instrument ts).
Proof.
  induction ts as [|t ts IH]; simpl.
  - split; [congruence | tauto].
  - destruct (String.eqb_spec (Instrument t) i) as [E|E].
    + split; [now left | discriminate].
    + rewrite IH. split; [now right | intros [H|H]; [contradiction | exact H]].
Qed.

Section Setters.
Variable f : Transaction -> Transaction.
Hypothesis f_instrument : forall t, Instrument (f t) = Instrument t.

Lemma update_last_snoc (ts : list Transaction) (t : Transaction) :
  update_last f (ts ++ [t])%list = (ts ++ [f t])%list.
Proof.
  induction ts as [|x ts IH]; [reflexivity|].
  simpl. rewrite IH. destruct ts; reflexivity.
Qed.

Lemma update_first_instruments (i : string) (ts : list Transaction) :
  map Instrument (update_first i f ts) = map Instrument ts.
Proof.
  induction ts as [|t ts IH]; [reflexivity|]. simpl.
  destruct (String.eqb (Instrument t) i); simpl.
  - now rewrite f_instrument.
  - now rewrite IH.
Qed.

Lemma find_update_first (i j : string) (ts : list Transaction) :
  Op.find_trans j (update_first i f ts)
  = if String.eqb i j then option_map f (Op.find_trans j ts)
    else Op.find_trans j ts.
Proof.
  induction ts as [|t ts IH]; simpl.
  - now destruct (String.eqb i j).
  - destruct (String.eqb_spec (Instrument t) i) as [Ei|Ei]; simpl.
    + rewrite f_instrument.
      destruct (String.eqb_spec i j) as [Eij|Eij].
      * subst. now rewrite String.eqb_refl.
      * destruct (String.eqb_spec (Instrument t) j); [congruence | reflexivity].
    + destruct (String.eqb_spec (Instrument t) j) as [Ej|Ej].
      * destruct (String.eqb_spec i j); [congruence | reflexivity].
      * exact IH.
Qed.
End Setters.

Lemma add_row_instruments (rows : list data_row) (op : Operation) :
  Op.Instruments (fold_left add_row rows op)
  = (Op.Instruments op ++ map d_instrument rows)%list.
Proof.
  revert op. induction rows as [|r rows IH]; intros op; simpl.
  - now rewrite app_nil_r.
  - rewrite IH. unfold add_row, Op.Instruments.
    destruct (String.eqb (slice3 (d_instrument r)) "USD"); simpl;
      rewrite update_last_snoc, map_app, <- app_assoc; reflexivity.
Qed.

Lemma add_row_date (rows : list data_row) (op : Operation) :
  Date (fold_left add_row rows op) = Date op.
Proof.
  revert op. induction rows as [|r rows IH]; intros op; [reflexivity|].
  simpl. rewrite IH. unfold add_row.
  destruct (String.eqb (slice3 (d_instrument r)) "USD"); reflexivity.
Qed.

Lemma add_note_spec (op : Operation) (row : note_row) :
  (note_ok (Op.Instruments op) row ->
   exists inst,
     fixed_rate_instrument (Maturity row) = Ok inst
     /\ add_note op row
        = Ok (mkOperation (Date op)
                (update_first inst (set_Rate (Some (note_Rate row))) (Transactions op))))
  /\ (~ note_ok (Op.Instruments op) row ->
      add_note op row = Raise (ValueError "Unrecognized fixed rate operation maturity")).
Proof.
  unfold add_note, note_ok. split.
  - intros [inst [Hb Hin]]. exists inst.
    apply fixed_rate_instrument_table in Hb. rewrite Hb. split; [reflexivity|].
    simpl. unfold Op.Transaction.
    apply find_trans_In in Hin.
    destruct (Op.find_trans inst (Transactions op)); [reflexivity | contradiction].
  - intros Hno.
    destruct (fixed_rate_instrument (Maturity row)) as [inst|e] eqn:Hb; simpl.
    + unfold Op.Transaction.
      destruct (Op.find_trans inst (Transactions op)) eqn:Hf; [|reflexivity].
      exfalso. apply Hno. exists inst. split.
      * now apply fixed_rate_instrument_table.
      * apply find_trans_In. unfold Op.Instruments. congruence.
    + now rewrite (fixed_rate_instrument_error _ _ Hb).
Qed.

Lemma add_notes_ok (notes : list note_row) (op : Operation) :
  Forall (note_ok (Op.Instruments op)) notes ->
  exists op',
    add_notes op notes = Ok op'
    /\ Date op' = Date op
    /\ Op.Instruments op' = Op.Instruments op
    /\ forall inst,
         Op.Transaction op' inst
         = match last_rate inst notes with
           | Some r => option_map (set_Rate (Some r)) (Op.Transaction op inst)
           | None => Op.Transaction op inst
           end.
Proof.
  revert op. induction notes as [|n notes IH]; intros op Hall.
  - exists op. simpl. auto.
  - inversion Hall as [|? ? Hn Hrest]; subst.
    destruct (proj1 (add_note_spec op n) Hn) as [i [Hi Hadd]].
    set (op1 := mkOperation (Date op)
                  (update_first i (set_Rate (Some (note_Rate n))) (Transactions op))) in *.
    assert (Hinst : Op.Instruments op1 = Op.Instruments op).
    { unfold Op.Instruments, op1. simpl. now apply update_first_instruments. }
    rewrite <- Hinst in Hrest.
    destruct (IH op1 Hrest) as [op' [Hrun [Hd [Hins Hrate]]]].
    exists op'. simpl. rewrite Hadd. simpl.
    split; [exact Hrun|]. split; [exact Hd|]. split; [congruence|].
    intros inst. rewrite Hrate. unfold Op.Transaction, op1. simpl.
    rewrite find_update_first by reflexivity.
    destruct (String.eqb_spec i inst) as [E|E].
    + subst inst. assert (Hf : note_for i n = true) by now apply note_for_table.
      rewrite Hf.
      destruct (last_rate i notes); [|reflexivity].
      destruct (Op.find_trans i (Transactions op)); reflexivity.
    + assert (Hf : note_for inst n = false).
      { destruct (note_for inst n) eqn:Hf; [|reflexivity].
        apply note_for_table in Hf. congruence. }
      rewrite Hf. destruct (last_rate inst notes); reflexivity.
Qed.

Lemma add_notes_fail (notes : list note_row) (op : Operation) :
  ~ Forall (note_ok (Op.Instruments op)) notes ->
  add_notes op notes = Raise (ValueError "Unrecognized fixed rate operation maturity").
Proof.
  revert op. induction notes as [|n notes IH]; intros op Hno.
  - exfalso. apply Hno. constructor.
  - simpl.
    destruct (add_note op n) as [op1|e] eqn:Hadd.
    + simpl.
      assert (Hn : note_ok (Op.Instruments op) n).
      { destruct (fixed_rate_instrument (Maturity n)) as [i|] eqn:Hi;
          unfold add_note in Hadd; rewrite Hi in Hadd; simpl in Hadd; [|discriminate].
        destruct (Op.Transaction op i) eqn:Hf; [|discriminate].
        exists i. split; [now apply fixed_rate_instrument_table|].
        apply find_trans_In. unfold Op.Transaction in Hf. congruence. }
      destruct (proj1 (add_note_spec op n) Hn) as [i [Hi Hadd']].
      rewrite Hadd in Hadd'. injection Hadd' as ->.
      apply IH. intros Hall. apply Hno. constructor; [exact Hn|].
      unfold Op.Instruments in *. simpl in Hall.
      rewrite update_first_instruments in Hall by reflexivity. exact Hall.
    + simpl.
      assert (Hn : ~ note_ok (Op.Instruments op) n).
      { intros Hn. destruct (proj1 (add_note_spec op n) Hn) as [i [_ Hok]].
        congruence. }
      pose proof (proj2 (add_note_spec op n) Hn) as Hr. congruence.
Qed.

(** C5: with notes the builder succeeds when every note carries one of the
    maturities 2, 5, 10, 20 and the day's rows hold the instrument of that
    maturity; the transaction found for the instrument then has the rate
    of the (last) note for it and nothing else changes in what is found;
    otherwise the builder raises. *)
Theorem fixed_rate_annotations (curdate : date) (df_data : list data_row)
        (notes : list note_row) (base : Operation) :
  add_operation curdate df_data None = Ok base ->
  (Forall (note_ok (map d_instrument df_data)) notes ->
   exists op,
     add_operation curdate df_data (Some notes) = Ok op
     /\ Date op = curdate
     /\ Op.Instruments op = map d_instrument df_data
     /\ forall inst,
          Op.Transaction op inst
          = match last_rate inst notes with
            | Some r => option_map (set_Rate (Some r)) (Op.Transaction base inst)
            | None => Op.Transaction base inst
            end)
  /\ (~ Forall (note_ok (map d_instrument df_data)) notes ->
      add_operation curdate df_data (Some notes)
      = Raise (ValueError "Unrecognized fixed rate operation maturity")).
Proof.
  unfold add_operation. intros [= <-].
  set (new_op := fold_left add_row df_data (Operation_init curdate)).
  assert (Hinst : Op.Instruments new_op = map d_instrument df_data).
  { unfold new_op. now rewrite add_row_instruments. }
  assert (Hdate : Date new_op = curdate).
  { unfold new_op. now rewrite add_row_date. }
  rewrite <- Hinst. split.
  - intros Hall. destruct (add_notes_ok notes new_op Hall) as [op [H1 [H2 [H3 H4]]]].
    exists op. split; [exact H1|]. split; [congruence|]. split; [exact H3 | exact H4].
  - apply add_notes_fail.
Qed.

Lemma fixed_rate_annotations_witness :
  let d := mkdate 2023 2 1 in
  let rows := [ mkrow "JGBs: 5-10y" 300 100 (1 # 2) d;
                mkrow "JGBs: FR 5-10y" 0 40 0 d ] in
  (exists op,
      add_operation d rows (Some [mknote 10 (1 # 2) d]) = Ok op
      /\ Op.TransactionRate op "JGBs: FR 5-10y" = Some (1 # 2)%Q)
  /\ add_operation d rows (Some [mknote 7 (1 # 2) d])
     = Raise (ValueError "Unrecognized fixed rate operation maturity")
  /\ add_operation d rows (Some [mknote 20 (1 # 2) d])
     = Raise (ValueError "Unrecognized fixed rate operation maturity").
Proof.
  intros d rows.
  split; [|split].
  - destruct (fixed_rate_annotations d rows [mknote 10 (1 # 2)%Q d] _ eq_refl)
      as [Hok _].
    destruct Hok as [op [Hop _]].
    + constructor; [|constructor].
      exists "JGBs: FR 5-10y". split; simpl; tauto.
    + exists op. split; [exact Hop|].
      vm_compute in Hop. injection Hop as <-. reflexivity.
  - apply (fixed_rate_annotations d rows [mknote 7 (1 # 2)%Q d] _ eq_refl).
    intros Hall. inversion Hall as [|? ? [inst [Hb _]] _]; subst.
    simpl in Hb. destruct Hb as [H|[H|[H|[H|[]]]]]; discriminate.
  - apply (fixed_rate_annotations d rows [mknote 20 (1 # 2)%Q d] _ eq_refl).
    intros Hall. inversion Hall as [|? ? [inst [Hb Hin]] _]; subst.
    simpl in Hb, Hin.
    destruct Hb as [H|[H|[H|[H|[]]]]]; try discriminate.
    injection H as <-. destruct Hin as [H|[H|[]]]; discriminate.
Defined.

(** ** The persistence bridge *)

Lemma date_eqb_eq (a b : date) : date_eqb a b = true <-> a = b.
Proof.
  destruct a as [ya ma da], b as [yb mb db]. unfold date_eqb. simpl.
  rewrite !andb_true_iff, !Z.eqb_eq. split.
  - intros [[-> ->] ->]. reflexivity.
  - intros [= -> -> ->]. auto.
Qed.

Lemma dated_set_new (k : date) (v : list trans_dic) (d : dated_ops) :
  ~ In k (map fst d) -> dated_set k v d = (d ++ [(k, v)])%list.
Proof.
  induction d as [|[k' v'] d IH]; simpl; intros H; [reflexivity|].
  destruct (date_eqb k' k) eqn:E.
  - apply date_eqb_eq in E. exfalso. apply H. now left.
  - rewrite IH; [reflexivity|]. intros Hin. apply H. now right.
Qed.

(** With one operation per date the file holds one entry per operation,
    in the order of the operations. *)
Lemma save_dated_distinct (operations : list Operation) :
  NoDup (map Date operations) ->
  save_dated operations = map dated_entry operations.
Proof.
  unfold save_dated.
  assert (G : forall (acc : dated_ops),
             NoDup (map fst acc ++ map Date operations)%list ->
             fold_left (fun js op =>
                          dated_set (Date op) (map trans_to_dic (Transactions op)) js)
                       operations acc
             = (acc ++ map dated_entry operations)%list).
  { induction operations as [|op ops IH]; intros acc Hnd; simpl.
    - now rewrite app_nil_r.
    - rewrite dated_set_new.
      + rewrite IH.
        * now rewrite <- app_assoc.
        * rewrite map_app. simpl. rewrite <- app_assoc. exact Hnd.
      + apply NoDup_remove_2 in Hnd. intros Hin. apply Hnd.
        apply in_or_app. now left. }
  intros Hnd. apply (G []). exact Hnd.
Qed.

Lemma load_trans_set (acc : Operation) (t : Transaction) :
  Rate t <> None -> SuccessfulBids t <> None ->
  load_trans acc (trans_to_dic t)
  = Ok (mkOperation (Date acc) (Transactions acc ++ [without_spread t])).
Proof.
  intros Hr Hs. unfold load_trans, Op.AddTransaction, trans_to_dic. simpl.
  destruct (SuccessfulBids t) as [sb|] eqn:Es; [|contradiction].
  destruct (Rate t) as [r|] eqn:Er; [|contradiction].
  simpl. rewrite !update_last_snoc by reflexivity.
  unfold without_spread, Transaction_init, set_Rate, set_SuccessfulBids,
    set_CompetitiveBids. simpl. now rewrite Es, Er.
Qed.

Lemma load_transs_set (ts : list Transaction) (acc : Operation) :
  (forall t, In t ts -> Rate t <> None /\ SuccessfulBids t <> None) ->
  load_transs acc (map trans_to_dic ts)
  = Ok (mkOperation (Date acc) (Transactions acc ++ map without_spread ts)).
Proof.
  revert acc. induction ts as [|t ts IH]; intros acc H; simpl.
  - rewrite app_nil_r. now destruct acc.
  - destruct (H t (or_introl eq_refl)) as [Hr Hs].
    rewrite (load_trans_set acc t Hr Hs). simpl.
    rewrite IH by (intros x Hx; apply H; now right).
    simpl. now rewrite <- app_assoc.
Qed.

Lemma dated_roundtrip (operations : list Operation) :
  NoDup (map Date operations) ->
  (forall op t, In op operations -> In t (Transactions op) ->
                Rate t <> None /\ SuccessfulBids t <> None) ->
  load_dated (save_dated operations) = Ok (map op_without_spread operations).
Proof.
  intros Hnd Hset.
  rewrite (save_dated_distinct operations Hnd). unfold load_dated.
  clear Hnd. induction operations as [|op ops IH]; [reflexivity|].
  simpl. unfold load_dated_op at 1. simpl.
  rewrite load_transs_set by (intros t Ht; apply (Hset op); [now left | exact Ht]).
  simpl. rewrite IH by (intros op' t Hop; apply Hset; now right).
  reflexivity.
Qed.

(** *** The text of a date *)

Lemma checked_range (check : Z -> bool) (lo hi : Z) :
  forallb check (map Z.of_nat (seq (Z.to_nat lo) (Z.to_nat (hi - lo + 1)))) = true ->
  forall y, 0 <= lo -> lo <= y <= hi -> check y = true.
Proof.
  intros H y Hlo Hy. rewrite forallb_forall in H. apply H.
  apply in_map_iff. exists (Z.to_nat y). split; [lia | apply in_seq; lia].
Qed.

Lemma digit_char_val (k : Z) :
  0 <= k <= 9 -> is_digit (digit_char k) = true /\ digit_val (digit_char k) = k.
Proof.
  intros H.
  assert (E : k = 0 \/ k = 1 \/ k = 2 \/ k = 3 \/ k = 4 \/ k = 5 \/ k = 6 \/ k = 7
              \/ k = 8 \/ k = 9) by lia.
  repeat (destruct E as [->|E]; [split; reflexivity|]). subst. split; reflexivity.
Qed.

Lemma one_char_digit (k : Z) (s : string) :
  0 <= k <= 9 -> one_char is_digit (String (digit_char k) s) = Some (k, s).
Proof.
  intros H. destruct (digit_char_val k H) as [H1 H2]. cbn [one_char].
  now rewrite H1, H2.
Qed.

(** The text of a year from 1 to 9999: digits, at most four of them, that
    read back as the year. *)
Lemma year_text (y : Z) :
  1 <= y <= 9999 ->
  all_digits (str_of_int y) = true
  /\ int_of_digits (str_of_int y) = y
  /\ (1 <= String.length (str_of_int y) <= 4)%nat.
Proof.
  intros H.
  pose (check := fun y => all_digits (str_of_int y)
                          && (int_of_digits (str_of_int y) =? y)
                          && Nat.leb 1 (String.length (str_of_int y))
                          && Nat.leb (String.length (str_of_int y)) 4).
  assert (C : check y = true).
  { apply (checked_range check 1 9999); [vm_compute; reflexivity | lia | lia]. }
  unfold check in C. rewrite !andb_true_iff in C.
  destruct C as [[[C1 C2] C3] C4].
  apply Z.eqb_eq in C2. apply Nat.leb_le in C3, C4. auto.
Qed.

Lemma four_digit_text (y : Z) :
  1000 <= y <= 9999 ->
  str_of_int y
  = String (digit_char (y / 1000))
      (String (digit_char (y / 100 mod 10))
         (String (digit_char (y / 10 mod 10)) (String (digit_char (y mod 10)) ""))).
Proof.
  intros H.
  pose (check := fun y =>
                   String.eqb (str_of_int y)
                     (String (digit_char (y / 1000))
                        (String (digit_char (y / 100 mod 10))
                           (String (digit_char (y / 10 mod 10))
                              (String (digit_char (y mod 10)) ""))))).
  assert (C : check y = true).
  { apply (checked_range check 1000 9999); [vm_compute; reflexivity | lia | lia]. }
  now apply String.eqb_eq in C.
Qed.

Lemma short_year_text (y : Z) :
  1 <= y <= 999 -> (String.length (str_of_int y) <= 3)%nat.
Proof.
  intros H.
  pose (check := fun y => Nat.leb (String.length (str_of_int y)) 3).
  assert (C : check y = true).
  { apply (checked_range check 1 999); [vm_compute; reflexivity | lia | lia]. }
  now apply Nat.leb_le in C.
Qed.

Lemma parse_month_day_text (m d : Z) :
  1 <= m <= 12 -> 1 <= d <= 31 ->
  parse_month_day (two_digits m ++ String "-" (two_digits d)) = Some (m, d, "").
Proof.
  intros Hm Hd.
  pose (check := fun n =>
                   match parse_month_day
                           (two_digits (n / 100) ++ String "-" (two_digits (n mod 100))) with
                   | Some (m', d', "") => (m' =? n / 100) && (d' =? n mod 100)
                   | _ => false
                   end
                   || negb ((1 <=? n / 100) && (n / 100 <=? 12)
                            && (1 <=? n mod 100) && (n mod 100 <=? 31))).
  assert (C : check (100 * m + d) = true).
  { apply (checked_range check 100 1299); [vm_compute; reflexivity | lia | lia]. }
  unfold check in C.
  assert (E1 : (100 * m + d) / 100 = m) by (Z.to_euclidean_division_equations; lia).
  assert (E2 : (100 * m + d) mod 100 = d) by (Z.to_euclidean_division_equations; lia).
  rewrite E1, E2 in C.
  apply orb_true_iff in C. destruct C as [C|C].
  - destruct (parse_month_day (two_digits m ++ String "-" (two_digits d)))
      as [[[m' d'] [|c rest]]|]; try discriminate.
    apply andb_true_iff in C. destruct C as [C1 C2].
    apply Z.eqb_eq in C1, C2. now subst.
  - exfalso. apply negb_true_iff in C. rewrite !andb_false_iff in C.
    rewrite !Z.leb_gt in C. lia.
Qed.

Lemma valid_date_bounds (d : date) :
  valid_date d ->
  1 <= year d <= 9999 /\ 1 <= month d <= 12 /\ 1 <= day d <= 31.
Proof.
  unfold valid_date, valid_dateb. rewrite !andb_true_iff, !Z.leb_le.
  intros [[[[[H1 H2] H3] H4] H5] H6].
  assert (days_in_month (year d) (month d) <= 31).
  { unfold days_in_month.
    destruct (month d =? 2); [destruct (is_leap (year d)); lia|].
    destruct ((month d =? 4) || (month d =? 6) || (month d =? 9) || (month d =? 11));
      lia. }
  lia.
Qed.

(** [strptime] reads back the text that [strftime] writes for a date from
    the year 1000 on. *)
Lemma strptime_strftime (d : date) :
  valid_date d -> four_digit_year d -> strptime (strftime d) = Ok d.
Proof.
  intros Hv Hy. destruct (valid_date_bounds d Hv) as [Hyr [Hm Hd]].
  unfold four_digit_year in Hy. unfold strftime.
  rewrite (four_digit_text (year d)) by lia. cbn [append].
  unfold strptime, parse_year.
  rewrite !one_char_digit by (Z.to_euclidean_division_equations; lia).
  cbn [take_char]. rewrite Ascii.eqb_refl.
  rewrite (parse_month_day_text (month d) (day d) Hm Hd).
  replace (1000 * (year d / 1000) + 100 * (year d / 100 mod 10)
           + 10 * (year d / 10 mod 10) + year d mod 10) with (year d)
    by (Z.to_euclidean_division_equations; lia).
  destruct (Z.eqb_spec (year d) 0) as [E|_]; [lia|].
  destruct d as [y m dd]. cbn [year month day] in *.
  unfold valid_date in Hv. now rewrite Hv.
Qed.

Lemma parse_year_short (s r : string) :
  all_digits s = true -> (String.length s <= 3)%nat ->
  parse_year (s ++ String "-" r) = None.
Proof.
  intros Hd Hl. unfold parse_year.
  destruct s as [|a [|b [|c [|x s]]]]; cbn [append one_char];
    cbn [all_digits] in Hd; rewrite ?andb_true_iff in Hd.
  - reflexivity.
  - destruct Hd as [Ha _]. rewrite Ha. reflexivity.
  - destruct Hd as [Ha [Hb _]]. rewrite Ha. cbn [one_char]. rewrite Hb. reflexivity.
  - destruct Hd as [Ha [Hb [Hc _]]]. rewrite Ha. cbn [one_char]. rewrite Hb.
    cbn [one_char]. rewrite Hc. reflexivity.
  - simpl in Hl. lia.
Qed.

(** [strptime] refuses the text that [strftime] writes for a date before
    the year 1000. *)
Lemma strptime_short_year (d : date) :
  valid_date d -> ~ four_digit_year d ->
  strptime (strftime d) = Raise (ValueError "time data does not match format").
Proof.
  intros Hv Hy. destruct (valid_date_bounds d Hv) as [Hyr _].
  unfold four_digit_year in Hy.
  destruct (year_text (year d) Hyr) as [Hd _].
  unfold strftime, strptime. cbn [append].
  rewrite parse_year_short; [reflexivity | exact Hd | apply short_year_text; lia].
Qed.

Lemma digits_before_hyphen (s1 s2 t1 t2 : string) :
  all_digits s1 = true -> all_digits s2 = true ->
  s1 ++ String "-" t1 = s2 ++ String "-" t2 -> s1 = s2 /\ t1 = t2.
Proof.
  revert s2. induction s1 as [|a s1 IH]; intros [|b s2] H1 H2 E; cbn [append] in E.
  - now injection E.
  - injection E as <- _. simpl in H2. discriminate.
  - injection E as -> _. simpl in H1. discriminate.
  - injection E as <- E. simpl in H1, H2.
    apply andb_true_iff in H1, H2.
    destruct (IH s2 (proj2 H1) (proj2 H2) E) as [-> ->]. now split.
Qed.

Lemma digit_char_inj (a b : Z) :
  0 <= a <= 9 -> 0 <= b <= 9 -> digit_char a = digit_char b -> a = b.
Proof.
  intros Ha Hb E.
  rewrite <- (proj2 (digit_char_val a Ha)), <- (proj2 (digit_char_val b Hb)).
  now rewrite E.
Qed.

Lemma two_digits_inj (a b : Z) :
  0 <= a <= 99 -> 0 <= b <= 99 -> two_digits a = two_digits b -> a = b.
Proof.
  intros Ha Hb E. unfold two_digits in E. injection E as E1 E2.
  apply digit_char_inj in E1; [|Z.to_euclidean_division_equations; lia ..].
  apply digit_char_inj in E2; [|Z.to_euclidean_division_equations; lia ..].
  Z.to_euclidean_division_equations; lia.
Qed.

(** Two dates with one text are one date. *)
Lemma strftime_inj (a b : date) :
  valid_date a -> valid_date b -> strftime a = strftime b -> a = b.
Proof.
  intros Ha Hb E.
  destruct (valid_date_bounds a Ha) as [Hya [Hma Hda]].
  destruct (valid_date_bounds b Hb) as [Hyb [Hmb Hdb]].
  destruct (year_text (year a) Hya) as [Da [Ia _]].
  destruct (year_text (year b) Hyb) as [Db [Ib _]].
  unfold strftime in E. cbn [append] in E.
  destruct (digits_before_hyphen _ _ _ _ Da Db E) as [Ey Et].
  assert (Hy : year a = year b) by (rewrite <- Ia, <- Ib; now rewrite Ey).
  unfold two_digits in Et. cbn [append] in Et.
  injection Et as M1 M2 D1 D2.
  assert (Hm : month a = month b).
  { apply two_digits_inj; [lia | lia |]. unfold two_digits. now rewrite M1, M2. }
  assert (Hd : day a = day b).
  { apply two_digits_inj; [lia | lia |]. unfold two_digits. now rewrite D1, D2. }
  destruct a, b. cbn [year month day] in *. now subst.
Qed.

Lemma strftime_eqb (a b : date) :
  valid_date a -> valid_date b ->
  String.eqb (strftime a) (strftime b) = date_eqb a b.
Proof.
  intros Ha Hb. destruct (date_eqb a b) eqn:E.
  - apply date_eqb_eq in E. subst. apply String.eqb_refl.
  - apply String.eqb_neq. intros H. apply (strftime_inj a b Ha Hb) in H.
    subst. assert (date_eqb b b = true) by now apply date_eqb_eq. congruence.
Qed.

(** *** From the texts to the dates *)

Lemma dated_set_valid (d : date) (v : list trans_dic) (js : dated_ops) :
  valid_date d -> Forall valid_date (map fst js) ->
  Forall valid_date (map fst (dated_set d v js)).
Proof.
  intros Hd. induction js as [|[k l] js IH]; intros Hjs; simpl.
  - now constructor.
  - inversion Hjs as [|? ? Hk Hrest]; subst.
    destruct (date_eqb k d); simpl; constructor; auto.
Qed.

Lemma dict_set_key_entry (d : date) (v : list trans_dic) (js : dated_ops) :
  valid_date d -> Forall valid_date (map fst js) ->
  dict_set (strftime d) v (map key_entry js) = map key_entry (dated_set d v js).
Proof.
  intros Hd. induction js as [|[k l] js IH]; intros Hjs; [reflexivity|].
  inversion Hjs as [|? ? Hk Hrest]; subst. cbn [map key_entry dict_set dated_set fst snd].
  rewrite (strftime_eqb k d Hk Hd). destruct (date_eqb k d); [reflexivity|].
  cbn [map key_entry fst snd]. now rewrite IH.
Qed.

Lemma dict_get_key_entry (d : date) (js : dated_ops) :
  valid_date d -> Forall valid_date (map fst js) ->
  dict_get (strftime d) (map key_entry js) = dated_get d js.
Proof.
  intros Hd. induction js as [|[k l] js IH]; intros Hjs; [reflexivity|].
  inversion Hjs as [|? ? Hk Hrest]; subst. cbn [map key_entry dict_get dated_get fst snd].
  rewrite (strftime_eqb k d Hk Hd). destruct (date_eqb k d); [reflexivity|].
  now apply IH.
Qed.

(** What is saved, for operations dated as [datetime.date] dates them, is
    the dictionary of the dates with each date written as its text. *)
Lemma save_to_json_dated (operations : list Operation) :
  Forall valid_date (map Date operations) ->
  save_to_json operations = map key_entry (save_dated operations)
  /\ Forall valid_date (map fst (save_dated operations)).
Proof.
  unfold save_to_json, save_dated.
  assert (G : forall (acc : dated_ops),
             Forall valid_date (map Date operations) ->
             Forall valid_date (map fst acc) ->
             fold_left (fun js op => dict_set (strftime (Date op))
                                       (map trans_to_dic (Transactions op)) js)
                       operations (map key_entry acc)
             = map key_entry
                   (fold_left (fun js op => dated_set (Date op)
                                              (map trans_to_dic (Transactions op)) js)
                              operations acc)
             /\ Forall valid_date
                  (map fst (fold_left (fun js op => dated_set (Date op)
                                         (map trans_to_dic (Transactions op)) js)
                                      operations acc))).
  { induction operations as [|op ops IH]; intros acc Hops Hacc; [now split|].
    inversion Hops as [|? ? Hop Hrest]; subst. cbn [fold_left].
    rewrite dict_set_key_entry by assumption.
    apply IH; [exact Hrest | now apply dated_set_valid]. }
  intros H. apply (G [] H). constructor.
Qed.

(** What is loaded from the texts of dates from the year 1000 on is what
    is loaded from the dates. *)
Lemma load_from_json_dated (js : dated_ops) :
  Forall valid_date (map fst js) -> Forall four_digit_year (map fst js) ->
  load_from_json (map key_entry js) = load_dated js.
Proof.
  unfold load_from_json, load_dated.
  induction js as [|[k l] js IH]; intros Hv Hy; [reflexivity|].
  inversion Hv as [|? ? Hk Hv']; inversion Hy as [|? ? Hky Hy']; subst.
  cbn [map mapM]. unfold load_op at 1, load_dated_op at 1.
  cbn [key_entry fst snd]. rewrite (strptime_strftime k Hk Hky). cbn [bind].
  now rewrite IH.
Qed.

(** C1, as the code has it: when the operations have pairwise different
    dates from the year 1000 on and every transaction has its rate and its
    successful bids set (competitive bids may be absent), loading what was
    saved yields the same operations in the same order, each with its date
    and, transaction by transaction, the same instrument, competitive
    bids, successful bids, rate, currency and units. *)
Theorem save_load_roundtrip (operations : list Operation) :
  NoDup (map Date operations) ->
  (forall op, In op operations -> valid_date (Date op) /\ four_digit_year (Date op)) ->
  (forall op t, In op operations -> In t (Transactions op) ->
                Rate t <> None /\ SuccessfulBids t <> None) ->
  load_from_json (save_to_json operations) = Ok (map op_without_spread operations)
  /\ Forall (fun op =>
               Forall (fun t =>
                         Instrument (without_spread t) = Instrument t
                         /\ CompetitiveBids (without_spread t) = CompetitiveBids t
                         /\ SuccessfulBids (without_spread t) = SuccessfulBids t
                         /\ Rate (without_spread t) = Rate t
                         /\ Currency (without_spread t) = Currency t
                         /\ Units (without_spread t) = Units t)
                      (Transactions op)
               /\ Date (op_without_spread op) = Date op)
            operations.
Proof.
  intros Hnd Hdates Hset. split.
  - assert (Hv : Forall valid_date (map Date operations)).
    { apply Forall_forall. intros d Hd. apply in_map_iff in Hd as [op [<- Hop]].
      now apply Hdates. }
    assert (Hy : Forall four_digit_year (map Date operations)).
    { apply Forall_forall. intros d Hd. apply in_map_iff in Hd as [op [<- Hop]].
      now apply Hdates. }
    destruct (save_to_json_dated operations Hv) as [-> _].
    assert (Hkeys : map fst (save_dated operations) = map Date operations).
    { rewrite (save_dated_distinct operations Hnd), map_map. reflexivity. }
    rewrite load_from_json_dated by (rewrite Hkeys; assumption).
    now apply dated_roundtrip.
  - apply Forall_forall. intros op _. split; [|reflexivity].
    apply Forall_forall. intros t _. repeat split.
Qed.

Lemma save_load_roundtrip_witness :
  let t1 := mkTransaction (Some (1 # 4)%Q) (Some 100) None None "JGBs: FR 5-10y" "JPY" 100 in
  let t2 := mkTransaction (Some 0%Q) (Some 7) (Some 9) None "USD: PC" "USD" 1 in
  let ops := [ mkOperation (mkdate 2023 2 1) [t1; t2];
               mkOperation (mkdate 2023 2 2) [t2] ] in
  load_from_json (save_to_json ops) = Ok ops.
Proof.
  intros t1 t2 ops.
  refine (proj1 (save_load_roundtrip ops _ _ _)).
  - repeat constructor; simpl; intuition discriminate.
  - intros op [<-|[<-|[]]]; split; vm_compute; first [reflexivity | discriminate].
  - intros op t [<-|[<-|[]]] Ht; simpl in Ht;
      repeat (destruct Ht as [<-|Ht]; [split; discriminate|]); destruct Ht.
Defined.

(** C1, as stated, fails: a transaction whose rate was never set is saved
    as it is, and loading the saved operations raises. *)
Lemma roundtrip_fails_without_rate :
  let t := set_SuccessfulBids (Some 100)
             (set_CompetitiveBids (Some 300) (Transaction_init "JGBs: 5-10y" "JPY" 100)) in
  let ops := [ mkOperation (mkdate 2023 2 1) [t] ] in
  ops <> []
  /\ load_from_json (save_to_json ops) = Raise TypeError
  /\ ~ exists loaded, load_from_json (save_to_json ops) = Ok loaded.
Proof.
  intros t ops. split; [discriminate|].
  assert (E : load_from_json (save_to_json ops) = Raise TypeError)
    by (vm_compute; reflexivity).
  split; [exact E|]. intros [loaded H]. rewrite E in H. discriminate.
Qed.

(** Two operations of one date are saved under one key: the later one
    takes the place of the earlier one. *)
Lemma roundtrip_merges_equal_dates :
  let t := mkTransaction (Some 0%Q) (Some 7) (Some 9) None "CP" "JPY" 100 in
  let u := mkTransaction (Some 0%Q) (Some 8) (Some 9) None "TB" "JPY" 100 in
  let d := mkdate 2023 2 1 in
  load_from_json (save_to_json [mkOperation d [t]; mkOperation d [u]])
  = Ok [mkOperation d [u]].
Proof. vm_compute. reflexivity. Qed.

(** An operation dated before the year 1000 is saved under a key of
    fewer than four digits for the year, which is not read back. *)
Lemma roundtrip_fails_before_year_1000 :
  let t := mkTransaction (Some 0%Q) (Some 7) (Some 9) None "CP" "JPY" 100 in
  load_from_json (save_to_json [mkOperation (mkdate 999 12 31) [t]])
  = Raise (ValueError "time data does not match format").
Proof. vm_compute. reflexivity. Qed.

(** ** Aggregation *)

#[export] Instance Z_OrderCmp : OrderCmp Z.compare.
Proof.
  split.
  - intros a b. apply Z.compare_eq_iff.
  - intros a b. apply Z.compare_antisym.
  - intros a b c. rewrite !Z.compare_lt_iff. lia.
Qed.

#[export] Instance string_OrderCmp : OrderCmp String.compare.
Proof.
  split.
  - intros a b. apply String_as_OT.cmp_eq.
  - intros a b. apply String_as_OT.cmp_antisym.
  - intros a b c Hab Hbc. apply String_as_OT.cmp_lt.
    apply String_as_OT.lt_trans with b; now apply String_as_OT.cmp_lt.
Qed.

Lemma cmp_refl {K : Type} {cmp : K -> K -> comparison} `{!OrderCmp cmp} (a : K) :
  cmp a a = Eq.
Proof. now apply cmp_eq_iff. Qed.

Lemma cmp_gt_lt {K : Type} {cmp : K -> K -> comparison} `{!OrderCmp cmp} (a b : K) :
  cmp a b = Gt -> cmp b a = Lt.
Proof. intros H. rewrite (cmp_antisym a b), H. reflexivity. Qed.

#[export] Instance lex_OrderCmp {A B : Type}
  (ca : A -> A -> comparison) (cb : B -> B -> comparison)
  `{!OrderCmp ca} `{!OrderCmp cb} : OrderCmp (lex_compare ca cb).
Proof.
  split.
  - intros [a1 b1] [a2 b2]. unfold lex_compare. simpl.
    destruct (ca a1 a2) eqn:Ea.
    + apply cmp_eq_iff in Ea. subst a2. rewrite cmp_eq_iff.
      split; [now intros -> | now intros [= ->]].
    + split; [discriminate|]. intros [= -> ->].
      rewrite cmp_refl in Ea. discriminate.
    + split; [discriminate|]. intros [= -> ->].
      rewrite cmp_refl in Ea. discriminate.
  - intros [a1 b1] [a2 b2]. unfold lex_compare. simpl.
    rewrite (cmp_antisym a1 a2).
    destruct (ca a1 a2); simpl; try reflexivity. apply cmp_antisym.
  - intros [a1 b1] [a2 b2] [a3 b3]. unfold lex_compare. simpl.
    destruct (ca a1 a2) eqn:E12; try discriminate.
    + apply cmp_eq_iff in E12. subst a2.
      destruct (ca a1 a3); try discriminate; [|reflexivity].
      apply cmp_lt_trans.
    + intros _. destruct (ca a2 a3) eqn:E23; try discriminate.
      * apply cmp_eq_iff in E23. subst a3. now rewrite E12.
      * intros _. now rewrite (cmp_lt_trans _ _ _ E12 E23).
Qed.

Lemma date_compare_lex (a b : date) :
  date_compare a b
  = lex_compare (lex_compare Z.compare Z.compare) Z.compare
      (year a, month a, day a) (year b, month b, day b).
Proof.
  unfold date_compare, lex_compare. simpl.
  destruct (year a ?= year b); reflexivity.
Qed.

#[export] Instance date_OrderCmp : OrderCmp date_compare.
Proof.
  split.
  - intros a b. rewrite date_compare_lex, cmp_eq_iff.
    destruct a, b. simpl. split; [now intros [= -> -> ->] | now intros [= -> -> ->]].
  - intros a b. rewrite !date_compare_lex. apply cmp_antisym.
  - intros a b c. rewrite !date_compare_lex. apply cmp_lt_trans.
Qed.

#[export] Instance data_key_OrderCmp : OrderCmp data_key_compare.
Proof. unfold data_key_compare. exact _. Qed.

#[export] Instance notes_key_OrderCmp : OrderCmp notes_key_compare.
Proof. unfold notes_key_compare. exact _. Qed.

Section GroupByFacts.
Context {K V : Type}.
Variable kcmp : K -> K -> comparison.
Context `{!OrderCmp kcmp}.
Variable vadd : V -> V -> V.

Lemma gb_insert_keys (k0 : K) (v : V) (acc : list (K * V)) (k : K) :
  In k (map fst (gb_insert kcmp vadd k0 v acc)) <-> k = k0 \/ In k (map fst acc).
Proof.
  induction acc as [|[k' v'] rest IH]; simpl.
  - intuition.
  - destruct (kcmp k0 k') eqn:E; simpl.
    + apply cmp_eq_iff in E. subst k'. intuition.
    + intuition.
    + rewrite IH. intuition.
Qed.

Lemma gb_insert_increasing (k0 : K) (v : V) (acc : list (K * V)) :
  increasing kcmp acc -> increasing kcmp (gb_insert kcmp vadd k0 v acc).
Proof.
  induction acc as [|[k' v'] rest IH]; simpl.
  - intros _. split; [intros k' []| exact I].
  - intros [Hhd Hrest]. destruct (kcmp k0 k') eqn:E; simpl.
    + split; assumption.
    + split; [|split; assumption].
      intros k [<-|Hk]; [exact E|].
      apply cmp_lt_trans with k'; [exact E | now apply Hhd].
    + split; [|now apply IH].
      intros k Hk. apply gb_insert_keys in Hk. destruct Hk as [->|Hk].
      * now apply cmp_gt_lt.
      * now apply Hhd.
Qed.

Lemma increasing_NoDup (l : list (K * V)) :
  increasing kcmp l -> NoDup (map fst l).
Proof.
  induction l as [|[k v] rest IH]; simpl.
  - constructor.
  - intros [Hhd Hrest]. constructor; [|now apply IH].
    intros Hin. specialize (Hhd k Hin). rewrite cmp_refl in Hhd. discriminate.
Qed.

Lemma groupby_sum_increasing (rows : list (K * V)) :
  increasing kcmp (groupby_sum kcmp vadd rows).
Proof.
  unfold groupby_sum.
  assert (G : forall acc, increasing kcmp acc ->
              increasing kcmp
                (fold_left (fun a kv => gb_insert kcmp vadd (fst kv) (snd kv) a) rows acc)).
  { induction rows as [|[k v] rows IH]; intros acc Hacc; simpl; [exact Hacc|].
    apply IH. now apply gb_insert_increasing. }
  apply G. exact I.
Qed.

Lemma groupby_sum_keys (rows : list (K * V)) (k : K) :
  In k (map fst (groupby_sum kcmp vadd rows)) <-> In k (map fst rows).
Proof.
  unfold groupby_sum.
  assert (G : forall acc,
              In k (map fst (fold_left
                               (fun a kv => gb_insert kcmp vadd (fst kv) (snd kv) a)
                               rows acc))
              <-> In k (map fst acc) \/ In k (map fst rows)).
  { induction rows as [|[k1 v1] rows IH]; intros acc; simpl.
    - intuition.
    - rewrite IH, gb_insert_keys. intuition. }
  rewrite G. simpl. intuition.
Qed.

Lemma groupby_sum_NoDup (rows : list (K * V)) :
  NoDup (map fst (groupby_sum kcmp vadd rows)).
Proof. apply increasing_NoDup, groupby_sum_increasing. Qed.

(** A measure that adds up over the values met. *)
Variable m : V -> Z.
Variable P : V -> Prop.
Hypothesis P_add : forall a b, P a -> P b -> P (vadd a b) /\ m (vadd a b) = m a + m b.

Lemma gb_insert_total (k0 : K) (v : V) (acc : list (K * V)) (k : K) :
  P v -> Forall (fun kv => P (snd kv)) acc ->
  Forall (fun kv => P (snd kv)) (gb_insert kcmp vadd k0 v acc)
  /\ total_for kcmp m k (gb_insert kcmp vadd k0 v acc)
     = total_for kcmp m k acc + match kcmp k k0 with Eq => m v | _ => 0 end.
Proof.
  intros Hv. induction acc as [|[k' v'] rest IH]; simpl; intros Hacc.
  - split; [now repeat constructor | lia].
  - inversion Hacc as [|? ? Hv' Hrest]; subst. simpl in Hv'.
    destruct (kcmp k0 k') eqn:E; simpl.
    + apply cmp_eq_iff in E. subst k'.
      destruct (P_add v' v Hv' Hv) as [Hp Hm].
      split; [now constructor|]. rewrite Hm. destruct (kcmp k k0); lia.
    + split; [now repeat constructor | lia].
    + destruct (IH Hrest) as [Hp Ht].
      split; [now constructor|]. rewrite Ht. lia.
Qed.

Lemma groupby_sum_total (rows : list (K * V)) (k : K) :
  Forall (fun kv => P (snd kv)) rows ->
  total_for kcmp m k (groupby_sum kcmp vadd rows) = total_for kcmp m k rows.
Proof.
  unfold groupby_sum. intros Hrows.
  assert (G : forall acc, Forall (fun kv => P (snd kv)) acc ->
              total_for kcmp m k
                (fold_left (fun a kv => gb_insert kcmp vadd (fst kv) (snd kv) a) rows acc)
              = total_for kcmp m k acc + total_for kcmp m k rows).
  { induction rows as [|[k1 v1] rows IH]; intros acc Hacc; simpl; [lia|].
    inversion Hrows as [|? ? Hv1 Hrest]; subst. simpl in Hv1.
    destruct (gb_insert_total k1 v1 acc k Hv1 Hacc) as [Hp Ht].
    rewrite (IH Hrest _ Hp), Ht. lia. }
  rewrite (G [] (Forall_nil _)). reflexivity.
Qed.

Lemma groupby_sum_Forall (rows : list (K * V)) :
  Forall (fun kv => P (snd kv)) rows ->
  Forall (fun kv => P (snd kv)) (groupby_sum kcmp vadd rows).
Proof.
  unfold groupby_sum. intros Hrows.
  assert (G : forall acc, Forall (fun kv => P (snd kv)) acc ->
              Forall (fun kv => P (snd kv))
                (fold_left (fun a kv => gb_insert kcmp vadd (fst kv) (snd kv) a) rows acc)).
  { induction rows as [|[k1 v1] rows IH]; intros acc Hacc; [exact Hacc|].
    inversion Hrows as [|? ? Hv1 Hrest]; subst. simpl. apply (IH Hrest).
    apply (gb_insert_total k1 v1 acc k1 Hv1 Hacc). }
  apply G. constructor.
Qed.

Lemma increasing_total (l : list (K * V)) (k : K) (v : V) :
  increasing kcmp l -> In (k, v) l -> total_for kcmp m k l = m v.
Proof.
  induction l as [|[k' v'] rest IH]; simpl; [tauto|].
  intros [Hhd Hrest] [Hin|Hin].
  - injection Hin as -> ->. rewrite cmp_refl.
    assert (Z0 : total_for kcmp m k rest = 0).
    { clear IH Hrest. induction rest as [|[k2 v2] rest IH2]; simpl; [reflexivity|].
      rewrite (cmp_antisym k2 k).
      assert (E : kcmp k k2 = Lt) by (apply Hhd; now left).
      rewrite IH2 by (intros x Hx; apply Hhd; now right).
      destruct (kcmp k2 k) eqn:E2.
      - apply cmp_eq_iff in E2. subst. rewrite cmp_refl in E. discriminate.
      - rewrite (cmp_antisym k2 k), E2 in E. discriminate.
      - reflexivity. }
    lia.
  - assert (E : kcmp k' k = Lt) by (apply Hhd; apply (in_map fst) in Hin; exact Hin).
    rewrite (cmp_antisym k' k), E. simpl. now apply IH.
Qed.
End GroupByFacts.

Lemma mapM_Forall2 {A B : Type} (f : A -> result B) (l : list A) (r : list B) :
  mapM f l = Ok r -> Forall2 (fun a b => f a = Ok b) l r.
Proof.
  revert r. induction l as [|a l IH]; simpl; intros r H.
  - injection H as <-. constructor.
  - destruct (f a) as [b|e] eqn:Ea; simpl in H; [|discriminate].
    destruct (mapM f l) as [bs|e] eqn:El; simpl in H; [|discriminate].
    injection H as <-. constructor; [exact Ea | now apply IH].
Qed.

Lemma mapM_total {A B : Type} (f : A -> result B) (l : list A) :
  (forall a, In a l -> exists b, f a = Ok b) -> exists r, mapM f l = Ok r.
Proof.
  induction l as [|a l IH]; simpl; intros H.
  - now exists [].
  - destruct (H a (or_introl eq_refl)) as [b Hb].
    destruct IH as [r Hr]; [intros x Hx; apply H; now right|].
    exists (b :: r). now rewrite Hb, Hr.
Qed.

(** *** The daily results table *)

Definition sums_competitive (v : sums) : Z := fst (fst v).
Definition sums_successful (v : sums) : Z := snd (fst v).

Lemma sums_add_measures (a b : sums) :
  True -> True ->
  True /\ sums_successful (sums_add a b) = sums_successful a + sums_successful b.
Proof. destruct a as [[? ?] ?], b as [[? ?] ?]. now split. Qed.

Lemma sums_add_competitive (a b : sums) :
  True -> True ->
  True /\ sums_competitive (sums_add a b) = sums_competitive a + sums_competitive b.
Proof. destruct a as [[? ?] ?], b as [[? ?] ?]. now split. Qed.

Lemma string_compare_eqb (a b : string) :
  match String.compare a b with Eq => true | _ => false end = String.eqb b a.
Proof.
  destruct (String.compare a b) eqn:E.
  - apply cmp_eq_iff in E. subst. symmetry. apply String.eqb_refl.
  - symmetry. apply String.eqb_neq. intros ->. rewrite cmp_refl in E. discriminate.
  - symmetry. apply String.eqb_neq. intros ->. rewrite cmp_refl in E. discriminate.
Qed.

Lemma clean_rows_total (m : sums -> Z) (f : raw_row -> Z)
      (df_data : list raw_row) (rows : list (string * sums)) (name : string) :
  (forall x n v, clean_row x = Ok (n, v) -> m v = f x) ->
  mapM clean_row df_data = Ok rows ->
  total_for String.compare m name rows = raw_total f name df_data.
Proof.
  intros Hm H. apply mapM_Forall2 in H. unfold raw_total.
  induction H as [|x [n v] df rows Hx _ IH]; [reflexivity|].
  simpl. rewrite IH. unfold classifies_to.
  assert (Hn : get_short_name (raw_instrument x) = Ok n).
  { unfold clean_row in Hx.
    destruct (get_short_name (raw_instrument x)); simpl in Hx; congruence. }
  rewrite Hn. pose proof (string_compare_eqb name n) as Hc.
  destruct (String.eqb n name); destruct (String.compare name n);
    try discriminate; simpl; rewrite ?(Hm x n v Hx); reflexivity.
Qed.

Lemma clean_rows_names (df_data : list raw_row) (rows : list (string * sums)) :
  mapM clean_row df_data = Ok rows ->
  forall x n, In x df_data -> get_short_name (raw_instrument x) = Ok n ->
              In n (map fst rows).
Proof.
  intros H. apply mapM_Forall2 in H.
  induction H as [|x0 [n0 v0] df rows Hx _ IH]; intros x n Hin Hn; [destruct Hin|].
  destruct Hin as [<-|Hin].
  - left. unfold clean_row in Hx. rewrite Hn in Hx. simpl in Hx.
    now injection Hx as <- _.
  - right. now apply (IH x).
Qed.

(** What [clean_up_data] returns: one row per short name, with the totals
    of both bid columns over the raw rows of that name. *)
Lemma clean_up_data_spec (df_data : list raw_row) (d : date) (out : list data_row) :
  clean_up_data df_data d = Ok out ->
  NoDup (map d_instrument out)
  /\ (forall r, In r out ->
        d_date r = d
        /\ d_competitive r
           = raw_total (fun x => zfill (raw_competitive x)) (d_instrument r) df_data
        /\ d_successful r
           = raw_total (fun x => zfill (raw_successful x)) (d_instrument r) df_data)
  /\ (forall x n, In x df_data -> get_short_name (raw_instrument x) = Ok n ->
                  In n (map d_instrument out)).
Proof.
  unfold clean_up_data. intros H.
  destruct (mapM clean_row df_data) as [rows|e] eqn:Hrows; simpl in H; [|discriminate].
  injection H as <-.
  set (groups := groupby_sum String.compare sums_add rows).
  assert (Hnames : map d_instrument (map (to_data_row d) groups) = map fst groups).
  { rewrite map_map. apply map_ext. intros [n [[c s0] y]]. reflexivity. }
  rewrite Hnames. split; [|split].
  - apply groupby_sum_NoDup. exact _.
  - intros r Hr. apply in_map_iff in Hr. destruct Hr as [[n [[c s0] y]] [<- Hg]].
    simpl. split; [reflexivity|]. split.
    + rewrite <- (clean_rows_total sums_competitive _ df_data rows n); [|
        intros x n0 v Hx; unfold clean_row in Hx;
        destruct (get_short_name (raw_instrument x)); simpl in Hx; [|discriminate];
        now injection Hx as <- <- | exact Hrows].
      rewrite <- (groupby_sum_total String.compare sums_add sums_competitive
                    (fun _ => True) sums_add_competitive rows n)
        by (apply Forall_forall; intros; exact I).
      symmetry.
      apply (increasing_total String.compare sums_competitive groups n (c, s0, y));
        [apply groupby_sum_increasing; exact _ | exact Hg].
    + rewrite <- (clean_rows_total sums_successful _ df_data rows n); [|
        intros x n0 v Hx; unfold clean_row in Hx;
        destruct (get_short_name (raw_instrument x)); simpl in Hx; [|discriminate];
        now injection Hx as <- <- | exact Hrows].
      rewrite <- (groupby_sum_total String.compare sums_add sums_successful
                    (fun _ => True) sums_add_measures rows n)
        by (apply Forall_forall; intros; exact I).
      symmetry.
      apply (increasing_total String.compare sums_successful groups n (c, s0, y));
        [apply groupby_sum_increasing; exact _ | exact Hg].
  - intros x n Hin Hn. apply groupby_sum_keys; [exact _|].
    now apply (clean_rows_names df_data rows Hrows x).
Qed.

(** [clean_up_data] returns a frame exactly when every raw row is given a
    short name. *)
Lemma clean_up_data_total (df_data : list raw_row) (d : date) :
  (forall x, In x df_data -> exists n, get_short_name (raw_instrument x) = Ok n) ->
  exists out, clean_up_data df_data d = Ok out.
Proof.
  intros H. unfold clean_up_data.
  destruct (mapM_total clean_row df_data) as [rows Hrows].
  - intros x Hx. destruct (H x Hx) as [n Hn]. unfold clean_row. rewrite Hn.
    simpl. eauto.
  - rewrite Hrows. simpl. eauto.
Qed.

(** *** The monthly release *)

Lemma cells3_add_integer (a b : result cells3) :
  integer_bids3 a -> integer_bids3 b ->
  integer_bids3 (cells3_add a b)
  /\ successful3 (cells3_add a b) = successful3 a + successful3 b.
Proof.
  intros [c1 [s1 [y1 [-> H1]]]] [c2 [s2 [y2 [-> H2]]]].
  destruct y1, y2; try contradiction; simpl;
    (split; [do 3 eexists; split; [reflexivity | exact I] | reflexivity]).
Qed.

Lemma cells3_add_integer_competitive (a b : result cells3) :
  integer_bids3 a -> integer_bids3 b ->
  integer_bids3 (cells3_add a b)
  /\ competitive3 (cells3_add a b) = competitive3 a + competitive3 b.
Proof.
  intros [c1 [s1 [y1 [-> H1]]]] [c2 [s2 [y2 [-> H2]]]].
  destruct y1, y2; try contradiction; simpl;
    (split; [do 3 eexists; split; [reflexivity | exact I] | reflexivity]).
Qed.

Lemma cells2_add_integer (a b : result cells2) :
  integer_bids2 a -> integer_bids2 b ->
  integer_bids2 (cells2_add a b)
  /\ successful2 (cells2_add a b) = successful2 a + successful2 b.
Proof.
  intros [c1 [s1 ->]] [c2 [s2 ->]]. simpl.
  split; [do 2 eexists; reflexivity | reflexivity].
Qed.

Lemma cells2_add_integer_competitive (a b : result cells2) :
  integer_bids2 a -> integer_bids2 b ->
  integer_bids2 (cells2_add a b)
  /\ competitive2 (cells2_add a b) = competitive2 a + competitive2 b.
Proof.
  intros [c1 [s1 ->]] [c2 [s2 ->]]. simpl.
  split; [do 2 eexists; reflexivity | reflexivity].
Qed.

Lemma data_groups_rows (gs : list (data_key * result cells3)) (out : list erow) :
  mapM data_group gs = Ok out ->
  Forall2 (fun g r => erow_data_key r = fst g
                      /\ snd g = Ok (e_competitive r, e_successful r, e_yield r))
          gs out.
Proof.
  intros H. apply mapM_Forall2 in H.
  induction H as [|[k v] r gs out Hg _ IH]; constructor; [|exact IH].
  unfold data_group in Hg. simpl in Hg.
  destruct v as [[[c s0] y]|e]; simpl in Hg; [|discriminate].
  injection Hg as <-. destruct k. now split.
Qed.

Lemma notes_groups_rows (gs : list (notes_key * result cells2)) (out : list erow) :
  mapM notes_group gs = Ok out ->
  Forall2 (fun g r => erow_notes_key r
                      = (fst (fst (fst g)), CStr (snd (fst (fst g))), snd (fst g))
                      /\ snd g = Ok (e_competitive r, e_successful r))
          gs out.
Proof.
  intros H. apply mapM_Forall2 in H.
  induction H as [|[k v] r gs out Hg _ IH]; constructor; [|exact IH].
  unfold notes_group in Hg. simpl in Hg.
  destruct v as [[c s0]|e]; simpl in Hg; [|discriminate].
  injection Hg as <-. now split.
Qed.

Lemma Forall2_map_eq {A B C : Type} (f : A -> C) (g : B -> C) (l : list A) (r : list B) :
  Forall2 (fun a b => g b = f a) l r -> map g r = map f l.
Proof.
  induction 1 as [|a b l r H _ IH]; [reflexivity|]. simpl. now rewrite H, IH.
Qed.

Lemma Forall2_In_r {A B : Type} (R : A -> B -> Prop) (l : list A) (r : list B) (b : B) :
  Forall2 R l r -> In b r -> exists a, In a l /\ R a b.
Proof.
  induction 1 as [|a0 b0 l r H _ IH]; intros Hin; [destruct Hin|].
  destruct Hin as [<-|Hin].
  - exists a0. split; [now left | exact H].
  - destruct (IH Hin) as [a [Ha HR]]. exists a. split; [now right | exact HR].
Qed.

(** The auction table has one row per day and instrument, with the totals
    of the bid columns when these hold integers. *)
Lemma auction_table_spec (fts : Q -> result date) (df : sheet) (st : scan_state)
      (out : list erow) :
  auction_table fts df st = Ok out ->
  exists rows,
    auction_frame fts df st = Ok rows
    /\ NoDup (map erow_data_key out)
    /\ (Forall (fun kv => integer_bids3 (snd kv)) rows ->
        forall r, In r out ->
          e_competitive r
          = CInt (total_for data_key_compare competitive3 (erow_data_key r) rows)
          /\ e_successful r
             = CInt (total_for data_key_compare successful3 (erow_data_key r) rows)).
Proof.
  unfold auction_table. intros H.
  destruct (auction_frame fts df st) as [rows|e]; simpl in H; [|discriminate].
  exists rows. split; [reflexivity|].
  set (groups := groupby_sum data_key_compare cells3_add rows) in *.
  pose proof (data_groups_rows groups out H) as F.
  split.
  - rewrite (Forall2_map_eq fst erow_data_key groups out).
    + apply groupby_sum_NoDup. exact _.
    + eapply Forall2_impl; [|exact F]. now intros g r [Hk _].
  - intros Hint r Hr.
    destruct (Forall2_In_r _ _ _ r F Hr) as [[k v] [Hg [Hk Hv]]].
    simpl in Hk, Hv. rewrite Hk.
    assert (Hinc : increasing data_key_compare groups)
      by (apply groupby_sum_increasing; exact _).
    assert (Hp : forall m,
               (forall a b, integer_bids3 a -> integer_bids3 b ->
                            integer_bids3 (cells3_add a b)
                            /\ m (cells3_add a b) = m a + m b) ->
               total_for data_key_compare m k rows = m v).
    { intros m Hm.
      rewrite <- (groupby_sum_total data_key_compare cells3_add m integer_bids3 Hm rows k Hint).
      apply (increasing_total data_key_compare m groups k v Hinc Hg). }
    assert (Hv' : integer_bids3 v).
    { pose proof (groupby_sum_Forall data_key_compare cells3_add successful3
                    integer_bids3 cells3_add_integer rows Hint) as G.
      rewrite Forall_forall in G. apply (G (k, v) Hg). }
    destruct Hv' as [c [s0 [y [-> _]]]]. injection Hv as <- <- _.
    rewrite (Hp competitive3 cells3_add_integer_competitive),
            (Hp successful3 cells3_add_integer).
    split; reflexivity.
Qed.

(** The fixed-rate table has one row per day, yield and instrument, with
    the totals of the bid columns when these hold integers. *)
Lemma fixed_rate_table_spec (fts : Q -> result date) (df : sheet) (a b : Z)
      (out : list erow) :
  fixed_rate_table fts df a b = Ok out ->
  exists rows,
    fixed_rate_frame fts df a b = Ok rows
    /\ NoDup (map erow_notes_key out)
    /\ (Forall (fun kv => integer_bids2 (snd kv)) rows ->
        forall r y, In r out -> e_yield r = CStr y ->
          e_competitive r
          = CInt (total_for notes_key_compare competitive2
                    (e_date r, y, e_instrument r) rows)
          /\ e_successful r
             = CInt (total_for notes_key_compare successful2
                       (e_date r, y, e_instrument r) rows)).
Proof.
  unfold fixed_rate_table. intros H.
  destruct (fixed_rate_frame fts df a b) as [rows|e]; simpl in H; [|discriminate].
  exists rows. split; [reflexivity|].
  set (groups := groupby_sum notes_key_compare cells2_add rows) in *.
  pose proof (notes_groups_rows groups out H) as F.
  set (h := fun k : notes_key => (fst (fst k), CStr (snd (fst k)), snd k)).
  split.
  - rewrite (Forall2_map_eq (fun g => h (fst g)) erow_notes_key groups out).
    + rewrite <- map_map. apply Finite.Injective_map_NoDup.
      * intros [[d1 y1] i1] [[d2 y2] i2]. unfold h. simpl. now intros [= -> -> ->].
      * apply groupby_sum_NoDup. exact _.
    + eapply Forall2_impl; [|exact F]. now intros g r [Hk _].
  - intros Hint r y Hr Hy.
    destruct (Forall2_In_r _ _ _ r F Hr) as [[k v] [Hg [Hk Hv]]].
    simpl in Hk, Hv. unfold erow_notes_key in Hk. rewrite Hy in Hk.
    assert (Ek : k = (e_date r, y, e_instrument r)).
    { destruct k as [[d0 y0] i0]. simpl in Hk. now injection Hk as -> -> ->. }
    rewrite <- Ek.
    assert (Hinc : increasing notes_key_compare groups)
      by (apply groupby_sum_increasing; exact _).
    assert (Hp : forall m,
               (forall x z, integer_bids2 x -> integer_bids2 z ->
                            integer_bids2 (cells2_add x z)
                            /\ m (cells2_add x z) = m x + m z) ->
               total_for notes_key_compare m k rows = m v).
    { intros m Hm.
      rewrite <- (groupby_sum_total notes_key_compare cells2_add m integer_bids2 Hm rows k Hint).
      apply (increasing_total notes_key_compare m groups k v Hinc Hg). }
    assert (Hv' : integer_bids2 v).
    { pose proof (groupby_sum_Forall notes_key_compare cells2_add successful2
                    integer_bids2 cells2_add_integer rows Hint) as G.
      rewrite Forall_forall in G. apply (G (k, v) Hg). }
    destruct Hv' as [c [s0 ->]]. injection Hv as <- <-.
    rewrite (Hp competitive2 cells2_add_integer_competitive),
            (Hp successful2 cells2_add_integer).
    split; reflexivity.
Qed.

(** The rows of the fixed-rate table are kept apart by yield: two rows of
    one day and one maturity at two yields give two rows of one day and one
    instrument. *)
Lemma fixed_rate_rows_by_yield :
  exists out r1 r2,
    get_excel_data utc_fromtimestamp sort_by_date sheet_with_notes = Ok out
    /\ out = [ mkerow (mkdate 2023 2 1) "JGBs: 5-10y" (CInt 500) (CInt 150)
                      (CFloat (11 # 10));
               r1; r2 ]
    /\ erow_data_key r1 = erow_data_key r2
    /\ e_yield r1 = CStr "0.500" /\ e_yield r2 = CStr "0.505".
Proof.
  do 3 eexists. split; [vm_compute; reflexivity|].
  split; [reflexivity|]. split; [reflexivity|]. split; reflexivity.
Qed.

(** C3 does not hold of the code.  Take two rows of one day that both
    come to "JGBs: 5-10y", with successful bids 100 and 50 and yields 0.5
    and 0.6.  In the table of the daily page [clean_up_data] gives one row
    with successful bids 150 and with yield 1.1: the yields are added up
    with the bids.  In a monthly release where the two rows are the whole
    auction table, [get_excel_data] gives one row with successful bids
    100 and yield 0.5: the scan ends a block at [index - 1], its last row,
    and [iloc] leaves the end of its range out, so the last row of the
    table is never read.  With a third row under them the release gives
    the sum 150, with the yield 1.1, and the third row is the one
    lost. *)
Theorem normalizers_add_yields_and_lose_a_row :
  let d := mkdate 2023 2 1 in
  let long1 := "Outright purchases of JGBs (residual maturity of more than 5 years) up to 10 years)" in
  let long2 := "Outright purchases of JGBs (coupon-bearing bonds with a residual maturity of more than 5 years) up to 10 years)" in
  get_short_name long1 = Ok "JGBs: 5-10y"
  /\ get_short_name long2 = Ok "JGBs: 5-10y"
  /\ clean_up_data [ mkraw long1 (Some 300) (Some 100) (Some (1 # 2)%Q);
                     mkraw long2 (Some 200) (Some 50) (Some (3 # 5)%Q) ] d
     = Ok [ mkrow "JGBs: 5-10y" 500 150 (11 # 10) d ]
  /\ scan_sheet sheet_two_rows = Ok (mkscan 0 [(1, 2)] 0)
  /\ (forall sort_values,
        get_excel_data utc_fromtimestamp sort_values sheet_two_rows
        = Ok (sort_values [ mkerow d "JGBs: 5-10y" (CInt 300) (CInt 100)
                                   (CFloat (1 # 2)) ]))
  /\ get_excel_data utc_fromtimestamp sort_by_date sheet_two_rows
     = Ok [ mkerow d "JGBs: 5-10y" (CInt 300) (CInt 100) (CFloat (1 # 2)) ]
  /\ scan_sheet (mksheet 13 auction_rows) = Ok (mkscan 0 [(1, 3)] 0)
  /\ (forall sort_values,
        get_excel_data utc_fromtimestamp sort_values (mksheet 13 auction_rows)
        = Ok (sort_values [ mkerow d "JGBs: 5-10y" (CInt 500) (CInt 150)
                                   (CFloat (11 # 10)) ])).
Proof.
  intros d long1 long2.
  split; [vm_compute; reflexivity|].
  split; [vm_compute; reflexivity|].
  split; [vm_compute; reflexivity|].
  split; [vm_compute; reflexivity|].
  split; [intros sort_values; vm_compute; reflexivity|].
  split; [vm_compute; reflexivity|].
  split; [vm_compute; reflexivity|].
  intros sort_values. vm_compute. reflexivity.
Qed.

Lemma insert_by_date_perm (r : erow) (l : list erow) :
  Permutation (insert_by_date r l) (r :: l).
Proof.
  induction l as [|x l IH]; simpl; [reflexivity|].
  destruct (date_leb (e_date r) (e_date x)); [reflexivity|].
  rewrite IH. apply perm_swap.
Qed.

Lemma sort_by_date_perm (l : list erow) : Permutation (sort_by_date l) l.
Proof.
  induction l as [|r l IH]; simpl; [reflexivity|].
  rewrite insert_by_date_perm. now constructor.
Qed.

(** When the sheet has no second table, or its second table does not
    begin nine rows under the row that [FRM] holds, only the auction table
    is read, and no error comes from the second. *)
Lemma second_table_not_read (fts : Q -> result date)
      (sort_values : list erow -> list erow) (df : sheet)
      (st : scan_state) (df_data : list erow) :
  scan_sheet df = Ok st ->
  auction_table fts df st = Ok df_data ->
  second_table_start st = None
  \/ (exists a, second_table_start st = Some a /\ a - FRM st <> 9) ->
  get_excel_data fts sort_values df = Ok (sort_values df_data).
Proof.
  intros Hscan Hdata Hsecond.
  unfold get_excel_data. rewrite Hscan. simpl. rewrite Hdata. simpl.
  assert (Hnotes : notes_table fts df st = Ok None).
  { unfold notes_table, second_table_start in *.
    destruct (starts st) as [|p [|[a b] rest]]; try reflexivity.
    destruct Hsecond as [Hs|[a' [Hs Hne]]]; [discriminate|].
    injection Hs as <-.
    destruct (Z.eqb_spec (a - FRM st) 9); [contradiction | reflexivity]. }
  rewrite Hnotes. reflexivity.
Qed.

(** The fixed-rate table eight rows under its title is left out. *)
Lemma misplaced_notes_left_out (sort_values : list erow -> list erow) :
  get_excel_data utc_fromtimestamp sort_values sheet_misplaced_notes
  = Ok (sort_values
          [ mkerow (mkdate 2023 2 1) "JGBs: 5-10y" (CInt 500) (CInt 150)
                   (CFloat (11 # 10)) ]).
Proof.
  apply (second_table_not_read utc_fromtimestamp sort_values sheet_misplaced_notes
           (mkscan 0 [(1, 3); (14, 16)] 6)).
  - vm_compute. reflexivity.
  - vm_compute. reflexivity.
  - right. exists 14. split; [reflexivity | discriminate].
Qed.

(** C9 does not hold of the code.  [FRM], the row of the title of the
    fixed-rate table, starts at 0 and stays there when the sheet has no
    such title; the test [starts[1][0] - FRM != 9] then takes a second
    block of rows that begins at row 9 for the fixed-rate table.  On a
    release without operations at a fixed rate whose auction table goes on
    in such a block, the scan finds the blocks (1, 3) and (9, 10) and no
    title, the rows of the second block are read with the columns of the
    fixed-rate table, and the empty cell of column 12 is handed to
    [re.match]: a [TypeError], whatever the sort, where the first block
    alone gives its rows. *)
Theorem untitled_block_at_row_nine_raises :
  scan_sheet sheet_untitled_block = Ok (mkscan 0 [(1, 3); (9, 10)] 0)
  /\ Forall (fun row => is_frm_title (cell_at row 0) = false)
            (sheet_rows sheet_untitled_block)
  /\ auction_table utc_fromtimestamp sheet_untitled_block
                   (mkscan 0 [(1, 3); (9, 10)] 0)
     = Ok [ mkerow (mkdate 2023 2 1) "JGBs: 5-10y" (CInt 500) (CInt 150)
                   (CFloat (11 # 10)) ]
  /\ notes_table utc_fromtimestamp sheet_untitled_block
                 (mkscan 0 [(1, 3); (9, 10)] 0)
     = Raise TypeError
  /\ (forall sort_values,
        get_excel_data utc_fromtimestamp sort_values sheet_untitled_block
        = Raise TypeError).
Proof.
  split; [vm_compute; reflexivity|].
  split; [repeat constructor|].
  split; [vm_compute; reflexivity|].
  split; [vm_compute; reflexivity|].
  intros sort_values. vm_compute. reflexivity.
Qed.

(** ** The lookup layer: the date axis *)

Lemma op_selected_traded (instruments : list string) (s e : date) (op : Operation) :
  op_selected (inst_filter instruments) s e op = true
  <-> traded_in_window instruments s e op.
Proof.
  unfold op_selected, traded_in_window.
  rewrite !andb_true_iff, existsb_exists.
  assert (F : forall inst, str_in inst (inst_filter instruments) = true
                           <-> In inst instruments
                               \/ (In "All" instruments /\ In inst jgb_instruments)).
  { intros inst. rewrite str_in_In. unfold inst_filter.
    destruct (str_in "All" instruments) eqn:Hall.
    - apply str_in_In in Hall. rewrite set_union_iff. tauto.
    - split; [tauto|]. intros [H|[H _]]; [exact H|].
      apply str_in_In in H. congruence. }
  split.
  - intros [[H1 H2] [inst [Hi Hf]]]. repeat split; try assumption.
    exists inst. split; [exact Hi | now apply F].
  - intros [H1 [H2 [inst [Hi Hf]]]]. repeat split; try assumption.
    exists inst. split; [exact Hi | now apply F].
Qed.

Lemma df_get_set_other (name other : string) (column : list cell) (df : frame) :
  other <> name -> df_get name (df_set other column df) = df_get name df.
Proof.
  intros Hne. induction df as [|[n c] df IH]; simpl.
  - apply String.eqb_neq in Hne. now rewrite Hne.
  - destruct (String.eqb_spec n other) as [->|Ho]; simpl.
    + apply String.eqb_neq in Hne. now rewrite Hne.
    + now rewrite IH.
Qed.

Lemma add_columns_get (name : string) (instruments : list string)
      (values : list (list cell)) (df : frame) :
  ~ In name instruments ->
  df_get name (add_columns instruments values df) = df_get name df.
Proof.
  revert values df. induction instruments as [|inst insts IH]; intros values df Hno.
  - reflexivity.
  - destruct values as [|v values]; [reflexivity|]. simpl.
    rewrite IH by (intros H; apply Hno; now right).
    apply df_get_set_other. intros ->. apply Hno. now left.
Qed.

Lemma value_named_ok (i : string) (ts : list Transaction) :
  (forall t, In t ts -> valued t) ->
  exists v, Op.value_named i ts = Ok v.
Proof.
  induction ts as [|t ts IH]; simpl; intros H; [eauto|].
  destruct (String.eqb (Instrument t) i).
  - destruct (bid_value_set t (H t (or_introl eq_refl))) as [v [Hv _]]. eauto.
  - apply IH. intros x Hx. apply H. now right.
Qed.

Lemma all_values_ok (rate : bool) (ops : list Operation) (instruments : list string) :
  (forall op t, In op ops -> In t (Transactions op) -> valued t) ->
  exists vs, all_values rate ops instruments = Ok vs.
Proof.
  intros Hset. apply mapM_total. intros inst _. unfold inst_values.
  destruct rate; [eauto|].
  destruct (String.eqb inst "All"); apply mapM_total; intros op Hop.
  - destruct (value_total_sum (Transactions op)
                (fun t Ht _ => Hset op t Hop Ht) 0%Q) as [r [Hr _]].
    unfold Op.TransactionValue. rewrite Hr. simpl. eauto.
  - destruct (value_named_ok inst (Transactions op) (fun t Ht => Hset op t Hop Ht))
      as [v Hv].
    unfold Op.TransactionValue. rewrite Hv. simpl. eauto.
Qed.

Lemma frame_rows_keys (keys : list date) (cols : list (list cell)) :
  map fst (frame_rows keys cols) = keys.
Proof.
  revert cols. induction keys as [|k keys IH]; intros cols; [reflexivity|].
  simpl. now rewrite IH.
Qed.

Lemma month_starts (dates : list date) :
  mapM month_start (map CDate dates) = Ok (map CDate (map first_of_month dates))
  /\ mapM cell_date (map CDate (map first_of_month dates))
     = Ok (map first_of_month dates).
Proof.
  induction dates as [|d dates [IH1 IH2]]; [now split|].
  simpl. rewrite IH1, IH2. now split.
Qed.

(** The Date column of a monthly frame: the months of the dates, each
    once, in increasing order. *)
Lemma monthly_frame_dates (rate : bool) (df_return df : frame) (dates : list date) :
  df_get "Date" df_return = Some (map CDate dates) ->
  monthly_frame rate df_return = Ok df ->
  exists months,
    df_get "Date" df = Some (map CDate months)
    /\ NoDup months
    /\ (forall a b rest front, months = (front ++ a :: b :: rest)%list ->
                               date_compare a b = Lt)
    /\ (forall m, In m months <-> In m (map first_of_month dates)).
Proof.
  intros Hget. unfold monthly_frame. rewrite Hget.
  destruct (month_starts dates) as [H1 H2]. rewrite H1. cbn [bind]. rewrite H2. cbn [bind].
  set (others := drop_column "Date"
                   (df_set "Date" (map CDate (map first_of_month dates)) df_return)).
  set (groups := groupby_sum date_compare aggs_add
                   (frame_rows (map first_of_month dates) (map snd others))).
  destruct (rate && existsb object_column (map snd others))%bool; [discriminate|].
  intros [= <-]. exists (map fst groups).
  assert (Hinc : increasing date_compare groups)
    by (apply groupby_sum_increasing; exact _).
  split; [simpl; now rewrite map_map|].
  split; [apply (increasing_NoDup date_compare); exact Hinc|].
  split.
  - clear -Hinc. generalize dependent groups. intros groups.
    induction groups as [|[k v] groups IH]; intros Hinc a b rest front Heq.
    + destruct front; discriminate.
    + destruct Hinc as [Hhd Hrest]. destruct front as [|f front]; simpl in Heq.
      * injection Heq as <- Heq. apply Hhd. rewrite Heq. now left.
      * injection Heq as _ Heq. now apply (IH Hrest a b rest front).
  - intros m. unfold groups.
    rewrite (groupby_sum_keys date_compare aggs_add), frame_rows_keys. tauto.
Qed.

Lemma filter_twice {A : Type} (f : A -> bool) (l : list A) :
  filter f (filter f l) = filter f l.
Proof.
  induction l as [|a l IH]; [reflexivity|]. simpl.
  destruct (f a) eqn:E; [|exact IH]. simpl. now rewrite E, IH.
Qed.

(** C10, as the code has it.  An operation is kept when its date lies in
    the window and it holds one of the instruments asked for; every other
    operation is dropped before any value is computed: the query gives what
    it gives on the operations kept alone, a frame or an error.  The Date
    column of the frame of a daily query holds the dates of the operations
    kept, in their order; the Date column of the frame of a monthly query
    holds the first days of the months of those dates, each once, in
    increasing order.  A daily query returns a frame whenever every
    transaction of the operations kept has a value. *)
Theorem date_axis_of_query (operations : list Operation) (instruments : list string)
        (start_date end_date : date) (rate : bool) :
  ~ In "Date" instruments ->
  let kept := filter (op_selected (inst_filter instruments) start_date end_date)
                     operations in
  (forall op, In op kept
              <-> In op operations
                  /\ traded_in_window instruments start_date end_date op)
  /\ (forall monthly,
        get_chart_data operations instruments start_date end_date rate monthly
        = get_chart_data kept instruments start_date end_date rate monthly)
  /\ (forall df,
        get_chart_data operations instruments start_date end_date rate false = Ok df ->
        df_get "Date" df = Some (map CDate (map Date kept)))
  /\ (forall df,
        get_chart_data operations instruments start_date end_date rate true = Ok df ->
        exists months,
          df_get "Date" df = Some (map CDate months)
          /\ NoDup months
          /\ (forall a b rest front, months = (front ++ a :: b :: rest)%list ->
                                     date_compare a b = Lt)
          /\ (forall m, In m months
                        <-> exists op, In op operations
                                       /\ traded_in_window instruments start_date end_date op
                                       /\ first_of_month (Date op) = m))
  /\ ((forall op t, In op kept -> In t (Transactions op) -> valued t) ->
      exists df,
        get_chart_data operations instruments start_date end_date rate false = Ok df).
Proof.
  intros Hdate kept.
  assert (Hkept : forall op, In op kept
                             <-> In op operations
                                 /\ traded_in_window instruments start_date end_date op).
  { intros op. unfold kept. rewrite filter_In, op_selected_traded. tauto. }
  assert (Hget : forall vs,
             df_get "Date"
                    (add_columns instruments vs [("Date", map CDate (map Date kept))])
             = Some (map CDate (map Date kept))).
  { intros vs. rewrite add_columns_get by exact Hdate. reflexivity. }
  split; [exact Hkept|]. split; [|split; [|split]].
  - intros monthly. unfold get_chart_data. unfold kept. now rewrite filter_twice.
  - intros df. unfold get_chart_data. fold kept.
    destruct (all_values (rate_flag instruments rate) kept instruments) as [vs|e];
      cbn [bind]; [|discriminate].
    intros [= <-]. apply Hget.
  - intros df. unfold get_chart_data. fold kept.
    destruct (all_values (rate_flag instruments rate) kept instruments) as [vs|e];
      cbn [bind]; [|discriminate].
    intros Hm.
    destruct (monthly_frame_dates _ _ _ _ (Hget vs) Hm) as [months [Hd [Hnd [Hsorted Hin]]]].
    exists months. split; [exact Hd|]. split; [exact Hnd|]. split; [exact Hsorted|].
    intros m. rewrite Hin, map_map, in_map_iff. split.
    + intros [op [Hop Hk]]. exists op. apply Hkept in Hk. tauto.
    + intros [op [Hop [Ht Hmo]]]. exists op. split; [exact Hmo|].
      apply Hkept. tauto.
  - intros Hval.
    destruct (all_values_ok (rate_flag instruments rate) kept instruments Hval)
      as [vs Hvs].
    eexists. unfold get_chart_data. fold kept. rewrite Hvs. reflexivity.
Qed.

(** A window of February over four operations, one of which holds no
    instrument asked for and one of which is dated in March. *)
Lemma date_axis_of_query_witness :
  let cp := mkTransaction (Some 0%Q) (Some 20) (Some 30) None "CP" "JPY" 100 in
  let tb := mkTransaction (Some 0%Q) (Some 5) (Some 6) None "TB" "JPY" 100 in
  let ops := [ mkOperation (mkdate 2023 2 14) [cp];
               mkOperation (mkdate 2023 2 15) [tb];
               mkOperation (mkdate 2023 2 16) [tb; cp];
               mkOperation (mkdate 2023 3 1) [cp] ] in
  exists df,
    get_chart_data ops ["CP"] (mkdate 2023 2 1) (mkdate 2023 2 28) false false = Ok df
    /\ df_get "Date" df = Some [CDate (mkdate 2023 2 14); CDate (mkdate 2023 2 16)].
Proof.
  intros cp tb ops.
  assert (Hdate : ~ In "Date" ["CP"]) by (intros [H|[]]; discriminate).
  destruct (date_axis_of_query ops ["CP"] (mkdate 2023 2 1) (mkdate 2023 2 28) false
                               Hdate) as [_ [_ [Haxis [_ Hreturns]]]].
  destruct Hreturns as [df Hdf].
  - intros op t Hop Ht. simpl in Hop.
    destruct Hop as [<-|[<-|[]]]; simpl in Ht;
      repeat (destruct Ht as [<-|Ht];
              [eexists; split; [reflexivity|];
               apply float_limit_above; vm_compute; reflexivity|]);
      destruct Ht.
  - exists df. split; [exact Hdf|]. exact (Haxis df Hdf).
Defined.

(** C10, as stated, fails for a monthly query.  The operation of the
    first of February holds no instrument asked for and the one of the
    fifteenth does; the only row is dated on the first of February, and no
    row on the fifteenth. *)
Lemma monthly_axis_is_not_the_traded_dates :
  let cp := mkTransaction (Some 0%Q) (Some 20) (Some 30) None "CP" "JPY" 100 in
  let tb := mkTransaction (Some 0%Q) (Some 5) (Some 6) None "TB" "JPY" 100 in
  let op1 := mkOperation (mkdate 2023 2 1) [tb] in
  let op2 := mkOperation (mkdate 2023 2 15) [cp] in
  ~ traded_in_window ["CP"] (mkdate 2023 2 1) (mkdate 2023 2 28) op1
  /\ traded_in_window ["CP"] (mkdate 2023 2 1) (mkdate 2023 2 28) op2
  /\ get_chart_data [op1; op2] ["CP"] (mkdate 2023 2 1) (mkdate 2023 2 28) false true
     = Ok [ ("Date", [CDate (Date op1)]); ("CP", [CFloat 2%Q]) ].
Proof.
  intros cp tb op1 op2. split; [|split].
  - intros [_ [_ [inst [Hi Hf]]]]. simpl in Hi. destruct Hi as [<-|[]].
    destruct Hf as [[H|[]]|[[H|[]] _]]; discriminate.
  - unfold traded_in_window. repeat split.
    exists "CP". split; [now left | left; now left].
  - vm_compute. reflexivity.
Qed.

(** * Further properties of the code *)

(** ** The record model: lookup, insertion and removal *)

Lemma Operation_eta (op : Operation) :
  mkOperation (Date op) (Transactions op) = op.
Proof. now destruct op. Qed.

Lemma remove_first_absent (i : string) (ts : list Transaction) :
  ~ In i (map Instrument ts) -> Op.remove_first i ts = None.
Proof.
  induction ts as [|t ts IH]; simpl; intros H; [reflexivity|].
  destruct (String.eqb_spec (Instrument t) i) as [E|E].
  - exfalso. apply H. now left.
  - rewrite IH; [reflexivity|]. intros Hin. apply H. now right.
Qed.

Lemma remove_first_present (i : string) (ts : list Transaction) :
  In i (map Instrument ts) ->
  exists before t after,
    ts = (before ++ t :: after)%list
    /\ Instrument t = i
    /\ ~ In i (map Instrument before)
    /\ Op.remove_first i ts = Some (before ++ after)%list.
Proof.
  induction ts as [|x ts IH]; simpl; intros H; [destruct H|].
  destruct (String.eqb_spec (Instrument x) i) as [E|E].
  - exists [], x, ts. simpl. auto.
  - destruct H as [H|H]; [contradiction|].
    destruct (IH H) as [before [t [after [Hts [Ht [Hb Hr]]]]]].
    exists (x :: before), t, after. simpl. rewrite Hr, Hts.
    repeat split; try assumption. intros [Hx|Hx]; [contradiction | now apply Hb].
Qed.

Lemma DeleteTransaction_cases (op : Operation) (i : string) :
  (~ In i (Op.Instruments op) -> Op.DeleteTransaction op i = (op, false))
  /\ (In i (Op.Instruments op) ->
      exists before t after,
        Transactions op = (before ++ t :: after)%list
        /\ Instrument t = i
        /\ ~ In i (map Instrument before)
        /\ Op.DeleteTransaction op i
           = (mkOperation (Date op) (before ++ after)%list, true)
        /\ Op.TransactionsCount (fst (Op.DeleteTransaction op i))
           = Op.TransactionsCount op - 1).
Proof.
  unfold Op.DeleteTransaction, Op.Instruments. split.
  - intros H. now rewrite (remove_first_absent i _ H).
  - intros H.
    destruct (remove_first_present i _ H) as [before [t [after [Hts [Ht [Hb Hr]]]]]].
    exists before, t, after. rewrite Hr. repeat split; try assumption.
    unfold Op.TransactionsCount. simpl. rewrite Hts, !length_app. simpl. lia.
Qed.

(** [DeleteTransaction] answers False and changes nothing when no
    transaction has the instrument; otherwise it answers True and takes
    out the first transaction of that instrument and no other one. *)
Theorem DeleteTransaction_spec (op : Operation) (i : string) :
  (~ In i (Op.Instruments op) -> Op.DeleteTransaction op i = (op, false))
  /\ (In i (Op.Instruments op) ->
      exists before t after,
        Transactions op = (before ++ t :: after)%list
        /\ Instrument t = i
        /\ ~ In i (map Instrument before)
        /\ Op.DeleteTransaction op i
           = (mkOperation (Date op) (before ++ after)%list, true)
        /\ Op.TransactionsCount (fst (Op.DeleteTransaction op i))
           = Op.TransactionsCount op - 1).
Proof.
  now apply DeleteTransaction_cases.
Qed.

Lemma DeleteTransaction_spec_witness :
  let cp := Transaction_init "CP" "JPY" 100 in
  let tb := Transaction_init "TB" "JPY" 100 in
  let cp2 := set_SuccessfulBids (Some 7) cp in
  let op := mkOperation (mkdate 2023 2 1) [tb; cp; cp2] in
  Op.DeleteTransaction op "USD: PC" = (op, false)
  /\ Op.TransactionsCount (fst (Op.DeleteTransaction op "CP")) = 2.
Proof.
  intros cp tb cp2 op.
  destruct (DeleteTransaction_spec op "USD: PC") as [H1 _].
  destruct (DeleteTransaction_spec op "CP") as [_ H2].
  split.
  - apply H1. simpl. intros [H|[H|[H|[]]]]; discriminate.
  - destruct H2 as [before [t [after [_ [_ [_ [_ Hc]]]]]]].
    + simpl. auto.
    + rewrite Hc. reflexivity.
Defined.

(** Removing an instrument just added to an operation that did not hold
    it gives back the operation. *)
Theorem Delete_after_Add (op : Operation) (i c : string) (u : Z) :
  ~ In i (Op.Instruments op) ->
  Op.DeleteTransaction (fst (Op.AddTransaction op i c u)) i = (op, true).
Proof.
  intros H.
  destruct (DeleteTransaction_cases (fst (Op.AddTransaction op i c u)) i) as [_ Hdel].
  destruct Hdel as [before [t [after [Hts [Ht [Hb [Hd _]]]]]]].
  - rewrite Instruments_AddTransaction. apply in_or_app. right. now left.
  - rewrite Hd. f_equal. simpl in Hts |- *.
    assert (Hafter : after = [] /\ before = Transactions op).
    { clear Hd. revert before Hts Hb. unfold Op.Instruments in H.
      induction (Transactions op) as [|x xs IH]; intros before Hts Hb.
      - destruct before as [|b before]; simpl in Hts.
        + now injection Hts as _ <-.
        + injection Hts as _ Hts. destruct before; discriminate.
      - destruct before as [|b before]; simpl in Hts.
        + injection Hts as <- _. exfalso. apply H. now left.
        + injection Hts as <- Hts.
          destruct (IH (fun Hin => H (or_intror Hin)) before Hts
                       (fun Hin => Hb (or_intror Hin))) as [-> ->].
          now split. }
    destruct Hafter as [-> ->]. rewrite app_nil_r. apply Operation_eta.
Qed.

Lemma Delete_after_Add_witness :
  let op := mkOperation (mkdate 2023 2 1) [Transaction_init "TB" "JPY" 100] in
  Op.DeleteTransaction (fst (Op.AddTransaction op "CP" "JPY" 100)) "CP" = (op, true).
Proof.
  intros op. apply Delete_after_Add. simpl. intros [H|[]]. discriminate.
Defined.

Lemma find_trans_app (j : string) (ts us : list Transaction) :
  Op.find_trans j (ts ++ us)
  = match Op.find_trans j ts with
    | Some t => Some t
    | None => Op.find_trans j us
    end.
Proof.
  induction ts as [|t ts IH]; simpl; [reflexivity|].
  destruct (String.eqb (Instrument t) j); [reflexivity | exact IH].
Qed.

(** What [Transaction], [TransactionValue] and [TransactionRate] find
    after [AddTransaction]: for an instrument already held, still the older
    transaction, so that the new one is out of their reach; for the new
    instrument, the new transaction. *)
Theorem lookup_after_AddTransaction (op : Operation) (i c : string) (u : Z)
        (j : string) :
  let op' := fst (Op.AddTransaction op i c u) in
  Op.Transaction op' j
  = match Op.Transaction op j with
    | Some t => Some t
    | None => if String.eqb i j then Some (snd (Op.AddTransaction op i c u)) else None
    end
  /\ (In j (Op.Instruments op) ->
      Op.TransactionValue op' (Some j) = Op.TransactionValue op (Some j)
      /\ Op.TransactionRate op' j = Op.TransactionRate op j).
Proof.
  simpl. unfold Op.Transaction, Op.TransactionValue, Op.TransactionRate,
    Op.Instruments. simpl. split.
  - rewrite find_trans_app. simpl. reflexivity.
  - intros Hj. induction (Transactions op) as [|t ts IH]; [destruct Hj|].
    simpl. destruct (String.eqb_spec (Instrument t) j) as [E|E]; [now split|].
    apply IH. destruct Hj as [Hj|Hj]; [contradiction | exact Hj].
Qed.

Lemma lookup_after_AddTransaction_witness :
  let cp := set_SuccessfulBids (Some 200) (Transaction_init "CP" "JPY" 100) in
  let op := mkOperation (mkdate 2023 2 1) [cp] in
  Op.TransactionValue (fst (Op.AddTransaction op "CP" "JPY" 100)) (Some "CP") = Ok 20%Q.
Proof.
  intros cp op.
  destruct (lookup_after_AddTransaction op "CP" "JPY" 100 "CP") as [_ H].
  destruct H as [Hv _]; [now left|]. rewrite Hv. reflexivity.
Defined.

(** ** The persistence bridge: keys, failure and the way back *)

Lemma date_eqb_refl (d : date) : date_eqb d d = true.
Proof. now apply date_eqb_eq. Qed.

Lemma existsb_date_In (d : date) (l : list date) :
  existsb (date_eqb d) l = true <-> In d l.
Proof.
  rewrite existsb_exists. split.
  - intros [x [Hx He]]. apply date_eqb_eq in He. now subst.
  - intros H. exists d. split; [exact H | apply date_eqb_refl].
Qed.

Lemma dated_set_keys (k : date) (v : list trans_dic) (d : dated_ops) :
  map fst (dated_set k v d)
  = if existsb (date_eqb k) (map fst d) then map fst d else (map fst d ++ [k])%list.
Proof.
  induction d as [|[k' v'] d IH]; simpl; [reflexivity|].
  destruct (date_eqb k' k) eqn:E.
  - apply date_eqb_eq in E. subst. rewrite date_eqb_refl. reflexivity.
  - assert (E' : date_eqb k k' = false).
    { destruct (date_eqb k k') eqn:E2; [|reflexivity].
      apply date_eqb_eq in E2. subst. now rewrite date_eqb_refl in E. }
    rewrite E'. simpl. rewrite IH.
    now destruct (existsb (date_eqb k) (map fst d)).
Qed.

Lemma dated_get_set (k d : date) (v : list trans_dic) (js : dated_ops) :
  dated_get d (dated_set k v js) = if date_eqb k d then Some v else dated_get d js.
Proof.
  induction js as [|[k' v'] js IH]; simpl; [reflexivity|].
  destruct (date_eqb k' k) eqn:E; simpl.
  - apply date_eqb_eq in E. subst k'. now destruct (date_eqb k d).
  - destruct (date_eqb k' d) eqn:E2.
    + apply date_eqb_eq in E2. subst k'.
      destruct (date_eqb k d) eqn:E3; [|reflexivity].
      apply date_eqb_eq in E3. subst. now rewrite date_eqb_refl in E.
    + exact IH.
Qed.

Lemma unique_dates_NoDup (dates : list date) : NoDup (unique_dates dates).
Proof.
  unfold unique_dates.
  assert (G : forall acc, NoDup acc ->
              NoDup (fold_left
                       (fun acc d => if existsb (date_eqb d) acc then acc
                                     else (acc ++ [d])%list) dates acc)).
  { induction dates as [|d dates IH]; intros acc Hacc; [exact Hacc|].
    simpl. apply IH. destruct (existsb (date_eqb d) acc) eqn:E; [exact Hacc|].
    apply NoDup_snoc. split; [exact Hacc|].
    intros Hin. apply existsb_date_In in Hin. congruence. }
  apply G. constructor.
Qed.

Lemma unique_dates_In (dates : list date) (d : date) :
  In d (unique_dates dates) <-> In d dates.
Proof.
  unfold unique_dates.
  assert (G : forall acc,
              In d (fold_left
                      (fun acc d => if existsb (date_eqb d) acc then acc
                                    else (acc ++ [d])%list) dates acc)
              <-> In d acc \/ In d dates).
  { induction dates as [|x dates IH]; intros acc; simpl; [tauto|].
    rewrite IH. destruct (existsb (date_eqb x) acc) eqn:E.
    - apply existsb_date_In in E. intuition (subst; auto).
    - rewrite in_app_iff. simpl. tauto. }
  rewrite G. simpl. tauto.
Qed.

Lemma save_dated_keys (operations : list Operation) :
  map fst (save_dated operations) = unique_dates (map Date operations).
Proof.
  unfold save_dated, unique_dates.
  assert (G : forall (js : dated_ops),
             map fst (fold_left
                        (fun js op => dated_set (Date op)
                                        (map trans_to_dic (Transactions op)) js)
                        operations js)
             = fold_left (fun acc d => if existsb (date_eqb d) acc then acc
                                       else (acc ++ [d])%list)
                         (map Date operations) (map fst js)).
  { induction operations as [|op ops IH]; intros js; [reflexivity|].
    simpl. rewrite IH, dated_set_keys. reflexivity. }
  apply (G []).
Qed.

Lemma save_dated_get (operations : list Operation) (d : date) :
  dated_get d (save_dated operations)
  = option_map (fun op => map trans_to_dic (Transactions op))
               (last_with_date d operations).
Proof.
  unfold save_dated, last_with_date.
  induction operations as [|op ops IH] using rev_ind; [reflexivity|].
  rewrite fold_left_app, rev_app_distr. simpl.
  rewrite dated_get_set.
  destruct (date_eqb (Date op) d); [reflexivity | exact IH].
Qed.

Lemma save_dated_last_wins (operations : list Operation) :
  map fst (save_dated operations) = unique_dates (map Date operations)
  /\ NoDup (map fst (save_dated operations))
  /\ (forall d, In d (map fst (save_dated operations))
                <-> exists op, In op operations /\ Date op = d)
  /\ forall d,
       dated_get d (save_dated operations)
       = option_map (fun op => map trans_to_dic (Transactions op))
                    (last_with_date d operations).
Proof.
  split; [apply save_dated_keys|].
  split; [rewrite save_dated_keys; apply unique_dates_NoDup|].
  split; [|apply save_dated_get].
  intros d. rewrite save_dated_keys, unique_dates_In, in_map_iff.
  split; intros [op H]; exists op; tauto.
Qed.

Lemma NoDup_map_on {A B : Type} (f : A -> B) (l : list A) :
  (forall x y, In x l -> In y l -> f x = f y -> x = y) ->
  NoDup l -> NoDup (map f l).
Proof.
  intros Hinj Hnd. induction Hnd as [|a l Ha Hnd IH]; simpl; constructor.
  - intros Hin. apply in_map_iff in Hin as [x [Hx Hin]].
    apply Hinj in Hx; [subst; contradiction | now right | now left].
  - apply IH. intros x y Hx Hy. apply Hinj; now right.
Qed.

(** The saved structure, for operations dated as [datetime.date] dates
    them, has one entry per date of the operations, under the text of the
    date, in the order in which the dates first appear, and the entry of a
    date is that of the last operation of that date. *)
Theorem save_to_json_last_wins (operations : list Operation) :
  Forall valid_date (map Date operations) ->
  map fst (save_to_json operations)
  = map strftime (unique_dates (map Date operations))
  /\ NoDup (map fst (save_to_json operations))
  /\ (forall key, In key (map fst (save_to_json operations))
                  <-> exists op, In op operations /\ strftime (Date op) = key)
  /\ (forall d, valid_date d ->
                (In (strftime d) (map fst (save_to_json operations))
                 <-> exists op, In op operations /\ Date op = d))
  /\ forall d, valid_date d ->
       dict_get (strftime d) (save_to_json operations)
       = option_map (fun op => map trans_to_dic (Transactions op))
                    (last_with_date d operations).
Proof.
  intros Hv.
  destruct (save_to_json_dated operations Hv) as [E Hkeys].
  destruct (save_dated_last_wins operations) as [K [Hnd [Hin Hget]]].
  assert (Ekeys : map fst (save_to_json operations)
                  = map strftime (unique_dates (map Date operations))).
  { rewrite E, map_map. cbn [key_entry fst]. rewrite <- K. rewrite map_map.
    reflexivity. }
  assert (Hvalid : forall d, In d (unique_dates (map Date operations)) -> valid_date d).
  { intros d Hd. apply (proj1 (unique_dates_In _ _)) in Hd.
    rewrite Forall_forall in Hv. now apply Hv. }
  assert (Hkey : forall key, In key (map fst (save_to_json operations))
                             <-> exists op, In op operations /\ strftime (Date op) = key).
  { intros key. rewrite Ekeys, in_map_iff. split.
    - intros [d [<- Hd]]. apply (proj1 (unique_dates_In _ _)) in Hd.
      apply in_map_iff in Hd as [op [<- Hop]]. now exists op.
    - intros [op [Hop <-]]. exists (Date op). split; [reflexivity|].
      apply unique_dates_In. now apply in_map. }
  split; [exact Ekeys|]. split; [|split; [exact Hkey|split]].
  - rewrite Ekeys. apply NoDup_map_on; [|apply unique_dates_NoDup].
    intros x y Hx Hy. apply strftime_inj; now apply Hvalid.
  - intros d Hd. rewrite Hkey. split.
    + intros [op [Hop Heq]]. exists op. split; [exact Hop|].
      apply strftime_inj; [|exact Hd|exact Heq].
      rewrite Forall_forall in Hv. apply Hv. now apply in_map.
    + intros [op [Hop <-]]. now exists op.
  - intros d Hd. rewrite E, dict_get_key_entry by assumption. apply Hget.
Qed.

Lemma save_to_json_last_wins_witness :
  let t := mkTransaction (Some 0%Q) (Some 7) (Some 9) None "CP" "JPY" 100 in
  let u := mkTransaction (Some 0%Q) (Some 8) (Some 9) None "TB" "JPY" 100 in
  let ops := [ mkOperation (mkdate 2023 2 1) [t]; mkOperation (mkdate 2023 2 2) [t];
               mkOperation (mkdate 2023 2 1) [u] ] in
  map fst (save_to_json ops) = ["2023-02-01"; "2023-02-02"]
  /\ dict_get "2023-02-01" (save_to_json ops) = Some [trans_to_dic u].
Proof.
  intros t u ops.
  assert (Hv : Forall valid_date (map Date ops)) by (repeat constructor).
  destruct (save_to_json_last_wins ops Hv) as [Hkeys [_ [_ [_ Hget]]]].
  split; [exact Hkeys|].
  exact (Hget (mkdate 2023 2 1) eq_refl).
Defined.

Lemma load_transs_result (l : list trans_dic) (acc : Operation) :
  ((forall t, In t l -> j_SuccessfulBids t <> None /\ j_Rate t <> None) ->
   load_transs acc l
   = Ok (mkOperation (Date acc) (Transactions acc ++ map dic_to_trans l)))
  /\ (~ (forall t, In t l -> j_SuccessfulBids t <> None /\ j_Rate t <> None) ->
      load_transs acc l = Raise TypeError).
Proof.
  revert acc. induction l as [|t l IH]; intros acc.
  - split.
    + intros _. simpl. rewrite app_nil_r. now destruct acc.
    + intros H. exfalso. apply H. intros t [].
  - simpl. unfold load_trans, Op.AddTransaction. simpl.
    destruct (j_SuccessfulBids t) as [sb|] eqn:Es; simpl.
    + destruct (j_Rate t) as [r|] eqn:Er; simpl.
      * rewrite !update_last_snoc by reflexivity.
        match goal with
        | |- context [load_transs ?a l] => destruct (IH a) as [IH1 IH2]
        end.
        split.
        -- intros H. rewrite IH1 by (intros x Hx; apply H; now right).
           simpl. rewrite <- app_assoc. simpl.
           unfold dic_to_trans at 2. rewrite Es, Er. reflexivity.
        -- intros H. apply IH2. intros Hall. apply H.
           intros x [<-|Hx]; [rewrite Es, Er; split; discriminate | now apply Hall].
      * split; [|reflexivity].
        intros H. destruct (H t (or_introl eq_refl)) as [_ Hr]. congruence.
    + split; [|reflexivity].
      intros H. destruct (H t (or_introl eq_refl)) as [Hs _]. congruence.
Qed.

Lemma dics_set_or_not (l : list trans_dic) :
  (forall t, In t l -> j_SuccessfulBids t <> None /\ j_Rate t <> None)
  \/ ~ (forall t, In t l -> j_SuccessfulBids t <> None /\ j_Rate t <> None).
Proof.
  induction l as [|x l IH]; [left; intros t []|].
  destruct IH as [IH|IH].
  - destruct (j_SuccessfulBids x) as [sb|] eqn:E1.
    + destruct (j_Rate x) as [r|] eqn:E2.
      * left. intros y [Hy|Hy]; [|now apply IH].
        subst y. rewrite E1, E2. split; discriminate.
      * right. intros Hn. destruct (Hn x (or_introl eq_refl)) as [_ Hr]. congruence.
    + right. intros Hn. destruct (Hn x (or_introl eq_refl)) as [Hs _]. congruence.
  - right. intros Hn. apply IH. intros y Hy. apply Hn. now right.
Qed.

Lemma no_null_or_not {K : Type} (js : list (K * list trans_dic)) :
  no_null js \/ ~ no_null js.
Proof.
  unfold no_null. induction js as [|entry js IH]; [left; intros e t []|].
  destruct (dics_set_or_not (snd entry)) as [D|D].
  - destruct IH as [IH|IH].
    + left. intros e t [He|He] Ht; [subst e; now apply D | now apply (IH e)].
    + right. intros Hn. apply IH. intros e t He. apply Hn. now right.
  - right. intros Hn. apply D. intros t Ht. apply (Hn entry); [now left | exact Ht].
Qed.

Lemma load_dated_cases (js : dated_ops) :
  (no_null js -> load_dated js = Ok (map entry_to_op js))
  /\ (~ no_null js -> load_dated js = Raise TypeError).
Proof.
  unfold load_dated. induction js as [|entry js [IH1 IH2]].
  - split; [reflexivity|]. intros H. exfalso. apply H. intros e t [].
  - cbn [mapM]. unfold load_dated_op at 1 3.
    destruct (load_transs_result (snd entry) (Operation_init (fst entry))) as [L1 L2].
    destruct (dics_set_or_not (snd entry)) as [D|D].
    + rewrite (L1 D). cbn [bind Operation_init Date Transactions app].
      split.
      * intros H. rewrite IH1 by (intros e t He; apply H; now right). reflexivity.
      * intros H. rewrite IH2; [reflexivity|].
        intros Hall. apply H. intros e t [He|He] Ht;
          [subst e; now apply D | now apply (Hall e)].
    + rewrite (L2 D). split; [|reflexivity].
      intros H. exfalso. apply D. intros t Ht. apply (H entry); [now left | exact Ht].
Qed.

(** With every key read as a date, loading goes as it goes with the dates
    for keys. *)
Lemma load_from_json_parsed (js : json_ops) (entries : list (date * list trans_dic)) :
  parsed_entries js = Ok entries ->
  load_from_json js = load_dated entries /\ map snd entries = map snd js.
Proof.
  unfold parsed_entries, load_from_json, load_dated.
  revert entries. induction js as [|[key l] js IH]; intros entries.
  - intros [= <-]. now split.
  - cbn [mapM fst snd]. unfold load_op at 1. cbn [fst snd].
    destruct (strptime key) as [d|e]; cbn [bind]; [|discriminate].
    destruct (mapM (fun entry => d0 <- strptime (fst entry) ;; Ok (d0, snd entry)) js)
      as [rest|e] eqn:E; cbn [bind]; [|discriminate].
    intros [= <-]. destruct (IH rest eq_refl) as [IH1 IH2].
    cbn [mapM map snd]. unfold load_dated_op at 1. cbn [fst snd].
    rewrite IH1, IH2. now split.
Qed.

Lemma load_from_json_unparsed (js : json_ops) (e : exn) :
  parsed_entries js = Raise e -> exists e', load_from_json js = Raise e'.
Proof.
  unfold parsed_entries, load_from_json. revert e.
  induction js as [|[key l] js IH]; intros e; [discriminate|].
  cbn [mapM fst snd]. unfold load_op at 1. cbn [fst snd].
  destruct (strptime key) as [d|e0]; cbn [bind]; [|eauto].
  destruct (load_transs (Operation_init d) l) as [op|e1]; cbn [bind]; [|eauto].
  destruct (mapM (fun entry => d0 <- strptime (fst entry) ;; Ok (d0, snd entry)) js)
    as [rest|e2]; cbn [bind]; [discriminate|].
  intros _. destruct (IH e2 eq_refl) as [e' He']. rewrite He'. cbn [bind]. eauto.
Qed.

Lemma no_null_snd {K K' : Type} (js : list (K * list trans_dic))
      (js' : list (K' * list trans_dic)) :
  map snd js = map snd js' -> no_null js -> no_null js'.
Proof.
  intros E H entry t He Ht.
  assert (Hin : In (snd entry) (map snd js)) by (rewrite E; now apply in_map).
  apply in_map_iff in Hin as [entry0 [E0 Hin]].
  apply (H entry0 t Hin). now rewrite E0.
Qed.

(** When every key of the file is the text of a date, [load_from_json]
    returns the operations of the entries, in their order, if no
    transaction read has null successful bids or a null rate, and raises
    [TypeError] otherwise; when a key is no such text it raises. *)
Theorem load_from_json_spec (js : json_ops) :
  (forall entries,
      parsed_entries js = Ok entries ->
      (no_null js -> load_from_json js = Ok (map entry_to_op entries))
      /\ (~ no_null js -> load_from_json js = Raise TypeError))
  /\ (forall e, parsed_entries js = Raise e ->
                exists e', load_from_json js = Raise e').
Proof.
  split; [|apply load_from_json_unparsed].
  intros entries Hp. destruct (load_from_json_parsed js entries Hp) as [-> Hsnd].
  destruct (load_dated_cases entries) as [H1 H2]. split.
  - intros Hn. apply H1. now apply (no_null_snd js).
  - intros Hn. apply H2. intros Hn'. apply Hn. now apply (no_null_snd entries).
Qed.

Lemma load_from_json_spec_witness :
  let ok := mktrans_dic "CP" None (Some 5) (Some 0%Q) "JPY" 100 in
  let bad := mktrans_dic "TB" (Some 1) None (Some 0%Q) "JPY" 100 in
  load_from_json [("2023-02-01", [ok])]
  = Ok [mkOperation (mkdate 2023 2 1) [dic_to_trans ok]]
  /\ load_from_json [("2023-02-01", [ok]); ("2023-2-2", [ok; bad])]
     = Raise TypeError
  /\ exists e, load_from_json [("2023-02-01", [ok]); ("2 February 2023", [ok])]
               = Raise e.
Proof.
  intros ok bad. split; [|split].
  - destruct (load_from_json_spec [("2023-02-01", [ok])]) as [H _].
    apply (H [(mkdate 2023 2 1, [ok])] eq_refl).
    intros e t [<-|[]] [<-|[]]. split; discriminate.
  - destruct (load_from_json_spec
                [("2023-02-01", [ok]); ("2023-2-2", [ok; bad])]) as [H _].
    apply (H [(mkdate 2023 2 1, [ok]); (mkdate 2023 2 2, [ok; bad])] eq_refl).
    intros Hn.
    destruct (Hn ("2023-2-2", [ok; bad]) bad) as [Hs _];
      [right; now left | right; now left | now apply Hs].
  - destruct (load_from_json_spec
                [("2023-02-01", [ok]); ("2 February 2023", [ok])]) as [_ H].
    apply (H (ValueError "time data does not match format")). reflexivity.
Defined.

Lemma save_dated_after_load (js : dated_ops) (operations : list Operation) :
  NoDup (map fst js) ->
  load_dated js = Ok operations ->
  save_dated operations = js.
Proof.
  intros Hnd Hload.
  assert (Hnn : no_null js).
  { destruct (no_null_or_not js) as [H|H]; [exact H|].
    rewrite (proj2 (load_dated_cases js) H) in Hload. discriminate. }
  rewrite (proj1 (load_dated_cases js) Hnn) in Hload. injection Hload as <-.
  rewrite save_dated_distinct.
  - rewrite map_map. rewrite <- (map_id js) at 2. apply map_ext_in.
    intros [k l] Hin. unfold dated_entry, entry_to_op. simpl. f_equal.
    rewrite map_map. rewrite <- (map_id l) at 2. apply map_ext.
    intros t. now destruct t.
  - rewrite map_map. simpl. exact Hnd.
Qed.

(** A file whose keys are texts as [save_to_json] writes them is the
    image of a dictionary keyed by dates. *)
Lemma written_keys_dated (js : json_ops) :
  (forall key, In key (map fst js) -> exists d, valid_date d /\ key = strftime d) ->
  exists djs, js = map key_entry djs /\ Forall valid_date (map fst djs).
Proof.
  induction js as [|[key l] js IH]; intros H.
  - exists []. split; [reflexivity | constructor].
  - destruct (H key (or_introl eq_refl)) as [d [Hd ->]].
    destruct IH as [djs [-> Hv]]; [intros k Hk; apply H; now right|].
    exists ((d, l) :: djs). split; [reflexivity | now constructor].
Qed.

Lemma loaded_keys_four_digits (djs : dated_ops) (operations : list Operation) :
  Forall valid_date (map fst djs) ->
  load_from_json (map key_entry djs) = Ok operations ->
  Forall four_digit_year (map fst djs).
Proof.
  unfold load_from_json. revert operations.
  induction djs as [|[d l] djs IH]; intros operations Hv Hload; [constructor|].
  inversion Hv as [|? ? Hd Hv']; subst.
  cbn [map mapM] in Hload. unfold load_op at 1 in Hload. cbn [key_entry fst snd] in Hload.
  assert (Hy : four_digit_year d).
  { destruct (Z_le_dec 1000 (year d)) as [Hy|Hy]; [exact Hy|].
    rewrite (strptime_short_year d Hd Hy) in Hload. discriminate. }
  rewrite (strptime_strftime d Hd Hy) in Hload. cbn [bind] in Hload.
  destruct (load_transs (Operation_init d) l) as [op|e]; cbn [bind] in Hload;
    [|discriminate].
  destruct (mapM load_op (map key_entry djs)) as [rest|e] eqn:E; cbn [bind] in Hload;
    [|discriminate].
  cbn [map fst]. constructor; [exact Hy|]. now apply (IH rest).
Qed.

(** From a file to operations and back: when the keys of the file are
    all different, each the text of a date as [save_to_json] writes it,
    and the file is loaded, saving what was loaded writes the file
    again. *)
Theorem save_after_load (js : json_ops) (operations : list Operation) :
  NoDup (map fst js) ->
  (forall key, In key (map fst js) -> exists d, valid_date d /\ key = strftime d) ->
  load_from_json js = Ok operations ->
  save_to_json operations = js.
Proof.
  intros Hnd Hkeys Hload.
  destruct (written_keys_dated js Hkeys) as [djs [-> Hv]].
  pose proof (loaded_keys_four_digits djs operations Hv Hload) as Hy.
  rewrite (load_from_json_dated djs Hv Hy) in Hload.
  assert (Hnd' : NoDup (map fst djs)).
  { rewrite map_map in Hnd. cbn [key_entry fst] in Hnd.
    rewrite <- map_map in Hnd. now apply NoDup_map_inv in Hnd. }
  pose proof (save_dated_after_load djs operations Hnd' Hload) as Hsave.
  assert (Hdates : Forall valid_date (map Date operations)).
  { destruct (no_null_or_not djs) as [Hn|Hn].
    - rewrite (proj1 (load_dated_cases djs) Hn) in Hload. injection Hload as <-.
      rewrite map_map. exact Hv.
    - rewrite (proj2 (load_dated_cases djs) Hn) in Hload. discriminate. }
  destruct (save_to_json_dated operations Hdates) as [-> _]. now rewrite Hsave.
Qed.

Lemma save_after_load_witness :
  let t := mktrans_dic "CP" None (Some 5) (Some 0%Q) "JPY" 100 in
  let js := [("2023-02-01", [t]); ("2023-02-02", [t; t])] in
  save_to_json [entry_to_op (mkdate 2023 2 1, [t]); entry_to_op (mkdate 2023 2 2, [t; t])]
  = js.
Proof.
  intros t js. apply save_after_load.
  - repeat constructor; simpl; intuition discriminate.
  - intros key [<-|[<-|[]]].
    + exists (mkdate 2023 2 1). split; reflexivity.
    + exists (mkdate 2023 2 2). split; reflexivity.
  - vm_compute. reflexivity.
Defined.

(** ** The record builder: what an operation is made of *)

Lemma slice3_prefix (p s : string) :
  String.length p = 3%nat -> String.eqb (slice3 s) p = prefix p s.
Proof.
  intros Hl. unfold slice3. destruct (prefix p s) eqn:E.
  - apply prefix_correct in E. rewrite Hl in E. rewrite E. apply String.eqb_refl.
  - apply String.eqb_neq. intros H.
    assert (prefix p s = true) by (apply prefix_correct; now rewrite Hl).
    congruence.
Qed.

Lemma add_rows_transactions (rows : list data_row) (op : Operation) :
  Transactions (fold_left add_row rows op)
  = (Transactions op ++ map row_transaction rows)%list.
Proof.
  revert op. induction rows as [|r rows IH]; intros op; simpl.
  - now rewrite app_nil_r.
  - rewrite IH. unfold add_row, row_transaction.
    rewrite (slice3_prefix "USD") by reflexivity.
    destruct (prefix "USD" (d_instrument r)); simpl;
      rewrite update_last_snoc by reflexivity; rewrite <- app_assoc; reflexivity.
Qed.

Lemma add_operation_no_notes (curdate : date) (df_data : list data_row) :
  add_operation curdate df_data None
  = Ok (mkOperation curdate (map row_transaction df_data)).
Proof.
  unfold add_operation. f_equal.
  rewrite <- (Operation_eta (fold_left add_row df_data (Operation_init curdate))).
  now rewrite add_row_date, add_rows_transactions.
Qed.

Lemma update_first_complete (i : string) (r : Q) (ts : list Transaction) :
  Forall complete ts -> Forall complete (update_first i (set_Rate (Some r)) ts).
Proof.
  induction 1 as [|t ts Ht Hts IH]; simpl; [constructor|].
  destruct (String.eqb (Instrument t) i); constructor; try assumption.
  destruct Ht as [_ [H2 [H3 [H4 H5]]]]. unfold complete. simpl.
  repeat split; try assumption. discriminate.
Qed.

Lemma add_notes_date (notes : list note_row) (op op' : Operation) :
  add_notes op notes = Ok op' -> Date op' = Date op.
Proof.
  revert op. induction notes as [|n notes IH]; intros op Hrun; simpl in Hrun.
  - now injection Hrun as <-.
  - destruct (add_note op n) as [op1|e] eqn:Hn; simpl in Hrun; [|discriminate].
    rewrite (IH op1 Hrun). unfold add_note in Hn.
    destruct (fixed_rate_instrument (Maturity n)) as [i|]; simpl in Hn; [|discriminate].
    destruct (Op.Transaction op i); [|discriminate].
    now injection Hn as <-.
Qed.

Lemma add_notes_complete (notes : list note_row) (op op' : Operation) :
  add_notes op notes = Ok op' ->
  Forall complete (Transactions op) -> Forall complete (Transactions op').
Proof.
  revert op. induction notes as [|n notes IH]; intros op Hrun Hc; simpl in Hrun.
  - now injection Hrun as <-.
  - destruct (add_note op n) as [op1|e] eqn:Hn; simpl in Hrun; [|discriminate].
    apply (IH op1 Hrun). unfold add_note in Hn.
    destruct (fixed_rate_instrument (Maturity n)) as [i|]; simpl in Hn; [|discriminate].
    destruct (Op.Transaction op i); [|discriminate].
    injection Hn as <-. simpl. now apply update_first_complete.
Qed.

Lemma add_operation_transactions_complete (curdate : date) (df_data : list data_row)
        (df_notes : option (list note_row)) (op : Operation) :
  add_operation curdate df_data df_notes = Ok op ->
  Date op = curdate /\ Forall complete (Transactions op).
Proof.
  intros H.
  assert (Hbase : Forall complete (map row_transaction df_data)).
  { apply Forall_forall. intros t Ht. apply in_map_iff in Ht.
    destruct Ht as [r [<- _]]. unfold complete, row_transaction. simpl.
    repeat split; try discriminate.
    destruct (prefix "USD" (d_instrument r)); [left | right]; now split. }
  destruct df_notes as [notes|].
  - unfold add_operation in H.
    pose proof (add_operation_no_notes curdate df_data) as Hrows.
    unfold add_operation in Hrows. injection Hrows as Hrows.
    rewrite Hrows in H. split.
    + now rewrite (add_notes_date notes _ op H).
    + apply (add_notes_complete notes _ op H). exact Hbase.
  - rewrite add_operation_no_notes in H. injection H as <-. now split.
Qed.

Lemma bid_value_with_bids (t : Transaction) :
  SuccessfulBids t <> None ->
  (exists v, Op.bid_value t = Ok v) \/ Op.bid_value t = Raise OverflowError.
Proof.
  intros Hs. destruct (valued_or_not t) as [Hv|Hv].
  - left. destruct (bid_value_set t Hv) as [v [E _]]. now exists v.
  - destruct (bid_value_not_valued t Hv) as [[E _]|[sb [_ [_ E]]]];
      [contradiction | now right].
Qed.

Lemma value_named_with_bids (i : string) (ts : list Transaction) :
  (forall t, In t ts -> SuccessfulBids t <> None) ->
  (exists v, Op.value_named i ts = Ok v)
  \/ Op.value_named i ts = Raise OverflowError.
Proof.
  induction ts as [|t ts IH]; intros H; simpl; [left; eauto|].
  destruct (String.eqb (Instrument t) i).
  - apply bid_value_with_bids, H. now left.
  - apply IH. intros x Hx. apply H. now right.
Qed.

Lemma value_total_with_bids (ts : list Transaction) :
  (forall t, In t ts -> SuccessfulBids t <> None) ->
  forall total,
  (exists v, Op.value_total total ts = Ok v)
  \/ Op.value_total total ts = Raise OverflowError.
Proof.
  induction ts as [|t ts IH]; intros H total; simpl; [left; eauto|].
  assert (Hts : forall x, In x ts -> SuccessfulBids x <> None)
    by (intros x Hx; apply H; now right).
  destruct (String.eqb (slice3 (Instrument t)) "JGB"); [|now apply IH].
  destruct (bid_value_with_bids t (H t (or_introl eq_refl))) as [[v E]|E];
    rewrite E; cbn [bind]; [now apply IH | now right].
Qed.

(** Whatever the rows and the notes, an operation that [add_operation]
    returns carries the given date, and each of its transactions has its
    rate and both bid volumes set, no average spread, and the units of its
    currency.  So [TransactionValue] never meets an unset volume on such an
    operation: for every instrument, and for the aggregate, it returns a
    value or raises [OverflowError], the latter only when a product of
    bids and units is beyond the floats; it returns a value whenever every
    product is within them. *)
Theorem add_operation_complete (curdate : date) (df_data : list data_row)
        (df_notes : option (list note_row)) (op : Operation) :
  add_operation curdate df_data df_notes = Ok op ->
  Date op = curdate
  /\ Forall complete (Transactions op)
  /\ (forall instrument,
        (exists v, Op.TransactionValue op instrument = Ok v)
        \/ Op.TransactionValue op instrument = Raise OverflowError)
  /\ ((forall t, In t (Transactions op) -> valued t) ->
      forall instrument, exists v, Op.TransactionValue op instrument = Ok v)
  /\ ((forall t sb, In t (Transactions op) -> SuccessfulBids t = Some sb ->
                    Z.abs sb < 2 ^ 64) ->
      forall instrument, exists v, Op.TransactionValue op instrument = Ok v).
Proof.
  intros H.
  destruct (add_operation_transactions_complete curdate df_data df_notes op H)
    as [Hd Hc].
  split; [exact Hd|]. split; [exact Hc|].
  assert (Hset : forall t, In t (Transactions op) -> SuccessfulBids t <> None).
  { rewrite Forall_forall in Hc. intros t Ht. now destruct (Hc t Ht) as [_ [Hs _]]. }
  assert (Hval : (forall t, In t (Transactions op) -> valued t) ->
                 forall instrument, exists v, Op.TransactionValue op instrument = Ok v).
  { intros Hv [i|]; unfold Op.TransactionValue.
    - apply value_named_ok. exact Hv.
    - destruct (value_total_sum (Transactions op) (fun t Ht _ => Hv t Ht) 0%Q)
        as [r [Hr _]]. eauto. }
  split; [|split; [exact Hval|]].
  - intros [i|]; unfold Op.TransactionValue.
    + now apply value_named_with_bids.
    + now apply value_total_with_bids.
  - intros Hsmall. apply Hval. intros t Ht.
    rewrite Forall_forall in Hc. destruct (Hc t Ht) as [_ [Hs [_ [_ Hu]]]].
    destruct (SuccessfulBids t) as [sb|] eqn:E; [|contradiction].
    exists sb. split; [exact E|].
    pose proof (Hsmall t sb Ht E) as Hb.
    assert (Hlim : 2 ^ 64 * 100 < float_limit * 1000) by (vm_compute; reflexivity).
    destruct Hu as [[_ ->]|[_ ->]]; lia.
Qed.

Lemma add_operation_complete_witness :
  let d := mkdate 2023 2 1 in
  let rows := [ mkrow "USD: PC" 3 2 (1 # 4) d; mkrow "JGBs: FR 5-10y" 0 40 0 d ] in
  exists op,
    add_operation d rows (Some [mknote 10 (1 # 2) d]) = Ok op
    /\ Forall complete (Transactions op)
    /\ exists v, Op.TransactionValue op None = Ok v.
Proof.
  intros d rows. eexists. split; [reflexivity|].
  destruct (add_operation_complete d rows (Some [mknote 10 (1 # 2)%Q d]) _ eq_refl)
    as [_ [Hc [_ [_ Hv]]]].
  split; [exact Hc|]. apply Hv.
  intros t sb [<-|[<-|[]]] [= <-]; reflexivity.
Defined.

Lemma complete_without_spread (op : Operation) :
  Forall complete (Transactions op) -> op_without_spread op = op.
Proof.
  intros H. destruct op as [d ts]. unfold op_without_spread. simpl in *. f_equal.
  induction H as [|t ts Ht _ IH]; [reflexivity|]. simpl. rewrite IH. f_equal.
  destruct Ht as [_ [_ [_ [Ha _]]]]. destruct t. simpl in *. now subst.
Qed.

(** From the builder to the file and back: operations that
    [add_operation] returned, of pairwise different dates that the
    calendar has and whose years have four digits, are loaded from what
    was saved exactly as they were, transaction by transaction. *)
Theorem built_operations_roundtrip (operations : list Operation) :
  NoDup (map Date operations) ->
  (forall op, In op operations -> valid_date (Date op) /\ four_digit_year (Date op)) ->
  (forall op, In op operations ->
              exists curdate df_data df_notes,
                add_operation curdate df_data df_notes = Ok op) ->
  load_from_json (save_to_json operations) = Ok operations.
Proof.
  intros Hnd Hdates Hbuilt.
  assert (Hc : forall op, In op operations -> Forall complete (Transactions op)).
  { intros op Hop. destruct (Hbuilt op Hop) as [d [rows [notes H]]].
    now destruct (add_operation_transactions_complete d rows notes op H) as [_ Hc]. }
  assert (Hv : Forall valid_date (map Date operations)).
  { apply Forall_forall. intros d Hd. apply in_map_iff in Hd as [op [<- Hop]].
    now apply Hdates. }
  assert (Hy : Forall four_digit_year (map Date operations)).
  { apply Forall_forall. intros d Hd. apply in_map_iff in Hd as [op [<- Hop]].
    now apply Hdates. }
  destruct (save_to_json_dated operations Hv) as [-> _].
  assert (Hkeys : map fst (save_dated operations) = map Date operations).
  { rewrite (save_dated_distinct operations Hnd), map_map. reflexivity. }
  rewrite load_from_json_dated by (rewrite Hkeys; assumption).
  rewrite dated_roundtrip.
  - f_equal. rewrite <- (map_id operations) at 2. apply map_ext_in.
    intros op Hop. apply complete_without_spread. now apply Hc.
  - exact Hnd.
  - intros op t Hop Ht. specialize (Hc op Hop). rewrite Forall_forall in Hc.
    destruct (Hc t Ht) as [Hr [Hs _]]. now split.
Qed.

Lemma built_operations_roundtrip_witness :
  let d1 := mkdate 2023 2 1 in
  let d2 := mkdate 2023 2 2 in
  let op1 := mkOperation d1 (map row_transaction [mkrow "USD: PC" 3 2 (1 # 4) d1]) in
  let op2 := mkOperation d2 (map row_transaction [mkrow "CP" 5 4 0 d2]) in
  load_from_json (save_to_json [op1; op2]) = Ok [op1; op2].
Proof.
  intros d1 d2 op1 op2. apply built_operations_roundtrip.
  - repeat constructor; simpl; intuition discriminate.
  - intros op [<-|[<-|[]]]; split; vm_compute; first [reflexivity | discriminate].
  - intros op [<-|[<-|[]]].
    + exists d1, [mkrow "USD: PC" 3 2 (1 # 4)%Q d1], None. reflexivity.
    + exists d2, [mkrow "CP" 5 4 0%Q d2], None. reflexivity.
Defined.

(** ** Regular expressions: the matcher takes what the pattern allows *)

Lemma str_length_app (x y : string) :
  String.length (x ++ y) = (String.length x + String.length y)%nat.
Proof. induction x as [|a x IH]; simpl; [reflexivity | now rewrite IH]. Qed.

Lemma str_app_assoc (x y z : string) : (x ++ y) ++ z = x ++ (y ++ z).
Proof. induction x as [|a x IH]; simpl; [reflexivity | now rewrite IH]. Qed.

Lemma substring_front (x y : string) :
  substring 0 (String.length x) (x ++ y) = x.
Proof.
  induction x as [|a x IH]; simpl.
  - now destruct y.
  - now rewrite IH.
Qed.

Lemma consumed_app (x s' : string) : consumed (x ++ s') s' = x.
Proof.
  unfold consumed. rewrite str_length_app.
  replace (String.length x + String.length s' - String.length s')%nat
    with (String.length x) by lia.
  apply substring_front.
Qed.

Lemma dotplus_sound {A : Type} (s : string) (k : string -> option A) (m : A) :
  dotplus s k = Some m ->
  exists x s', s = x ++ s' /\ x <> "" /\ no_newline x = true /\ k s' = Some m.
Proof.
  induction s as [|c s IH]; simpl; [discriminate|].
  destruct (is_newline c) eqn:Hc; [discriminate|].
  destruct (dotplus s k) as [m'|] eqn:Hd.
  - intros [= <-]. destruct (IH eq_refl) as [x [s' [Hs [_ [Hn Hk]]]]].
    exists (String c x), s'. simpl. rewrite Hc, Hn, Hs.
    repeat split; [discriminate | exact Hk].
  - intros Hk. exists (String c ""), s. simpl. rewrite Hc.
    repeat split; [discriminate | exact Hk].
Qed.

Section MatcherFacts.
Variable ceq : ascii -> ascii -> bool.

Variable G : nat -> string -> Prop.

Lemma gmatch_sound (r : regex) :
  forall (s : string) (cs : captures) (k : string -> captures -> option captures)
         (m : captures),
    groups_ok ceq G r -> caps_ok G cs ->
    gmatch ceq r s cs k = Some m ->
    exists x s' cs',
      s = x ++ s' /\ lang ceq r x /\ caps_ok G cs' /\ k s' cs' = Some m.
Proof.
  induction r as [|c| | | |a IHa b IHb|a IHa| |n a IHa]; intros s cs k m Hg Hcs; simpl.
  - intros Hk. exists "", s, cs. auto.
  - destruct s as [|x s]; [discriminate|].
    destruct (ceq c x) eqn:E; [|discriminate].
    intros Hk. exists (String x ""), s, cs. simpl. eauto 6.
  - destruct s as [|x s]; [discriminate|].
    destruct (is_newline x) eqn:E; [discriminate|].
    intros Hk. exists (String x ""), s, cs. simpl. eauto 6.
  - destruct s as [|x s]; [discriminate|].
    destruct (is_digit x) eqn:E; [|discriminate].
    intros Hk. exists (String x ""), s, cs. simpl. eauto 6.
  - intros Hk. exists "". destruct s as [|x [|y s]].
    + exists "", cs. auto.
    + destruct (is_newline x); [|discriminate]. exists (String x ""), cs. auto.
    + discriminate.
  - intros Hm. destruct Hg as [Hga Hgb].
    destruct (IHa s cs _ m Hga Hcs Hm) as [x1 [s1 [cs1 [Hs [Hl1 [Hc1 Hm1]]]]]].
    destruct (IHb s1 cs1 k m Hgb Hc1 Hm1) as [x2 [s2 [cs2 [Hs2 [Hl2 [Hc2 Hm2]]]]]].
    exists (x1 ++ x2), s2, cs2. rewrite str_app_assoc, <- Hs2.
    repeat split; try assumption. now exists x1, x2.
  - destruct (gmatch ceq a s cs k) as [m'|] eqn:Ha.
    + intros [= <-].
      destruct (IHa s cs k m' Hg Hcs Ha) as [x [s' [cs' [Hs [Hl [Hc Hk]]]]]].
      exists x, s', cs'. auto.
    + intros Hk. exists "", s, cs. auto.
  - intros Hd. destruct (dotplus_sound _ _ _ Hd) as [x [s' [Hs [Hne [Hnl Hk]]]]].
    exists x, s', cs. auto.
  - intros Hm. destruct Hg as [Hgn Hga].
    destruct (IHa s cs _ m Hga Hcs Hm) as [x [s' [cs' [Hs [Hl [Hc Hk]]]]]].
    exists x, s', ((n, consumed s s') :: cs').
    repeat split; try assumption.
    constructor; [|exact Hc]. simpl. rewrite Hs, consumed_app. now apply Hgn.
Qed.
End MatcherFacts.

Lemma rmatch_gmatch (r : regex) :
  forall s cs k, rmatch r s cs k = gmatch chr_eqb_ci r s cs k.
Proof.
  intros s cs k. reflexivity.
Qed.

(** A match of a pattern takes, from the front of the string, a text of
    the language of the pattern, and each of its groups holds a text that
    the group can take. *)
Lemma re_match_sound (G : nat -> string -> Prop) (r : regex) (s : string) (m : captures) :
  groups_ok chr_eqb_ci G r ->
  re_match r s = Some m ->
  caps_ok G m /\ exists x s', s = x ++ s' /\ lang chr_eqb_ci r x.
Proof.
  unfold re_match. rewrite rmatch_gmatch. intros Hg Hm.
  destruct (gmatch_sound chr_eqb_ci G r s [] _ m Hg (Forall_nil _) Hm)
    as [x [s' [cs' [Hs [Hl [Hc Hk]]]]]].
  injection Hk as <-. split; [exact Hc|]. now exists x, s'.
Qed.

Lemma re_match_cs_sound (G : nat -> string -> Prop) (r : regex) (s : string) (m : captures) :
  groups_ok Ascii.eqb G r ->
  re_match_cs r s = Some m ->
  caps_ok G m /\ exists x s', s = x ++ s' /\ lang Ascii.eqb r x.
Proof.
  unfold re_match_cs. intros Hg Hm.
  destruct (gmatch_sound Ascii.eqb G r s [] _ m Hg (Forall_nil _) Hm)
    as [x [s' [cs' [Hs [Hl [Hc Hk]]]]]].
  injection Hk as <-. split; [exact Hc|]. now exists x, s'.
Qed.

Lemma group_ok (G : nat -> string -> Prop) (m : captures) (n : nat) (g : string) :
  caps_ok G m -> group m n = Some g -> G n g.
Proof.
  induction 1 as [|[i x] m Hx _ IH]; simpl; [discriminate|].
  destruct (Nat.eqb_spec i n) as [->|_]; [|exact IH].
  now intros [= <-].
Qed.

Lemma lang_digits12 (ceq : ascii -> ascii -> bool) (x : string) :
  lang ceq digits12 x -> digits12_text x.
Proof.
  simpl. intros [x1 [x2 [-> [[->|[b [-> Hb]]] [a [-> Ha]]]]]]; exists a; split;
    try assumption.
  - now left.
  - right. now exists b.
Qed.

(** ** The classifier: the names it gives *)

Lemma first_search_In (tbl : list (regex * string)) (long_name r : string) :
  first_search tbl long_name = Some r -> In r (map snd tbl).
Proof.
  induction tbl as [|[p n] tbl IH]; [discriminate|].
  cbn [first_search]. destruct (re_found p long_name).
  - intros [= <-]. now left.
  - intros H. right. now apply IH.
Qed.

Lemma maturity_groups (tt : trans_type) :
  groups_ok chr_eqb_ci digit_groups (maturity_regex tt).
Proof.
  destruct tt; simpl; repeat split; intros x Hx;
    apply (lang_digits12 chr_eqb_ci); exact Hx.
Qed.

Lemma maturity_name_band (tt : trans_type) (m : captures) (name : string) :
  caps_ok digit_groups m -> maturity_name tt m = Ok name -> maturity_band name.
Proof.
  intros Hc Hname. unfold maturity_name in Hname.
  exists (match tt with fixed => "FR " | floating => "" end).
  split; [destruct tt; auto|].
  destruct (group m 2) as [g2|] eqn:E2.
  - pose proof (group_ok _ _ _ _ Hc E2) as H2.
    destruct (group m 1) as [g1|] eqn:E1.
    + pose proof (group_ok _ _ _ _ Hc E1) as H1.
      injection Hname as <-. right. right. exists g1, g2. destruct tt; auto.
    + injection Hname as <-. right. left. exists g2. destruct tt; auto.
  - destruct (group m 1) as [g1|] eqn:E1; simpl in Hname; [|discriminate].
    pose proof (group_ok _ _ _ _ Hc E1) as H1.
    injection Hname as <-. left. exists g1. split; [exact H1|].
    destruct tt; simpl; now rewrite ?str_app_assoc.
Qed.

Lemma get_short_name_is_canonical (long_name name : string) :
  get_short_name long_name = Ok name -> canonical name.
Proof.
  unfold get_short_name, canonical.
  destruct (first_search searches long_name) as [r|] eqn:Es.
  { intros [= <-]. left. apply first_search_In in Es.
    simpl in Es. unfold literal_names. simpl. intuition. }
  destruct (re_match (maturity_regex fixed) long_name) as [m|] eqn:Ef.
  { intros H. right.
    destruct (re_match_sound digit_groups _ _ _ (maturity_groups fixed) Ef) as [Hc _].
    now apply (maturity_name_band fixed m). }
  destruct (re_match (maturity_regex floating) long_name) as [m|] eqn:El.
  { intros H. right.
    destruct (re_match_sound digit_groups _ _ _ (maturity_groups floating) El) as [Hc _].
    now apply (maturity_name_band floating m). }
  destruct (re_match repo_regex long_name) as [m|]; [|discriminate].
  unfold repo_name. destruct (group m 1) as [g|]; [|discriminate].
  destruct (String.eqb g "morning").
  { intros [= <-]. left. unfold literal_names. simpl. intuition. }
  destruct (String.eqb g "afternoon"); [|discriminate].
  intros [= <-]. left. unfold literal_names. simpl. intuition.
Qed.

(** Whatever the description, a name that [get_short_name] returns is one
    of the ten names written in the code, or JGBs with one or two bounds of
    one or two digits, marked FR for the fixed-rate method. *)
Theorem get_short_name_canonical (long_name name : string) :
  get_short_name long_name = Ok name -> canonical name.
Proof.
  now apply get_short_name_is_canonical.
Qed.

Lemma get_short_name_canonical_witness :
  canonical "JGBs: FR 5-10y".
Proof.
  apply (get_short_name_canonical
           "Outright purchases of JGBs (fixed-rate method) (residual maturity of more than 5 years) up to 10 years)").
  vm_compute. reflexivity.
Defined.

(** ** The notes of the offers page *)

Lemma digit_value (a : ascii) :
  is_digit a = true -> 0 <= Z.of_nat (nat_of_ascii a) - 48 <= 9.
Proof.
  unfold is_digit. intros H. apply andb_true_iff in H. destruct H as [H1 H2].
  apply Nat.leb_le in H1, H2. lia.
Qed.

Lemma digit_not_space (a : ascii) : is_digit a = true -> is_space a = false.
Proof.
  unfold is_digit, is_space. intros H. apply andb_true_iff in H.
  destruct H as [H1 H2]. apply Nat.leb_le in H1, H2.
  apply orb_false_iff. split.
  - apply andb_false_iff. right. apply Nat.leb_gt. lia.
  - apply Nat.eqb_neq. lia.
Qed.

Lemma digit_not_point (a : ascii) : is_digit a = true -> Ascii.eqb a "." = false.
Proof.
  intros H. destruct (Ascii.eqb_spec a "."); [|reflexivity].
  subst. discriminate.
Qed.

Lemma int_of_two_digits (x : string) :
  digits12_text x ->
  exists z, int_of_text (strip x) = Ok z /\ 0 <= z <= 99.
Proof.
  intros [a [Ha [->|[b [Hb ->]]]]].
  - pose proof (digit_value a Ha) as Va.
    exists (Z.of_nat (nat_of_ascii a) - 48).
    unfold strip. cbn [lstrip]. rewrite (digit_not_space a Ha).
    cbn [rstrip]. rewrite (digit_not_space a Ha).
    unfold int_of_text. cbn [all_digits]. rewrite Ha.
    split; [reflexivity | lia].
  - pose proof (digit_value a Ha) as Va. pose proof (digit_value b Hb) as Vb.
    exists ((Z.of_nat (nat_of_ascii b) - 48) * 10 + (Z.of_nat (nat_of_ascii a) - 48)).
    unfold strip. cbn [lstrip]. rewrite (digit_not_space b Hb).
    cbn [rstrip]. rewrite (digit_not_space a Ha).
    unfold int_of_text. cbn [all_digits]. rewrite Ha, Hb.
    split; [reflexivity | lia].
Qed.

Lemma float_of_rate_text (x : string) :
  rate_text x ->
  exists q, float_of_text (strip x) = Ok q /\ (0 <= q)%Q /\ (q < 10)%Q.
Proof.
  intros [a [b [c [d [Ha [Hb [Hc [Hd ->]]]]]]]].
  pose proof (digit_value a Ha) as Va. pose proof (digit_value b Hb) as Vb.
  pose proof (digit_value c Hc) as Vc. pose proof (digit_value d Hd) as Vd.
  eexists. split.
  - unfold strip. cbn [lstrip]. rewrite (digit_not_space a Ha).
    cbn [rstrip]. rewrite (digit_not_space d Hd).
    unfold float_of_text. cbn [split_point]. rewrite (digit_not_point a Ha).
    cbn [Ascii.eqb Bool.eqb all_digits]. rewrite Ha, Hb, Hc, Hd.
    cbn [andb negb String.eqb Ascii.eqb]. reflexivity.
  - rewrite Qred_correct. unfold int_of_digits.
    cbn [list_ascii_of_string fold_left String.length].
    unfold Qle, Qlt. cbn [Qnum Qden]. 
    change (Z.of_nat 3) with 3. change (10 ^ 3) with 1000.
    change (Z.pos (Z.to_pos 1000)) with 1000. lia.
Qed.

Lemma group_cons (cs : captures) (i n : nat) (x : string) :
  group cs n <> None -> group ((i, x) :: cs) n <> None.
Proof.
  simpl. destruct (Nat.eqb i n); [discriminate | trivial].
Qed.

Lemma gmatch_groups (ceq : ascii -> ascii -> bool) (r : regex) :
  forall (s : string) (cs : captures) (k : string -> captures -> option captures)
         (m : captures),
    gmatch ceq r s cs k = Some m ->
    exists s' cs',
      k s' cs' = Some m
      /\ (forall n, group cs n <> None -> group cs' n <> None)
      /\ (forall n, sets_group n r = true -> group cs' n <> None).
Proof.
  induction r as [|c| | | |a IHa b IHb|a IHa| |i a IHa]; intros s cs k m;
    cbn [gmatch sets_group].
  - intros Hk. exists s, cs. repeat split; [exact Hk | auto | discriminate].
  - destruct s as [|x s]; [discriminate|]. destruct (ceq c x); [|discriminate].
    intros Hk. exists s, cs. repeat split; [exact Hk | auto | discriminate].
  - destruct s as [|x s]; [discriminate|]. destruct (is_newline x); [discriminate|].
    intros Hk. exists s, cs. repeat split; [exact Hk | auto | discriminate].
  - destruct s as [|x s]; [discriminate|]. destruct (is_digit x); [|discriminate].
    intros Hk. exists s, cs. repeat split; [exact Hk | auto | discriminate].
  - intros Hk. exists s, cs. split; [|split; [auto | discriminate]].
    destruct s as [|x [|y s]]; [exact Hk | | discriminate].
    destruct (is_newline x); [exact Hk | discriminate].
  - intros Hm.
    destruct (IHa s cs _ m Hm) as [s1 [cs1 [Hm1 [Hk1 Hs1]]]].
    destruct (IHb s1 cs1 k m Hm1) as [s2 [cs2 [Hm2 [Hk2 Hs2]]]].
    exists s2, cs2. split; [exact Hm2|]. split; [auto|].
    intros n Hn. apply orb_true_iff in Hn. destruct Hn as [Hn|Hn]; auto.
  - destruct (gmatch ceq a s cs k) as [m'|] eqn:Ha.
    + intros [= <-]. destruct (IHa s cs k m' Ha) as [s' [cs' [Hk [Hmono _]]]].
      exists s', cs'. split; [exact Hk|]. split; [exact Hmono | discriminate].
    + intros Hk. exists s, cs. repeat split; [exact Hk | auto | discriminate].
  - intros Hd. destruct (dotplus_sound _ _ _ Hd) as [x [s' [_ [_ [_ Hk]]]]].
    exists s', cs. repeat split; [exact Hk | auto | discriminate].
  - intros Hm.
    destruct (IHa s cs _ m Hm) as [s' [cs' [Hk [Hmono Hsets]]]].
    exists s', ((i, consumed s s') :: cs'). split; [exact Hk|]. split.
    + intros n Hn. apply group_cons. auto.
    + intros n Hn. apply orb_true_iff in Hn. destruct Hn as [Hn|Hn].
      * simpl. now rewrite Hn.
      * apply group_cons. auto.
Qed.

Lemma note_group_set (n : nat) (i : string) (m : captures) :
  re_match_cs note_regex i = Some m -> n = 1%nat \/ n = 2%nat ->
  group m n <> None.
Proof.
  unfold re_match_cs. intros Hm Hn.
  destruct (gmatch_groups _ _ _ _ _ _ Hm) as [s' [cs' [Hk [_ Hsets]]]].
  injection Hk as <-. apply Hsets. destruct Hn as [->| ->]; reflexivity.
Qed.

Lemma note_regex_groups : groups_ok Ascii.eqb note_groups note_regex.
Proof.
  unfold note_regex, digits12. cbn [seqs lit groups_ok].
  repeat match goal with
         | |- _ /\ _ => split
         | |- True => exact I
         end.
  - intros x Hx. split; [|discriminate].
    intros _. now apply (lang_digits12 Ascii.eqb).
  - intros x Hx. split; [discriminate|]. intros _. cbn [lang] in Hx.
    destruct Hx as [x1 [x2 [-> [[a [-> Ha]] [x3 [x4 [-> [[p [-> Hp]] H]]]]]]]].
    destruct H as [x5 [x6 [-> [[b [-> Hb]] [x7 [x8 [-> [[c [-> Hc]] H]]]]]]]].
    destruct H as [x9 [x10 [-> [[d [-> Hd]] ->]]]].
    apply Ascii.eqb_eq in Hp. subst p. now exists a, b, c, d.
Qed.

(** What one note gives: nothing, or a maturity of at most 99 and a rate
    under 10 that is not negative; never an error for a text. *)
Lemma note_of_text (i : string) :
  note_of (CStr i) = Ok None
  \/ exists maturity rate,
       note_of (CStr i) = Ok (Some (maturity, rate))
       /\ 0 <= maturity <= 99 /\ (0 <= rate)%Q /\ (rate < 10)%Q.
Proof.
  unfold note_of. destruct (re_match_cs note_regex i) as [m|] eqn:Em; [|now left].
  right. destruct (re_match_cs_sound note_groups _ _ _ note_regex_groups Em) as [Hc _].
  assert (Hg : exists g1 g2, group m 1 = Some g1 /\ group m 2 = Some g2
                             /\ digits12_text g1 /\ rate_text g2).
  { clear -Em Hc. unfold re_match_cs in Em.
    destruct (group m 1) as [g1|] eqn:E1, (group m 2) as [g2|] eqn:E2.
    - exists g1, g2. repeat split.
      + now apply (proj1 (group_ok _ _ _ _ Hc E1)).
      + now apply (proj2 (group_ok _ _ _ _ Hc E2)).
    - exfalso. revert E2. apply (note_group_set 2 i m); [exact Em | now right].
    - exfalso. revert E1. apply (note_group_set 1 i m); [exact Em | now left].
    - exfalso. revert E1. apply (note_group_set 1 i m); [exact Em | now left]. }
  destruct Hg as [g1 [g2 [E1 [E2 [H1 H2]]]]]. rewrite E1, E2.
  destruct (int_of_two_digits g1 H1) as [z [Hz Bz]].
  destruct (float_of_rate_text g2 H2) as [q [Hq [Bq1 Bq2]]].
  exists z, q. rewrite Hz, Hq. simpl. auto.
Qed.

Lemma note_eqb_refl (x : Z * Q) : note_eqb x x = true.
Proof.
  unfold note_eqb. rewrite Z.eqb_refl. simpl. apply Qeq_bool_iff. reflexivity.
Qed.

Lemma drop_duplicates_spec (l : list (Z * Q)) :
  NoDup (drop_duplicates l)
  /\ (forall x, In x (drop_duplicates l) -> In x l)
  /\ (forall x, In x l -> exists y, In y (drop_duplicates l) /\ note_eqb x y = true).
Proof.
  unfold drop_duplicates.
  assert (G : forall acc,
             NoDup acc ->
             let out := fold_left
                          (fun acc x => if existsb (note_eqb x) acc then acc
                                        else (acc ++ [x])%list) l acc in
             NoDup out
             /\ (forall x, In x out -> In x acc \/ In x l)
             /\ (forall x, In x acc -> In x out)
             /\ (forall x, In x l -> exists y, In y out /\ note_eqb x y = true)).
  { induction l as [|a l IH]; intros acc Hacc; simpl.
    - repeat split; auto. intros x [].
    - set (acc' := if existsb (note_eqb a) acc then acc else (acc ++ [a])%list).
      assert (Hacc' : NoDup acc').
      { unfold acc'. destruct (existsb (note_eqb a) acc) eqn:E; [exact Hacc|].
        apply NoDup_snoc. split; [exact Hacc|]. intros Hin.
        assert (existsb (note_eqb a) acc = true)
          by (apply existsb_exists; exists a; split; [exact Hin | apply note_eqb_refl]).
        congruence. }
      destruct (IH acc' Hacc') as [H1 [H2 [H3 H4]]].
      assert (Hsub : forall x, In x acc -> In x acc').
      { intros x Hx. unfold acc'. destruct (existsb (note_eqb a) acc); [exact Hx|].
        apply in_or_app. now left. }
      split; [exact H1|]. split; [|split].
      + intros x Hx. destruct (H2 x Hx) as [Hx'|Hx']; [|now right; right].
        unfold acc' in Hx'. destruct (existsb (note_eqb a) acc); [now left|].
        apply in_app_or in Hx'. destruct Hx' as [Hx'|[<-|[]]]; [now left | right; now left].
      + intros x Hx. apply H3, Hsub, Hx.
      + intros x [<-|Hx]; [|now apply H4].
        destruct (existsb (note_eqb a) acc) eqn:E.
        * apply existsb_exists in E. destruct E as [y [Hy Hey]].
          exists y. split; [apply H3, Hsub, Hy | exact Hey].
        * exists a. split; [|apply note_eqb_refl].
          apply H3. unfold acc'. rewrite ?E. apply in_or_app. right. now left. }
  destruct (G [] (NoDup_nil _)) as [H1 [H2 [_ H4]]].
  split; [exact H1|]. split; [|exact H4].
  intros x Hx. destruct (H2 x Hx) as [[]|H]. exact H.
Qed.

Lemma dropna_In {A : Type} (l : list (option A)) (a : A) :
  In a (dropna l) <-> In (Some a) l.
Proof.
  induction l as [|[x|] l IH]; simpl.
  - tauto.
  - rewrite IH. split; intros [H|H]; auto; left; congruence.
  - rewrite IH. split; [auto | intros [H|H]; [discriminate | exact H]].
Qed.

(** [clean_up_notes] on notes that are texts never raises.  Its rows are
    pairwise different, each comes from a note that the sentence pattern
    matches and carries the date, a maturity of at most 99 and a rate from
    0 to under 10; every note that the pattern matches is there with its
    maturity and rate; the other notes leave nothing. *)
Theorem clean_up_notes_spec (df_notes : list cell) (d : date) :
  Forall is_text df_notes ->
  exists rows,
    clean_up_notes df_notes d = Ok rows
    /\ NoDup (map (fun row => (Maturity row, note_Rate row)) rows)
    /\ (forall row, In row rows ->
          note_Date row = d
          /\ 0 <= Maturity row <= 99
          /\ (0 <= note_Rate row)%Q /\ (note_Rate row < 10)%Q
          /\ exists c, In c df_notes
                       /\ note_of c = Ok (Some (Maturity row, note_Rate row)))
    /\ (forall c maturity rate,
          In c df_notes -> note_of c = Ok (Some (maturity, rate)) ->
          exists row, In row rows /\ Maturity row = maturity
                      /\ (note_Rate row == rate)%Q).
Proof.
  intros Htext. unfold clean_up_notes.
  destruct (mapM_total note_of df_notes) as [found Hfound].
  { intros c Hc. rewrite Forall_forall in Htext. destruct (Htext c Hc) as [i ->].
    destruct (note_of_text i) as [H|[m [r [H _]]]]; rewrite H; eauto. }
  rewrite Hfound. simpl. eexists. split; [reflexivity|].
  pose proof (mapM_Forall2 _ _ _ Hfound) as F.
  destruct (drop_duplicates_spec (dropna found)) as [Hnd [Hsub Hall]].
  assert (Hsrc : forall mr, In mr (dropna found) ->
                            exists c, In c df_notes /\ note_of c = Ok (Some mr)).
  { intros mr Hmr. apply dropna_In in Hmr.
    destruct (Forall2_In_r _ _ _ _ F Hmr) as [c [Hc Hn]]. eauto. }
  split; [|split].
  - rewrite map_map. simpl. rewrite map_ext with (g := fun x => x).
    + now rewrite map_id.
    + now intros [m r].
  - intros row Hrow. apply in_map_iff in Hrow. destruct Hrow as [[m r] [<- Hin]].
    simpl. destruct (Hsrc (m, r) (Hsub _ Hin)) as [c [Hc Hn]].
    rewrite Forall_forall in Htext. destruct (Htext c Hc) as [i ->].
    destruct (note_of_text i) as [H|[m' [r' [H [Bm [B1 B2]]]]]];
      rewrite H in Hn; [discriminate|].
    injection Hn as -> ->. repeat split; try assumption; try lia.
    exists (CStr i). split; [exact Hc | exact H].
  - intros c m r Hc Hn.
    assert (Hin : In (m, r) (dropna found)).
    { apply dropna_In. clear -F Hc Hn. induction F as [|c0 b l l' H0 _ IH].
      - destruct Hc.
      - destruct Hc as [<-|Hc]; [left; congruence | right; now apply IH]. }
    destruct (Hall _ Hin) as [[m' r'] [Hy He]].
    exists (mknote m' r' d). split; [now apply (in_map (fun mr => mknote (fst mr) (snd mr) d)) in Hy|].
    unfold note_eqb in He. simpl in *. apply andb_true_iff in He.
    destruct He as [He1 He2]. apply Z.eqb_eq in He1. apply Qeq_bool_iff in He2.
    split; [now symmetry | now symmetry].
Qed.

Lemma clean_up_notes_spec_witness :
  exists rows,
    clean_up_notes
      [ CStr "Note: The Bank's purchasing yield of 10-year JGB #369 is set at 0.500%.";
        CStr "The offer amount may be changed.";
        CStr "Note: The Bank's purchasing yield of 10-year JGB #369 is set at 0.500%." ]
      (mkdate 2023 2 1) = Ok rows
    /\ List.length rows = 1%nat.
Proof.
  destruct (clean_up_notes_spec
              [ CStr "Note: The Bank's purchasing yield of 10-year JGB #369 is set at 0.500%.";
                CStr "The offer amount may be changed.";
                CStr "Note: The Bank's purchasing yield of 10-year JGB #369 is set at 0.500%." ]
              (mkdate 2023 2 1)) as [rows [Hrows _]].
  - repeat constructor; eexists; reflexivity.
  - exists rows. split; [exact Hrows|].
    vm_compute in Hrows. injection Hrows as <-. reflexivity.
Defined.

(** ** One day of the daily pages: what the operation is made of *)

Lemma clean_up_data_sources (df_data : list raw_row) (d : date) (out : list data_row) :
  clean_up_data df_data d = Ok out ->
  forall n, In n (map d_instrument out) ->
            exists x, In x df_data /\ get_short_name (raw_instrument x) = Ok n.
Proof.
  unfold clean_up_data. intros H.
  destruct (mapM clean_row df_data) as [rows|e] eqn:Hrows; simpl in H; [|discriminate].
  injection H as <-. intros n Hn.
  rewrite map_map in Hn.
  rewrite (map_ext _ fst) in Hn by (intros [n0 [[c s0] y]]; reflexivity).
  apply groupby_sum_keys in Hn; [|exact _].
  apply in_map_iff in Hn. destruct Hn as [[n0 v] [Hn0 Hin]]. simpl in Hn0. subst n0.
  destruct (Forall2_In_r _ _ _ _ (mapM_Forall2 _ _ _ Hrows) Hin) as [x [Hx Hc]].
  exists x. split; [exact Hx|]. unfold clean_row in Hc.
  destruct (get_short_name (raw_instrument x)); simpl in Hc; [|discriminate].
  now injection Hc as <- _.
Qed.

Lemma add_notes_instruments (notes : list note_row) (op op' : Operation) :
  add_notes op notes = Ok op' -> Op.Instruments op' = Op.Instruments op.
Proof.
  revert op. induction notes as [|n notes IH]; intros op Hrun; simpl in Hrun.
  - now injection Hrun as <-.
  - destruct (add_note op n) as [op1|e] eqn:Hn; simpl in Hrun; [|discriminate].
    rewrite (IH op1 Hrun). unfold add_note in Hn.
    destruct (fixed_rate_instrument (Maturity n)) as [i|]; simpl in Hn; [|discriminate].
    destruct (Op.Transaction op i); [|discriminate].
    injection Hn as <-. unfold Op.Instruments. simpl.
    now apply update_first_instruments.
Qed.

(** An operation built from the two pages of a day carries the date of
    the day and holds at most one transaction per instrument; each
    instrument is a canonical name, given to one raw row at least, and each
    transaction has its rate and both bid volumes. *)
Theorem web_day_operation (curdate : date) (df_data : list raw_row)
        (df_notes : list cell) (op : Operation) :
  web_day curdate df_data df_notes = Ok op ->
  Date op = curdate
  /\ NoDup (Op.Instruments op)
  /\ (forall i, In i (Op.Instruments op) ->
                canonical i
                /\ exists x, In x df_data /\ get_short_name (raw_instrument x) = Ok i)
  /\ Forall complete (Transactions op).
Proof.
  unfold web_day. intros H.
  destruct (clean_up_data df_data curdate) as [data|e] eqn:Hdata; simpl in H; [|discriminate].
  destruct (clean_up_notes df_notes curdate) as [notes|e] eqn:Hnotes; simpl in H;
    [|discriminate].
  destruct (add_operation_transactions_complete curdate data (Some notes) op H) as [Hd Hc].
  assert (Hinst : Op.Instruments op = map d_instrument data).
  { unfold add_operation in H. rewrite (add_notes_instruments notes _ op H).
    rewrite add_row_instruments. reflexivity. }
  split; [exact Hd|]. rewrite Hinst. split; [|split; [|exact Hc]].
  - now destruct (clean_up_data_spec df_data curdate data Hdata) as [Hnd _].
  - intros i Hi.
    destruct (clean_up_data_sources df_data curdate data Hdata i Hi) as [x [Hx Hn]].
    split; [now apply (get_short_name_is_canonical (raw_instrument x)) | eauto].
Qed.

Lemma web_day_operation_witness :
  let d := mkdate 2023 2 1 in
  let rows :=
    [ mkraw "Outright purchases of CP" (Some 30) (Some 20) None;
      mkraw "Outright purchases of JGBs (fixed-rate method) (residual maturity of more than 5 years) up to 10 years)"
            None (Some 40) None ] in
  let notes :=
    [ CStr "Note: The Bank's purchasing yield of 10-year JGB #369 is set at 0.500%." ] in
  let op := mkOperation d
              [ mkTransaction (Some 0%Q) (Some 20) (Some 30) None "CP" "JPY" 100;
                mkTransaction (Some (1 # 2)%Q) (Some 40) (Some 0) None
                              "JGBs: FR 5-10y" "JPY" 100 ] in
  web_day d rows notes = Ok op /\ NoDup (Op.Instruments op).
Proof.
  intros d rows notes op.
  assert (H : web_day d rows notes = Ok op) by (vm_compute; reflexivity).
  split; [exact H|].
  exact (proj1 (proj2 (web_day_operation d rows notes op H))).
Defined.

(** ** The monthly release: what the scan finds *)

Lemma nth_error_snoc_length {A : Type} (pre suf : list A) (x : A) :
  nth_error (pre ++ x :: suf) (List.length pre) = Some x.
Proof.
  rewrite nth_error_app2 by lia. now rewrite Nat.sub_diag.
Qed.

Lemma scan_invariant (rows : list (list cell)) :
  forall (suf pre : list (list cell)) (st : scan_state),
    rows = (pre ++ suf)%list ->
    0 <= start st ->
    (start st <> 0 ->
     1 <= start st < Z.of_nat (List.length pre)
     /\ forall i, start st <= i < Z.of_nat (List.length pre) -> int_row rows i) ->
    Forall (block rows) (starts st) ->
    Forall (block rows) (starts (scan_rows st (Z.of_nat (List.length pre)) suf)).
Proof.
  induction suf as [|row suf IH]; intros pre st Hrows Hpos Hopen Hblocks; [exact Hblocks|].
  cbn [scan_rows].
  assert (Hrow : nth_error rows (List.length pre) = Some row)
    by (rewrite Hrows; apply nth_error_snoc_length).
  assert (Hidx : Z.of_nat (List.length pre) + 1 = Z.of_nat (List.length (pre ++ [row])))
    by (rewrite length_app; simpl; lia).
  rewrite Hidx.
  assert (Hrows' : rows = ((pre ++ [row]) ++ suf)%list)
    by (rewrite <- app_assoc; exact Hrows).
  apply IH; try exact Hrows'; rewrite <- ?Hidx; unfold scan_step;
    destruct (isinstance_int (cell_at row 4)) eqn:Hint;
    destruct (Z.eqb_spec (start st) 0) as [E0|E0]; cbn [andb negb].
  - (* an integer row and no block open *)
    destruct (Z.eqb_spec (Z.of_nat (List.length pre)) 0); cbn [negb andb start]; lia.
  - destruct (Z.eqb_spec (start st) 0); [contradiction|]. cbn [negb andb start]. lia.
  - rewrite E0. cbn. lia.
  - destruct (Z.eqb_spec (start st) 0); [contradiction|]. cbn. lia.
  - destruct (Z.eqb_spec (Z.of_nat (List.length pre)) 0) as [Ez|Ez];
      cbn [negb andb start]; intros Hne; [contradiction|].
    split; [lia|]. intros i Hi. assert (i = Z.of_nat (List.length pre)) by lia. subst i.
    exists row. now rewrite Nat2Z.id.
  - destruct (Z.eqb_spec (start st) 0); [contradiction|]. cbn [negb andb start].
    intros _. destruct (Hopen E0) as [Hb Hall]. split; [lia|].
    intros i Hi. destruct (Z.eq_dec i (Z.of_nat (List.length pre))) as [->|Hi'].
    + exists row. now rewrite Nat2Z.id.
    + apply Hall. lia.
  - rewrite E0. cbn. intros Hne. contradiction.
  - destruct (Z.eqb_spec (start st) 0); [contradiction|]. cbn. intros Hne. contradiction.
  - destruct (Z.eqb_spec (Z.of_nat (List.length pre)) 0); cbn [negb andb starts];
      exact Hblocks.
  - destruct (Z.eqb_spec (start st) 0); [contradiction|]. cbn [negb andb starts].
    exact Hblocks.
  - rewrite E0. cbn. exact Hblocks.
  - destruct (Z.eqb_spec (start st) 0); [contradiction|]. cbn [negb andb starts].
    apply Forall_app. split; [exact Hblocks|]. constructor; [|constructor].
    destruct (Hopen E0) as [Hb Hall]. unfold block. cbn [fst snd].
    split; [lia|]. split.
    + intros i Hi. apply Hall. lia.
    + exists row. replace (Z.of_nat (List.length pre) - 1 + 1)
        with (Z.of_nat (List.length pre)) by lia.
      now rewrite Nat2Z.id.
Qed.

Lemma firstn_succ_nth {A : Type} (l : list A) (n : nat) (x : A) :
  nth_error l n = Some x -> firstn (S n) l = (firstn n l ++ [x])%list.
Proof.
  revert l. induction n as [|n IH]; intros [|y l] H; try discriminate.
  - simpl in H. now injection H as ->.
  - simpl in H.
    change (firstn (S (S n)) (y :: l)) with (y :: firstn (S n) l).
    rewrite (IH l H). reflexivity.
Qed.

(** Every block that the scan records begins at row 1 or later and is made
    of rows with an integer in column 4, followed by a row without one;
    the table cut out for the block stops one row short of it: the last
    row of the block is not in the table. *)
Theorem scan_blocks (rows : list (list cell)) (a b : Z) :
  In (a, b) (starts (scan_rows (mkscan 0 [] 0) 0 rows)) ->
  block rows (a, b)
  /\ exists last,
       nth_error rows (Z.to_nat b) = Some last
       /\ isinstance_int (cell_at last 4) = true
       /\ iloc_rows rows a (b + 1) = (iloc_rows rows a b ++ [last])%list
       /\ Z.of_nat (List.length (iloc_rows rows a b)) = b - a.
Proof.
  intros Hin.
  assert (Hall : Forall (block rows) (starts (scan_rows (mkscan 0 [] 0) 0 rows))).
  { apply (scan_invariant rows rows [] (mkscan 0 [] 0)); simpl;
      [reflexivity | lia | intros H; contradiction | constructor]. }
  rewrite Forall_forall in Hall. pose proof (Hall _ Hin) as Hb.
  split; [exact Hb|]. destruct Hb as [Hab [Hint Hother]]. cbn [fst snd] in *.
  destruct (Hint b) as [last [Hlast Hl]]; [lia|].
  exists last. split; [exact Hlast|]. split; [exact Hl|].
  unfold iloc_rows.
  assert (Hnth : nth_error (skipn (Z.to_nat a) rows) (Z.to_nat (b - a)) = Some last).
  { rewrite nth_error_skipn. rewrite <- Hlast. f_equal. lia. }
  split.
  - replace (Z.to_nat (b + 1 - a)) with (S (Z.to_nat (b - a))) by lia.
    now apply firstn_succ_nth.
  - rewrite length_firstn.
    assert (Z.to_nat (b - a) < List.length (skipn (Z.to_nat a) rows))%nat
      by (apply nth_error_Some; congruence).
    lia.
Qed.

Lemma scan_blocks_witness :
  iloc_rows (sheet_rows sheet_with_notes) 1 3
  = [ nth 1 (sheet_rows sheet_with_notes) []; nth 2 (sheet_rows sheet_with_notes) [] ]
  /\ isinstance_int (cell_at (nth 3 (sheet_rows sheet_with_notes) []) 4) = true.
Proof.
  destruct (scan_blocks (sheet_rows sheet_with_notes) 1 3) as [_ [last [Hl [Hi _]]]].
  - vm_compute. now left.
  - split; [reflexivity|]. vm_compute in Hl. injection Hl as <-. exact Hi.
Defined.

Lemma scan_no_integer (rows : list (list cell)) :
  (forall row, In row rows -> isinstance_int (cell_at row 4) = false) ->
  forall st index, start st = 0 -> starts (scan_rows st index rows) = starts st.
Proof.
  induction rows as [|row rows IH]; intros H st index Hst; [reflexivity|].
  cbn [scan_rows]. rewrite IH.
  - unfold scan_step. rewrite (H row (or_introl eq_refl)), Hst. reflexivity.
  - intros r Hr. apply H. now right.
  - unfold scan_step. rewrite (H row (or_introl eq_refl)), Hst. reflexivity.
Qed.

(** What [get_excel_data] raises on a sheet it cannot read: [IndexError]
    when no row has an integer in column 4, so that no table is found;
    [ValueError] when a table is found and the sheet has neither 11 nor 13
    columns. *)
Theorem get_excel_data_errors (fts : Q -> result date)
        (sort_values : list erow -> list erow) (df : sheet) :
  ((forall row, In row (sheet_rows df) -> isinstance_int (cell_at row 4) = false) ->
   get_excel_data fts sort_values df = Raise IndexError)
  /\ (forall st, scan_sheet df = Ok st -> starts st <> [] ->
                 ncols df <> 13 -> ncols df <> 11 ->
                 get_excel_data fts sort_values df
                 = Raise (ValueError "Shape not recognized")).
Proof.
  split.
  - intros H. unfold get_excel_data, scan_sheet.
    destruct (sheet_rows df) as [|row rows] eqn:Hrows; [reflexivity|].
    destruct (ncols df <=? 4); [reflexivity|]. cbn [bind].
    unfold auction_table, auction_frame.
    rewrite (scan_no_integer (row :: rows) H (mkscan 0 [] 0) 0 eq_refl). reflexivity.
  - intros st Hscan Hst H13 H11. unfold get_excel_data. rewrite Hscan. cbn [bind].
    unfold auction_table, auction_frame.
    destruct (starts st) as [|[a b] rest]; [contradiction|].
    apply Z.eqb_neq in H13, H11. now rewrite H13, H11.
Qed.

Lemma get_excel_data_errors_witness :
  get_excel_data utc_fromtimestamp sort_by_date
                 (mksheet 13 [blank_row; title_row "Outright purchases"])
  = Raise IndexError
  /\ get_excel_data utc_fromtimestamp sort_by_date
                    (mksheet 12 (sheet_rows sheet_with_notes))
     = Raise (ValueError "Shape not recognized").
Proof.
  split.
  - apply (proj1 (get_excel_data_errors utc_fromtimestamp sort_by_date _)).
    intros row [<-|[<-|[]]]; reflexivity.
  - apply (proj2 (get_excel_data_errors utc_fromtimestamp sort_by_date
                    (mksheet 12 (sheet_rows sheet_with_notes)))
                 (mkscan 0 [(1, 3); (14, 16)] 5)).
    + vm_compute. reflexivity.
    + discriminate.
    + discriminate.
    + discriminate.
Defined.

(** ** The monthly release: order and names of the rows *)

Lemma date_leb_total (a b : date) : date_leb a b = false -> date_leb b a = true.
Proof.
  unfold date_leb. rewrite (cmp_antisym a b).
  destruct (date_compare a b); simpl; congruence.
Qed.

Lemma insert_by_date_ordered (r : erow) (l : list erow) :
  ordered_by_date l -> ordered_by_date (insert_by_date r l).
Proof.
  unfold ordered_by_date. induction l as [|x l IH]; intros Hs; simpl.
  - repeat constructor.
  - destruct (date_leb (e_date r) (e_date x)) eqn:E.
    + constructor; [exact Hs | now constructor].
    + inversion Hs as [|? ? Hs' Hhd]; subst. constructor; [now apply IH|].
      destruct l as [|y l]; simpl.
      * constructor. now apply date_leb_total.
      * destruct (date_leb (e_date r) (e_date y)).
        -- constructor. now apply date_leb_total.
        -- inversion Hhd; subst. now constructor.
Qed.

Lemma sort_by_date_ordered (l : list erow) : ordered_by_date (sort_by_date l).
Proof.
  induction l as [|r l IH]; simpl; [constructor|].
  now apply insert_by_date_ordered.
Qed.

Lemma sort_by_date_sorts : sorts_by_date sort_by_date.
Proof.
  intros l. split; [apply sort_by_date_perm | apply sort_by_date_ordered].
Qed.

Lemma get_excel_data_tables (fts : Q -> result date)
      (sort_values : list erow -> list erow) (df : sheet) (out : list erow) :
  get_excel_data fts sort_values df = Ok out ->
  exists st df_data df_notes,
    scan_sheet df = Ok st
    /\ auction_table fts df st = Ok df_data
    /\ notes_table fts df st = Ok df_notes
    /\ out = sort_values (df_data ++ match df_notes with
                                     | Some n => n
                                     | None => []
                                     end)%list.
Proof.
  unfold get_excel_data. intros H.
  destruct (scan_sheet df) as [st|e] eqn:Hscan; simpl in H; [|discriminate].
  destruct (auction_table fts df st) as [df_data|e] eqn:Hdata; simpl in H; [|discriminate].
  destruct (notes_table fts df st) as [df_notes|e] eqn:Hnotes; simpl in H; [|discriminate].
  exists st, df_data, df_notes.
  split; [reflexivity|]. split; [exact Hdata|]. split; [exact Hnotes|].
  destruct df_notes; injection H as <-; [reflexivity | now rewrite app_nil_r].
Qed.

(** Whatever way [sort_values] has of sorting by date, the frame
    that [get_excel_data] returns is ordered by date and is made of the
    rows of the auction table and, when the fixed-rate table is read, of
    its rows, each row once. *)
Theorem get_excel_data_ordered (fts : Q -> result date)
        (sort_values : list erow -> list erow) (df : sheet) (out : list erow) :
  sorts_by_date sort_values ->
  get_excel_data fts sort_values df = Ok out ->
  ordered_by_date out
  /\ exists st df_data df_notes,
       scan_sheet df = Ok st
       /\ auction_table fts df st = Ok df_data
       /\ notes_table fts df st = Ok df_notes
       /\ Permutation out (df_data ++ match df_notes with
                                      | Some n => n
                                      | None => []
                                      end).
Proof.
  intros Hsort H.
  destruct (get_excel_data_tables fts sort_values df out H)
    as [st [df_data [df_notes [Hscan [Hdata [Hnotes ->]]]]]].
  split; [apply Hsort|].
  exists st, df_data, df_notes.
  split; [exact Hscan|]. split; [exact Hdata|]. split; [exact Hnotes|].
  apply Hsort.
Qed.

Lemma get_excel_data_ordered_witness :
  exists out,
    get_excel_data utc_fromtimestamp sort_by_date sheet_with_notes = Ok out
    /\ ordered_by_date out /\ List.length out = 3%nat.
Proof.
  eexists. split; [vm_compute; reflexivity|]. split; [|reflexivity].
  refine (proj1 (get_excel_data_ordered utc_fromtimestamp sort_by_date
                   sheet_with_notes _ sort_by_date_sorts _)).
  vm_compute. reflexivity.
Defined.









(** ** The lookup layer: the frame of a query *)

Lemma df_set_fresh (name : string) (column : list cell) (df : frame) :
  ~ In name (map fst df) -> df_set name column df = (df ++ [(name, column)])%list.
Proof.
  induction df as [|[n c] df IH]; simpl; intros H; [reflexivity|].
  destruct (String.eqb_spec n name) as [E|E].
  - exfalso. apply H. now left.
  - rewrite IH; [reflexivity|]. intros Hin. apply H. now right.
Qed.

Lemma add_columns_fresh (instruments : list string) (values : list (list cell))
      (df : frame) :
  NoDup instruments ->
  (forall i, In i instruments -> ~ In i (map fst df)) ->
  List.length values = List.length instruments ->
  add_columns instruments values df = (df ++ combine instruments values)%list.
Proof.
  revert values df. induction instruments as [|i insts IH]; intros values df Hnd Hfresh Hlen.
  - simpl. now rewrite app_nil_r.
  - destruct values as [|v values]; [discriminate|]. simpl.
    inversion Hnd as [|? ? Hi Hnd']; subst.
    rewrite IH.
    + rewrite df_set_fresh by (apply Hfresh; now left).
      now rewrite <- app_assoc.
    + exact Hnd'.
    + intros j Hj. rewrite df_set_fresh by (apply Hfresh; now left).
      rewrite map_app, in_app_iff. simpl. intros [H|[H|[]]].
      * apply (Hfresh j); [now right | exact H].
      * subst j. contradiction.
    + simpl in Hlen. lia.
Qed.

Lemma mapM_length {A B : Type} (f : A -> result B) (l : list A) (r : list B) :
  mapM f l = Ok r -> List.length r = List.length l.
Proof.
  intros H. apply mapM_Forall2 in H. symmetry. now apply (Forall2_length H).
Qed.

Lemma inst_values_length (rate : bool) (ops : list Operation) (inst : string)
      (col : list cell) :
  inst_values rate ops inst = Ok col -> List.length col = List.length ops.
Proof.
  unfold inst_values. destruct rate.
  - intros [= <-]. unfold rate_column.
    destruct (existsb has_rate _); now rewrite !length_map.
  - destruct (String.eqb inst "All"); apply mapM_length.
Qed.

(** The frame of a daily query, for instruments all different and none of
    them called Date: the Date column with the dates of the operations
    kept, then one column for each instrument in the order asked, each
    with one cell per operation kept, computed from that operation. *)
Theorem daily_frame (operations : list Operation) (instruments : list string)
        (start_date end_date : date) (rate : bool) (df : frame) :
  NoDup instruments -> ~ In "Date" instruments ->
  get_chart_data operations instruments start_date end_date rate false = Ok df ->
  let kept := filter (op_selected (inst_filter instruments) start_date end_date)
                     operations in
  exists values,
    df = ("Date", map CDate (map Date kept)) :: combine instruments values
    /\ map fst df = "Date" :: instruments
    /\ Forall (fun column => List.length (snd column) = List.length kept) df
    /\ Forall2 (fun inst column =>
                  inst_values (rate_flag instruments rate) kept inst = Ok column)
               instruments values.
Proof.
  intros Hnd Hdate H kept. unfold get_chart_data in H. fold kept in H.
  destruct (all_values (rate_flag instruments rate) kept instruments) as [vs|e] eqn:Hvs;
    simpl in H; [|discriminate].
  injection H as <-. exists vs.
  pose proof (mapM_Forall2 _ _ _ Hvs) as F.
  pose proof (mapM_length _ _ _ Hvs) as Hlen.
  rewrite add_columns_fresh; try assumption.
  - simpl. split; [reflexivity|]. split; [|split; [|exact F]].
    + f_equal. clear -Hlen. revert vs Hlen.
      induction instruments as [|i insts IH]; intros [|v vs] Hlen; try discriminate;
        [reflexivity|]. simpl. f_equal. apply IH. simpl in Hlen. lia.
    + constructor; [simpl; now rewrite !length_map|].
      apply Forall_forall. intros [i col] Hin. simpl.
      clear -F Hin. induction F as [|i0 c0 insts vs H0 _ IH]; [destruct Hin|].
      destruct Hin as [Hin|Hin]; [|now apply IH].
      injection Hin as <- <-. now apply (inst_values_length _ _ _ _ H0).
  - intros i Hi. simpl. intros [<-|[]]. contradiction.
Qed.

Lemma daily_frame_witness :
  let cp := mkTransaction (Some 0%Q) (Some 20) (Some 30) None "CP" "JPY" 100 in
  let tb := mkTransaction (Some 0%Q) (Some 5) (Some 6) None "TB" "JPY" 100 in
  let ops := [ mkOperation (mkdate 2023 2 14) [cp]; mkOperation (mkdate 2023 2 16) [tb; cp] ] in
  let df := [ ("Date", [CDate (mkdate 2023 2 14); CDate (mkdate 2023 2 16)]);
              ("CP", [CFloat 2%Q; CFloat 2%Q]);
              ("TB", [CFloat 0%Q; CFloat (1 # 2)%Q]) ] in
  get_chart_data ops ["CP"; "TB"] (mkdate 2023 2 1) (mkdate 2023 2 28) false false = Ok df
  /\ map fst df = ["Date"; "CP"; "TB"].
Proof.
  intros cp tb ops df.
  assert (H : get_chart_data ops ["CP"; "TB"] (mkdate 2023 2 1) (mkdate 2023 2 28)
                             false false = Ok df)
    by (vm_compute; reflexivity).
  assert (Hnd : NoDup ["CP"; "TB"]).
  { repeat constructor; simpl; intuition discriminate. }
  assert (Hdate : ~ In "Date" ["CP"; "TB"]).
  { simpl. intros [E|[E|[]]]; discriminate. }
  split; [exact H|].
  destruct (daily_frame ops ["CP"; "TB"] (mkdate 2023 2 1) (mkdate 2023 2 28) false df
                        Hnd Hdate H) as [values [_ [Hn _]]].
  exact Hn.
Defined.

(** ** The lookup layer: monthly volumes *)

Lemma aggs_add_length (a b : list agg) :
  List.length a = List.length b -> List.length (aggs_add a b) = List.length a.
Proof.
  revert b. induction a as [|x a IH]; intros [|y b] H; try discriminate; [reflexivity|].
  simpl. f_equal. apply IH. simpl in H. lia.
Qed.

Lemma aggs_add_nth (j : nat) (a b : list agg) :
  List.length a = List.length b ->
  (fst (nth j (aggs_add a b) (0%Q, 0%Z)) == fst (nth j a (0%Q, 0%Z)) + fst (nth j b (0%Q, 0%Z)))%Q.
Proof.
  revert j b. induction a as [|x a IH]; intros j [|y b] H; try discriminate.
  - destruct j; simpl; unfold agg; ring.
  - destruct j as [|j].
    + simpl. unfold fadd. apply Qred_correct.
    + simpl. apply IH. simpl in H. lia.
Qed.

Lemma gb_insert_agg_total (j n : nat) (k : date) (v : list agg)
      (acc : list (date * list agg)) :
  Forall (fun r => List.length (snd r) = n) acc -> List.length v = n ->
  Forall (fun r => List.length (snd r) = n) (gb_insert date_compare aggs_add k v acc)
  /\ (agg_total j (gb_insert date_compare aggs_add k v acc)
      == agg_total j acc + fst (nth j v (0%Q, 0%Z)))%Q.
Proof.
  intros Hacc Hv. induction Hacc as [|[k' v'] acc Hk' Hacc IH].
  - split; [repeat constructor; exact Hv|].
    cbn [gb_insert agg_total fold_right snd]. unfold agg; ring.
  - simpl in Hk'. cbn [gb_insert]. destruct (date_compare k k').
    + split.
      * constructor; [|exact Hacc]. simpl. rewrite aggs_add_length; congruence.
      * cbn [agg_total fold_right snd]. rewrite aggs_add_nth by congruence. unfold agg; ring.
    + split.
      * constructor; [exact Hv|]. constructor; assumption.
      * cbn [agg_total fold_right snd]. unfold agg; ring.
    + destruct IH as [IH1 IH2]. split.
      * constructor; assumption.
      * cbn [agg_total fold_right snd]. fold (agg_total j (gb_insert date_compare aggs_add k v acc)).
        fold (agg_total j acc). rewrite IH2. unfold agg; ring.
Qed.

Lemma fold_gb_insert_agg_total (j n : nat) (rows acc : list (date * list agg)) :
  Forall (fun r => List.length (snd r) = n) rows ->
  Forall (fun r => List.length (snd r) = n) acc ->
  (agg_total j (fold_left (fun acc kv => gb_insert date_compare aggs_add (fst kv) (snd kv) acc)
                          rows acc)
   == agg_total j acc + agg_total j rows)%Q.
Proof.
  intros Hrows. revert acc. induction Hrows as [|[k v] rows Hv Hrows IH]; intros acc Hacc.
  - simpl. unfold agg; ring.
  - simpl in Hv. cbn [fold_left fst snd].
    destruct (gb_insert_agg_total j n k v acc Hacc Hv) as [H1 H2].
    rewrite (IH _ H1), H2. cbn [agg_total fold_right snd].
    fold (agg_total j rows). unfold agg; ring.
Qed.

Lemma groupby_agg_total (j n : nat) (rows : list (date * list agg)) :
  Forall (fun r => List.length (snd r) = n) rows ->
  (agg_total j (groupby_sum date_compare aggs_add rows) == agg_total j rows)%Q.
Proof.
  intros H. unfold groupby_sum.
  rewrite (fold_gb_insert_agg_total j n rows [] H (Forall_nil _)). simpl. unfold agg; ring.
Qed.

Lemma frame_rows_width (keys : list date) (cols : list (list cell)) :
  Forall (fun r => List.length (snd r) = List.length cols) (frame_rows keys cols).
Proof.
  revert cols. induction keys as [|k keys IH]; intros cols; simpl; constructor.
  - simpl. apply length_map.
  - specialize (IH (map (@tl cell) cols)). now rewrite length_map in IH.
Qed.

Lemma frame_rows_total (j : nat) (keys : list date) (cols : list (list cell)) :
  Forall (fun c => List.length c = List.length keys) cols ->
  (j < List.length cols)%nat ->
  (agg_total j (frame_rows keys cols) == column_total (nth j cols []))%Q.
Proof.
  revert cols. induction keys as [|k keys IH]; intros cols Hcols Hj.
  - simpl. assert (E : nth j cols [] = []).
    { assert (Hin : In (nth j cols []) cols) by now apply nth_In.
      rewrite Forall_forall in Hcols. specialize (Hcols _ Hin).
      now destruct (nth j cols []). }
    rewrite E. reflexivity.
  - cbn [frame_rows agg_total fold_right snd].
    fold (agg_total j (frame_rows keys (map (@tl cell) cols))).
    rewrite IH.
    + assert (E1 : nth j (map (fun c => agg_of_cell (hd CNaN c)) cols) (0%Q, 0%Z)
                   = agg_of_cell (hd CNaN (nth j cols [])))
        by apply (map_nth (fun c => agg_of_cell (hd CNaN c)) cols [] j).
      assert (E2 : nth j (map (@tl cell) cols) [] = tl (nth j cols []))
        by apply (map_nth (@tl cell) cols [] j).
      unfold agg in *. rewrite E1, E2.
      assert (Hin : In (nth j cols []) cols) by now apply nth_In.
      rewrite Forall_forall in Hcols. specialize (Hcols _ Hin).
      destruct (nth j cols []) as [|c col]; [discriminate|]. reflexivity.
    + apply Forall_forall. intros c Hc. apply in_map_iff in Hc as [c' [<- Hc']].
      rewrite Forall_forall in Hcols. specialize (Hcols _ Hc').
      destruct c'; [discriminate|]. simpl in *. lia.
    + now rewrite length_map.
Qed.

Lemma group_columns_names (rate : bool) (names : list string) (j : nat)
      (groups : list (date * list agg)) :
  map fst (group_columns rate names j groups) = names.
Proof.
  revert j. induction names as [|n names IH]; intros j; simpl; [reflexivity|].
  now rewrite IH.
Qed.

Lemma df_get_group_columns (rate : bool) (names : list string) (j i : nat)
      (groups : list (date * list agg)) :
  NoDup names -> (i < List.length names)%nat ->
  df_get (nth i names "") (group_columns rate names j groups)
  = Some (map (fun g => agg_result rate (nth (j + i) (snd g) (0%Q, 0%Z))) groups).
Proof.
  revert j i. induction names as [|n names IH]; intros j i Hnd Hi; [simpl in Hi; lia|].
  inversion Hnd as [|? ? Hn Hnd']; subst. destruct i as [|i].
  - simpl. rewrite String.eqb_refl. now rewrite Nat.add_0_r.
  - cbn [nth group_columns df_get].
    destruct (String.eqb_spec n (nth i names "")) as [E|E].
    + exfalso. apply Hn. rewrite E. apply nth_In. simpl in Hi. lia.
    + rewrite IH; [|exact Hnd'|simpl in Hi; lia].
      now replace (S j + i)%nat with (j + S i)%nat by lia.
Qed.

Lemma df_get_combine (names : list string) (cols : list (list cell)) (i : nat) :
  NoDup names -> List.length cols = List.length names -> (i < List.length names)%nat ->
  df_get (nth i names "") (combine names cols) = Some (nth i cols []).
Proof.
  revert cols i. induction names as [|n names IH]; intros cols i Hnd Hlen Hi;
    [simpl in Hi; lia|].
  destruct cols as [|c cols]; [discriminate|].
  inversion Hnd as [|? ? Hn Hnd']; subst. destruct i as [|i].
  - simpl. now rewrite String.eqb_refl.
  - cbn [nth combine df_get].
    destruct (String.eqb_spec n (nth i names "")) as [E|E].
    + exfalso. apply Hn. rewrite E. apply nth_In. simpl in Hi. lia.
    + apply IH; [exact Hnd'|simpl in Hlen; lia|simpl in Hi; lia].
Qed.

Lemma mapM_month_start (ds : list date) :
  mapM month_start (map CDate ds) = Ok (map CDate (map first_of_month ds)).
Proof.
  induction ds as [|d ds IH]; [reflexivity|]. cbn [map mapM month_start bind].
  now rewrite IH.
Qed.

Lemma mapM_cell_date (ds : list date) :
  mapM cell_date (map CDate ds) = Ok ds.
Proof.
  induction ds as [|d ds IH]; [reflexivity|]. cbn [map mapM cell_date bind].
  now rewrite IH.
Qed.

Lemma map_snd_combine {A B : Type} (l : list A) (l' : list B) :
  List.length l' = List.length l -> map snd (combine l l') = l'.
Proof.
  revert l'. induction l as [|a l IH]; intros [|b l'] H; try discriminate; [reflexivity|].
  simpl. f_equal. apply IH. simpl in H. lia.
Qed.

Lemma map_fst_combine {A B : Type} (l : list A) (l' : list B) :
  List.length l' = List.length l -> map fst (combine l l') = l.
Proof.
  revert l'. induction l as [|a l IH]; intros [|b l'] H; try discriminate; [reflexivity|].
  simpl. f_equal. apply IH. simpl in H. lia.
Qed.

Lemma column_total_groups (j : nat) (groups : list (date * list agg)) :
  column_total (map (fun g => agg_result false (nth j (snd g) (0%Q, 0%Z))) groups)
  = agg_total j groups.
Proof.
  induction groups as [|g groups IH]; [reflexivity|].
  cbn [map column_total agg_total fold_right]. f_equal. exact IH.
Qed.

(** The frame of the operations kept by a query, before any aggregation. *)
Lemma get_chart_data_daily (operations : list Operation) (instruments : list string)
      (start_date end_date : date) (rate : bool) (df : frame) :
  NoDup instruments -> ~ In "Date" instruments ->
  get_chart_data operations instruments start_date end_date rate false = Ok df ->
  let kept := filter (op_selected (inst_filter instruments) start_date end_date)
                     operations in
  exists values,
    all_values (rate_flag instruments rate) kept instruments = Ok values
    /\ df = ("Date", map CDate (map Date kept)) :: combine instruments values
    /\ List.length values = List.length instruments
    /\ Forall (fun column => List.length column = List.length kept) values.
Proof.
  intros Hnd Hdate H kept. unfold get_chart_data in H. fold kept in H.
  destruct (all_values (rate_flag instruments rate) kept instruments) as [vs|e] eqn:Hvs;
    simpl in H; [|discriminate].
  injection H as <-. exists vs.
  pose proof (mapM_Forall2 _ _ _ Hvs) as F.
  pose proof (mapM_length _ _ _ Hvs) as Hlen.
  split; [reflexivity|]. split; [|split; [exact Hlen|]].
  - rewrite add_columns_fresh; try assumption; [reflexivity|].
    intros i Hi. simpl. intros [<-|[]]. contradiction.
  - clear -F. induction F as [|i c insts vs H0 _ IH]; constructor; [|exact IH].
    now apply (inst_values_length _ _ _ _ H0).
Qed.

(** In volume mode the monthly aggregation of a query that has a daily
    answer never fails, keeps the columns of the daily frame, and keeps the
    total of every instrument: the monthly amounts of an instrument add up
    to its daily amounts. *)
Theorem monthly_volumes_keep_totals (operations : list Operation)
        (instruments : list string) (start_date end_date : date) (rate : bool)
        (daily : frame) :
  NoDup instruments -> ~ In "Date" instruments ->
  rate_flag instruments rate = false ->
  get_chart_data operations instruments start_date end_date rate false = Ok daily ->
  exists monthly,
    get_chart_data operations instruments start_date end_date rate true = Ok monthly
    /\ map fst monthly = map fst daily
    /\ forall inst, In inst instruments ->
         exists daily_column monthly_column,
           df_get inst daily = Some daily_column
           /\ df_get inst monthly = Some monthly_column
           /\ (column_total monthly_column == column_total daily_column)%Q.
Proof.
  intros Hnd Hdate Hrate H.
  destruct (get_chart_data_daily _ _ _ _ _ _ Hnd Hdate H) as [vs [Hvs [Hdf [Hlen Hcols]]]].
  set (kept := filter (op_selected (inst_filter instruments) start_date end_date)
                      operations) in *.
  unfold get_chart_data. fold kept. rewrite Hvs. cbn [bind].
  rewrite add_columns_fresh; try assumption;
    [|intros i Hi; simpl; intros [<-|[]]; contradiction].
  rewrite Hrate. unfold monthly_frame. cbn [app df_get]. rewrite String.eqb_refl.
  rewrite mapM_month_start. cbn [bind]. rewrite mapM_cell_date. cbn [bind].
  cbn [df_set drop_column]. rewrite String.eqb_refl. cbn [drop_column].
  rewrite String.eqb_refl.
  rewrite (map_snd_combine _ _ Hlen), (map_fst_combine _ _ Hlen).
  eexists. split; [reflexivity|]. split.
  - subst daily. cbn [map fst]. now rewrite group_columns_names, (map_fst_combine _ _ Hlen).
  - intros inst Hin. destruct (In_nth _ _ "" Hin) as [i [Hi Hnth]].
    assert (Hne : String.eqb "Date" inst = false).
    { apply String.eqb_neq. intros <-. contradiction. }
    exists (nth i vs []). eexists. subst daily. cbn [df_get]. rewrite Hne.
    rewrite <- Hnth. split; [now apply df_get_combine|].
    split; [now apply df_get_group_columns|].
    rewrite column_total_groups. cbn [Nat.add].
    rewrite (groupby_agg_total i (List.length vs)) by apply frame_rows_width.
    apply frame_rows_total; [|lia].
    rewrite !length_map. exact Hcols.
Qed.

Lemma monthly_volumes_keep_totals_witness :
  let cp := mkTransaction (Some 0%Q) (Some 20) (Some 30) None "CP" "JPY" 100 in
  let tb := mkTransaction (Some 0%Q) (Some 5) (Some 6) None "TB" "JPY" 100 in
  let ops := [ mkOperation (mkdate 2023 2 14) [cp]; mkOperation (mkdate 2023 2 16) [tb; cp] ] in
  exists monthly,
    get_chart_data ops ["CP"; "TB"] (mkdate 2023 2 1) (mkdate 2023 2 28) false true
    = Ok monthly
    /\ map fst monthly = ["Date"; "CP"; "TB"].
Proof.
  intros cp tb ops.
  pose (df := [ ("Date", [CDate (mkdate 2023 2 14); CDate (mkdate 2023 2 16)]);
                ("CP", [CFloat 2%Q; CFloat 2%Q]);
                ("TB", [CFloat 0%Q; CFloat (1 # 2)%Q]) ]).
  assert (H : get_chart_data ops ["CP"; "TB"] (mkdate 2023 2 1) (mkdate 2023 2 28)
                             false false = Ok df)
    by (vm_compute; reflexivity).
  assert (Hnd : NoDup ["CP"; "TB"]).
  { repeat constructor; simpl; intuition discriminate. }
  assert (Hdate : ~ In "Date" ["CP"; "TB"]).
  { simpl. intros [E|[E|[]]]; discriminate. }
  destruct (monthly_volumes_keep_totals ops ["CP"; "TB"] (mkdate 2023 2 1)
              (mkdate 2023 2 28) false df Hnd Hdate eq_refl H) as [monthly [Hm [Hn _]]].
  exists monthly. split; [exact Hm | exact Hn].
Defined.

(** ** The stacking of the bars *)

Section StackingFacts.
Variable series_add : list cell -> list cell -> list cell.

Lemma stacked_names (df : frame) : map fst (stacked series_add df) = map fst df.
Proof.
  induction df as [|[n c] df IH]; [reflexivity|]. simpl.
  destruct (stacked series_add df) as [|[n' c'] rest']; destruct df as [|[n2 c2] df];
    simpl in *; try discriminate; try reflexivity.
  now rewrite IH.
Qed.

Lemma stacked_head (df : frame) :
  hd [] (map snd (stacked series_add df)) = suffix_sum series_add (map snd df).
Proof.
  induction df as [|[n c] df IH]; [reflexivity|].
  pose proof (stacked_names df) as Hn. cbn [stacked map snd suffix_sum].
  destruct (stacked series_add df) as [|[n' c'] rest']; destruct df as [|[n2 c2] df];
    try discriminate; [reflexivity|].
  cbn [map snd hd] in *. now rewrite <- IH.
Qed.

Lemma stacked_tail (n : string) (c : list cell) (df : frame) :
  tl (map snd (stacked series_add ((n, c) :: df))) = map snd (stacked series_add df).
Proof.
  cbn [stacked]. destruct (stacked series_add df) as [|[n' c'] rest']; reflexivity.
Qed.

Lemma nth_hd_tl {A : Type} (l : list A) (d : A) (i : nat) :
  nth i l d = match i with O => hd d l | S i' => nth i' (tl l) d end.
Proof.
  destruct l, i; try reflexivity. simpl. now destruct i.
Qed.

Lemma stacked_columns (df : frame) (i : nat) :
  nth i (map snd (stacked series_add df)) []
  = suffix_sum series_add (skipn i (map snd df)).
Proof.
  revert df. induction i as [|i IH]; intros df.
  - rewrite nth_hd_tl. apply stacked_head.
  - destruct df as [|[n c] df]; [reflexivity|].
    rewrite nth_hd_tl, stacked_tail. cbn [map skipn]. apply IH.
Qed.

Lemma df_get_app_last (pre : frame) (n : string) (c : list cell) (post : frame) :
  ~ In n (map fst pre) -> df_get n (pre ++ (n, c) :: post)%list = Some c.
Proof.
  induction pre as [|[n0 c0] pre IH]; simpl; intros H.
  - now rewrite String.eqb_refl.
  - destruct (String.eqb_spec n0 n) as [E|E]; [exfalso; apply H; now left|].
    apply IH. intros Hin. apply H. now right.
Qed.

Lemma df_set_app_last (pre : frame) (n : string) (c c' : list cell) (post : frame) :
  ~ In n (map fst pre) ->
  df_set n c' (pre ++ (n, c) :: post)%list = (pre ++ (n, c') :: post)%list.
Proof.
  induction pre as [|[n0 c0] pre IH]; simpl; intros H.
  - now rewrite String.eqb_refl.
  - destruct (String.eqb_spec n0 n) as [E|E]; [exfalso; apply H; now left|].
    rewrite IH; [reflexivity|]. intros Hin. apply H. now right.
Qed.

Lemma fold_left_rev {A B : Type} (f : A -> B -> A) (l : list B) (a : A) :
  fold_left f (rev l) a = fold_right (fun y x => f x y) a l.
Proof.
  induction l as [|b l IH]; [reflexivity|]. simpl. rewrite fold_left_app. simpl.
  now rewrite IH.
Qed.

Lemma stack_loop (orig : frame) (m s : nat) :
  NoDup (map fst orig) -> (2 <= s)%nat -> (s + m = List.length orig)%nat ->
  fold_right (fun j df => stack_step series_add (map fst orig) df j) orig (seq s m)
  = (firstn (s - 1) orig ++ stacked series_add (skipn (s - 1) orig))%list.
Proof.
  intros Hnd. revert s. induction m as [|m IH]; intros s Hs Hlen.
  - simpl. rewrite Nat.add_0_r in Hlen.
    rewrite <- (firstn_skipn (s - 1) orig) at 1. f_equal.
    assert (Hl : List.length (skipn (s - 1) orig) = 1%nat) by (rewrite length_skipn; lia).
    destruct (skipn (s - 1) orig) as [|[n c] [|x l]]; try discriminate. reflexivity.
  - cbn [seq fold_right]. rewrite (IH (S s)) by lia.
    replace (S s - 1)%nat with s by lia.
    (* the columns below and above the one that is updated *)
    assert (Hsplit : exists pre n c post,
               orig = (pre ++ (n, c) :: post)%list /\ List.length pre = (s - 1)%nat).
    { destruct (nth_error orig (s - 1)) as [[n c]|] eqn:E.
      - apply nth_error_split in E as [pre [post [E1 E2]]]. now exists pre, n, c, post.
      - apply nth_error_None in E. lia. }
    destruct Hsplit as [pre [n [c [post [Horig Hpre]]]]].
    assert (Hpost : post <> []).
    { intros ->. rewrite Horig, length_app in Hlen. simpl in Hlen. lia. }
    assert (Hfresh : ~ In n (map fst pre)).
    { rewrite Horig, map_app in Hnd. apply NoDup_remove_2 in Hnd.
      intros Hin. apply Hnd. apply in_or_app. now left. }
    assert (F1 : firstn s orig = (pre ++ [(n, c)])%list).
    { rewrite Horig, firstn_app, (firstn_all2 pre) by lia.
      replace (s - List.length pre)%nat with 1%nat by lia. reflexivity. }
    assert (S1 : skipn s orig = post).
    { rewrite Horig, skipn_app, (skipn_all2 pre) by lia.
      replace (s - List.length pre)%nat with 1%nat by lia. reflexivity. }
    assert (F0 : firstn (s - 1) orig = pre).
    { rewrite Horig, firstn_app, (firstn_all2 pre) by lia.
      replace (s - 1 - List.length pre)%nat with 0%nat by lia. apply app_nil_r. }
    assert (S0 : skipn (s - 1) orig = (n, c) :: post).
    { rewrite Horig, skipn_app, (skipn_all2 pre) by lia.
      replace (s - 1 - List.length pre)%nat with 0%nat by lia. reflexivity. }
    rewrite F1, S1, F0, S0. cbn [stacked].
    pose proof (stacked_names post) as Hnames.
    destruct (stacked series_add post) as [|[n' c'] rest'] eqn:Est.
    { destruct post; [contradiction|discriminate]. }
    unfold stack_step.
    assert (N0 : nth_error (map fst orig) (s - 1) = Some n).
    { rewrite Horig, map_app, nth_error_app2 by (rewrite length_map; lia).
      rewrite length_map, Hpre, Nat.sub_diag. reflexivity. }
    assert (N1 : nth_error (map fst orig) s = Some n').
    { rewrite Horig, map_app, nth_error_app2 by (rewrite length_map; lia).
      rewrite length_map, Hpre. replace (s - (s - 1))%nat with 1%nat by lia.
      cbn [map nth_error]. rewrite <- Hnames. reflexivity. }
    rewrite N0, N1.
    rewrite <- app_assoc. cbn [app].
    rewrite (df_get_app_last pre n c _ Hfresh).
    assert (G1 : df_get n' (pre ++ (n, c) :: (n', c') :: rest')%list = Some c').
    { change (pre ++ (n, c) :: (n', c') :: rest')%list
        with (pre ++ ([(n, c)] ++ (n', c') :: rest'))%list.
      rewrite app_assoc. apply df_get_app_last.
      rewrite Horig in Hnd. rewrite map_app in Hnd |- *. cbn [map fst] in Hnd |- *.
      rewrite <- Hnames in Hnd. cbn [map fst] in Hnd.
      intros Hin. apply in_app_or in Hin as [Hin|[Hin|[]]].
      - apply NoDup_remove_1 in Hnd.
        assert (Hnd' := Hnd).
        apply (NoDup_remove_2 (map fst pre) (map fst rest') n') in Hnd'.
        apply Hnd'. apply in_or_app. now left.
      - subst n'. apply NoDup_remove_2 in Hnd. apply Hnd. apply in_or_app. right. now left. }
    rewrite G1. now rewrite df_set_app_last.
Qed.

(** Stacking the bars of a frame whose columns have different names
    leaves the names and the first column alone and replaces every other
    column by the sum of itself and all the columns after it, added from
    the last column backwards. *)
Theorem stack_bars_spec (df : frame) :
  NoDup (map fst df) ->
  map fst (stack_bars series_add df) = map fst df
  /\ nth 0 (map snd (stack_bars series_add df)) [] = nth 0 (map snd df) []
  /\ forall i, (1 <= i)%nat ->
       nth i (map snd (stack_bars series_add df)) []
       = suffix_sum series_add (skipn i (map snd df)).
Proof.
  intros Hnd.
  assert (E : stack_bars series_add df
              = match df with
                | [] => []
                | first :: rest => first :: stacked series_add rest
                end).
  { unfold stack_bars, range_down. rewrite length_map, fold_left_rev.
    destruct df as [|first rest]; [reflexivity|].
    destruct rest as [|second rest]; [reflexivity|].
    rewrite (stack_loop _ _ 2 Hnd); [reflexivity|lia|simpl; lia]. }
  rewrite E. destruct df as [|[n c] rest].
  - repeat split. intros [|i] _; reflexivity.
  - cbn [map fst snd nth]. rewrite stacked_names. repeat split.
    intros [|i] Hi; [lia|]. cbn [nth skipn]. apply stacked_columns.
Qed.
End StackingFacts.

Lemma stack_bars_spec_witness :
  let df := [ ("Date", [CDate (mkdate 2023 2 1); CDate (mkdate 2023 3 1)]);
              ("A", [CFloat 1%Q; CFloat 2%Q]);
              ("B", [CFloat 10%Q; CFloat 20%Q]);
              ("C", [CFloat 100%Q; CFloat 200%Q]) ] in
  nth 1 (map snd (stack_bars add_floats df)) [] = [CFloat 111%Q; CFloat 222%Q].
Proof.
  intros df.
  assert (Hnd : NoDup (map fst df)).
  { repeat constructor; simpl; intuition discriminate. }
  destruct (stack_bars_spec add_floats df Hnd) as [_ [_ H]].
  rewrite (H 1%nat (le_n 1)). vm_compute. reflexivity.
Defined.

(** ** The progress bar *)

Lemma py_round_bounds (x : Q) (n : Z) :
  (0 <= x)%Q -> (x <= inject_Z n)%Q -> 0 <= py_round x <= n.
Proof.
  intros H0 Hn. unfold py_round.
  assert (F0 : 0 <= Qfloor x).
  { change 0 with (Qfloor 0). now apply Qfloor_resp_le. }
  assert (Fn : Qfloor x <= n).
  { rewrite <- (Qfloor_Z n). now apply Qfloor_resp_le. }
  destruct (Z.eq_dec (Qfloor x) n) as [E|E].
  - assert (Hlt : (x - inject_Z (Qfloor x) < 1 # 2)%Q).
    { rewrite E. apply Qle_lt_trans with (y := 0%Q); [|reflexivity].
      apply (Qplus_le_l _ _ (inject_Z n)). ring_simplify. exact Hn. }
    pose proof (proj1 (Qlt_alt _ _) Hlt) as C. cbv zeta. rewrite C. lia.
  - cbv zeta. destruct (Qcompare _ _); [destruct (Z.even _)| |]; lia.
Qed.

Lemma py_trunc_bounds (x : Q) (n : Z) :
  (0 <= x)%Q -> (x <= inject_Z n)%Q -> 0 <= py_trunc x <= n.
Proof.
  intros H0 Hn. unfold py_trunc.
  assert (E : Qle_bool 0 x = true) by now apply Qle_bool_iff.
  rewrite E. split.
  - change 0 with (Qfloor 0). now apply Qfloor_resp_le.
  - rewrite <- (Qfloor_Z n). now apply Qfloor_resp_le.
Qed.

Lemma str_times_length (s : string) (n : nat) :
  String.length (str_times s n) = (n * String.length s)%nat.
Proof.
  induction n as [|n IH]; [reflexivity|]. simpl. now rewrite str_length_app, IH.
Qed.

(** What [update_progress] writes: a bar of exactly 40 places, of
    which between 0 and 40 are filled, with a percentage between 0 and
    100, for every float that is a number or an infinity, for every int
    within the floats and for every argument that is neither; for NaN a
    [ValueError] comes from [round], and for an int beyond the floats an
    [OverflowError] from [float], and nothing is written. *)
Theorem update_progress_bar (progress : progress_arg) (tag : string) :
  match progress with
  | PFloat NaN =>
      update_progress progress tag
      = Raise (ValueError "cannot convert float NaN to integer")
  | PInt n =>
      if float_limit <=? Z.abs n
      then update_progress progress tag = Raise OverflowError
      else bar_written tag (update_progress progress tag)
  | _ => bar_written tag (update_progress progress tag)
  end.
Proof.
  assert (H01 : (0 <= 1)%Q) by (unfold Qle; simpl; lia).
  assert (Hclamped : forall (x : Q),
             (0 <= x)%Q -> (x <= 1)%Q ->
             0 <= py_round (inject_Z bar_length * x) <= 40
             /\ 0 <= py_trunc (inject_Z 100 * x) <= 100).
  { intros x H0 H1. split.
    - apply py_round_bounds.
      + apply Qmult_le_0_compat; [unfold Qle; simpl; lia|exact H0].
      + setoid_replace (inject_Z 40) with (inject_Z bar_length * 1)%Q by reflexivity.
        apply Qmult_le_l; [reflexivity|exact H1].
    - apply py_trunc_bounds.
      + apply Qmult_le_0_compat; [unfold Qle; simpl; lia|exact H0].
      + setoid_replace (inject_Z 100) with (inject_Z 100 * 1)%Q at 2 by reflexivity.
        apply Qmult_le_l; [reflexivity|exact H1]. }
  assert (Hwidth : forall block, 0 <= block <= 40 ->
             String.length (str_repeat "=" block ++ str_repeat " " (40 - block)) = 40%nat).
  { intros block Hb. unfold str_repeat. rewrite str_length_app, !str_times_length.
    simpl String.length. lia. }
  assert (Hbar : forall x status,
             (0 <= x)%Q -> (x <= 1)%Q ->
             bar_written tag
               (block <- to_integer py_round (float_scale bar_length (Finite x)) ;;
                percent <- to_integer py_trunc (float_scale 100 (Finite x)) ;;
                Ok (CR ++ tag ++ " [" ++ (str_repeat "=" block
                                           ++ str_repeat " " (bar_length - block))
                       ++ "] " ++ str_of_int percent ++ "% " ++ status))).
  { intros x status H0 H1. destruct (Hclamped x H0 H1) as [Hb Hp].
    cbn [float_scale to_integer bind].
    eexists _, _, _. split; [reflexivity|]. split; [exact Hb|]. split; [exact Hp|].
    now apply Hwidth. }
  assert (Hzero : forall status,
             bar_written tag
               (let '(progress, status) :=
                  if float_at_least_one (Finite 0) then (Finite 1, "Done..." ++ CRLF)
                  else (Finite 0, status) in
                block <- to_integer py_round (float_scale bar_length progress) ;;
                percent <- to_integer py_trunc (float_scale 100 progress) ;;
                Ok (CR ++ tag ++ " [" ++ (str_repeat "=" block
                                           ++ str_repeat " " (bar_length - block))
                       ++ "] " ++ str_of_int percent ++ "% " ++ status))).
  { intros status. unfold float_at_least_one.
    destruct (Qlt_le_dec 0 1) as [_|Habs];
      [|exfalso; revert Habs; unfold Qle; simpl; lia].
    apply Hbar; [apply Qle_refl | exact H01]. }
  assert (Hfinite : forall q, bar_written tag (update_progress (PFloat (Finite q)) tag)).
  { intros q. unfold update_progress. cbn [bind]. unfold float_negative.
    destruct (Qlt_le_dec q 0) as [Hneg|Hpos]; [apply Hzero|].
    unfold float_at_least_one.
    destruct (Qlt_le_dec q 1) as [Hlt|Hge].
    - apply Hbar; [exact Hpos | now apply Qlt_le_weak].
    - apply Hbar; [exact H01 | apply Qle_refl]. }
  destruct progress as [n|[q| | |]|].
  - destruct (Z.leb_spec float_limit (Z.abs n)) as [Hbig|Hsmall].
    + unfold update_progress, float_of_big_int.
      destruct (Z.leb_spec float_limit (Z.abs n)); [reflexivity | lia].
    + pose proof (Hfinite (float_of_int n)) as H.
      unfold update_progress, float_of_big_int in *.
      destruct (Z.leb_spec float_limit (Z.abs n)); [lia | exact H].
  - apply Hfinite.
  - unfold update_progress. cbn [bind float_negative float_at_least_one].
    apply Hbar; [exact H01 | apply Qle_refl].
  - unfold update_progress. cbn [bind float_negative]. apply Hzero.
  - reflexivity.
  - unfold update_progress. cbn [bind]. unfold float_negative.
    destruct (Qlt_le_dec 0 0) as [Habs|_];
      [exfalso; revert Habs; unfold Qlt; simpl; lia|].
    apply Hzero.
Qed.
